(** * Ikaruga asset viewer: PVR / PVM / NJ decoders

    A shallow embedding of the decoding routines documented and shipped in
    the asset viewer (the C routines of the PVR guide, the Python routine of
    the PVM guide, the TypeScript routines of the NJ guide and of the
    [NjViewer] component), followed by the properties proved about them. *)

From Stdlib Require Import ZArith QArith List Lia Bool Ascii.
From stdpp Require Import base option list strings pretty gmap.

Local Open Scope Z_scope.

(* ===================================================================== *)
(** * Part I: the embedding *)
(* ===================================================================== *)

(** ** C integer types

    The C snippets compute on [uint8_t], [uint16_t], [uint32_t] and [int].
    Values are integers of [Z]; every conversion to a fixed-width type is
    written out as the wrap-around it performs. *)
Module CInt.

Definition u8 (z : Z) : Z := z mod 2 ^ 8.
Definition u16 (z : Z) : Z := z mod 2 ^ 16.
Definition u32 (z : Z) : Z := z mod 2 ^ 32.

(** Conversion to a 32-bit two's complement [int]. *)
Definition i32 (z : Z) : Z :=
  let u := z mod 2 ^ 32 in
  if u <? 2 ^ 31 then u else u - 2 ^ 32.

(** A counted [for (int i = start; ...; i++)] loop running [n] times. *)
Fixpoint for_loop {S : Type} (n : nat) (i : Z) (body : Z -> S -> S) (s : S) : S :=
  match n with
  | O => s
  | Datatypes.S n' => for_loop n' (i + 1) body (body i s)
  end.

End CInt.

(** ** Pixel format conversion (PVR guide, "Converting Between Color Formats") *)
Module Pixel.
Import CInt.

(** The four bytes written to [output[0..3]]. *)
Record rgba8888 := RGBA { out0 : Z; out1 : Z; out2 : Z; out3 : Z }.

Definition argb1555_to_rgba8888 (input : Z) : rgba8888 :=
  let input := u16 input in
  let a := if Z.land input 0x8000 =? 0 then 0x00 else 0xFF in
  let r := u8 (Z.shiftl (Z.land (Z.shiftr input 10) 0x1F) 3) in
  let g := u8 (Z.shiftl (Z.land (Z.shiftr input 5) 0x1F) 3) in
  let b := u8 (Z.shiftl (Z.land input 0x1F) 3) in
  let r := u8 (Z.lor r (Z.shiftr r 5)) in
  let g := u8 (Z.lor g (Z.shiftr g 5)) in
  let b := u8 (Z.lor b (Z.shiftr b 5)) in
  RGBA r g b a.

Definition rgb565_to_rgba8888 (input : Z) : rgba8888 :=
  let input := u16 input in
  let r := u8 (Z.shiftl (Z.land (Z.shiftr input 11) 0x1F) 3) in
  let g := u8 (Z.shiftl (Z.land (Z.shiftr input 5) 0x3F) 2) in
  let b := u8 (Z.shiftl (Z.land input 0x1F) 3) in
  let r := u8 (Z.lor r (Z.shiftr r 5)) in
  let g := u8 (Z.lor g (Z.shiftr g 6)) in
  let b := u8 (Z.lor b (Z.shiftr b 5)) in
  RGBA r g b 0xFF.

Definition argb4444_to_rgba8888 (input : Z) : rgba8888 :=
  let input := u16 input in
  let a := u8 (Z.shiftl (Z.land (Z.shiftr input 12) 0xF) 4) in
  let r := u8 (Z.shiftl (Z.land (Z.shiftr input 8) 0xF) 4) in
  let g := u8 (Z.shiftl (Z.land (Z.shiftr input 4) 0xF) 4) in
  let b := u8 (Z.shiftl (Z.land input 0xF) 4) in
  let a := u8 (Z.lor a (Z.shiftr a 4)) in
  let r := u8 (Z.lor r (Z.shiftr r 4)) in
  let g := u8 (Z.lor g (Z.shiftr g 4)) in
  let b := u8 (Z.lor b (Z.shiftr b 4)) in
  RGBA r g b a.

(** The pixel formats exercised by the three conversion routines. *)
Inductive pixel_format := ARGB1555 | RGB565 | ARGB4444.

Definition decode_pixel (fmt : pixel_format) (raw : Z) : rgba8888 :=
  match fmt with
  | ARGB1555 => argb1555_to_rgba8888 raw
  | RGB565 => rgb565_to_rgba8888 raw
  | ARGB4444 => argb4444_to_rgba8888 raw
  end.

End Pixel.

(** ** Morton order (PVR guide, [toMorton] / [untwiddle]) *)
Module Morton.
Import CInt.

(** One iteration of the loop body:
    [morton |= ((x & (1 << i)) << i) | ((y & (1 << i)) << (i + 1))].
    The operands are promoted to [int]; the value or-ed in is converted
    to [uint32_t]. *)
Definition morton_step (x y : Z) (i : Z) (morton : Z) : Z :=
  let xs := i32 (Z.shiftl (Z.land x (i32 (Z.shiftl 1 i))) i) in
  let ys := i32 (Z.shiftl (Z.land y (i32 (Z.shiftl 1 i))) (i + 1)) in
  u32 (Z.lor morton (u32 (Z.lor xs ys))).

Definition toMorton (x y : Z) : Z :=
  let x := u16 x in
  let y := u16 y in
  for_loop 16 0 (morton_step x y) 0.

(** [untwiddle] has the same body as [toMorton]. *)
Definition untwiddle (x y : Z) : Z :=
  let x := u16 x in
  let y := u16 y in
  for_loop 16 0 (morton_step x y) 0.

(** Modelled from the spec: [from_morton], the inverse mapping of section
    4.2, is not among the shipped sources. It gathers the even bit positions
    of the index into x and the odd bit positions into y, 16 bits each. *)
Definition from_morton_step (m : Z) (i : Z) (xy : Z * Z) : Z * Z :=
  (Z.lor (fst xy) (Z.shiftl (Z.land (Z.shiftr m (2 * i)) 1) i),
   Z.lor (snd xy) (Z.shiftl (Z.land (Z.shiftr m (2 * i + 1)) 1) i)).

Definition from_morton (m : Z) : Z * Z :=
  let m := u32 m in
  for_loop 16 0 (from_morton_step m) (0, 0).

End Morton.

(** ** Detwiddling a texture (PVR guide, [decode_twiddled_texture]) *)
Module Twiddled.
Import CInt Pixel Morton.

(** C arrays are lists; an access outside the array is undefined behaviour,
    which the model reports as [None]. *)
Definition load (a : list Z) (i : Z) : option Z :=
  if i <? 0 then None else a !! Z.to_nat i.

Definition store (a : list Z) (i v : Z) : option (list Z) :=
  if (0 <=? i) && (i <? Z.of_nat (length a))
  then Some (<[Z.to_nat i := v]> a)
  else None.

(** [(rgba[3] << 24) | (rgba[0] << 16) | (rgba[1] << 8) | rgba[2]],
    computed on [int] and stored into a [uint32_t]. *)
Definition pack_pixel (rgba : rgba8888) : Z :=
  u32 (Z.lor (Z.lor (Z.lor (i32 (Z.shiftl (out3 rgba) 24))
                           (Z.shiftl (out0 rgba) 16))
                    (Z.shiftl (out1 rgba) 8))
             (out2 rgba)).

(** The body of the inner loop, for one output coordinate. *)
Definition decode_texel (src : list Z) (width height : Z) (y x : Z)
    (dst : option (list Z)) : option (list Z) :=
  dst ← dst;
  let morton_idx := i32 (untwiddle x y) in
  if morton_idx <? i32 (width * height) then
    color ← load src morton_idx;
    let rgba := argb1555_to_rgba8888 color in
    store dst (i32 (i32 (y * width) + x)) (pack_pixel rgba)
  else Some dst.

Definition decode_row (src : list Z) (width height : Z) (y : Z)
    (dst : option (list Z)) : option (list Z) :=
  for_loop (Z.to_nat width) 0 (decode_texel src width height y) dst.

Definition decode_twiddled_texture (src dst : list Z) (width height : Z)
    : option (list Z) :=
  for_loop (Z.to_nat height) 0 (decode_row src width height) (Some dst).

End Twiddled.

(** ** SMALLVQ codebook size *)
Module SmallVQ.

(** Modelled from the spec: the VQ decompressor ([decode_vq], section 4.4)
    is not among the shipped sources; the PVR guide only lists the policy.
    "width/height <= 16 -> 16 entries; <= 32 -> 32 entries; <= 64 -> 128
    entries; otherwise 256 entries. Non-small VQ always uses 256 entries." *)
Definition codebook_size (small : bool) (width height : Z) : Z :=
  if small then
    if (width <=? 16) && (height <=? 16) then 16
    else if (width <=? 32) && (height <=? 32) then 32
    else if (width <=? 64) && (height <=? 64) then 128
    else 256
  else 256.

End SmallVQ.

(** ** A state and exception monad

    The parsers thread a cursor (and the objects they build) through many
    calls and may raise. A computation maps a state to a result and the state
    reached; [OutOfFuel] is the result of a recursion or loop that was cut off
    by its fuel bound. *)
Module Eff.

Inductive res (E A : Type) : Type :=
| Ok (a : A)
| Err (e : E)
| OutOfFuel.
Arguments Ok {E A} a.
Arguments Err {E A} e.
Arguments OutOfFuel {E A}.

Definition M (S E A : Type) : Type := S -> res E A * S.

Section Ops.
Context {S E : Type}.

Definition ret {A} (a : A) : M S E A := fun s => (Ok a, s).

Definition bind {A B} (c : M S E A) (k : A -> M S E B) : M S E B :=
  fun s =>
    match c s with
    | (Ok a, s') => k a s'
    | (Err e, s') => (Err e, s')
    | (OutOfFuel, s') => (OutOfFuel, s')
    end.

Definition throw {A} (e : E) : M S E A := fun s => (Err e, s).

Definition get : M S E S := fun s => (Ok s, s).
Definition modify (f : S -> S) : M S E unit := fun s => (Ok tt, f s).

(** [try { body } catch (err) { handler err }] *)
Definition try_catch {A} (body : M S E A) (handler : E -> M S E A) : M S E A :=
  fun s =>
    match body s with
    | (Err e, s') => handler e s'
    | r => r
    end.

(** [if (c) { body }] *)
Definition when (c : bool) (body : M S E unit) : M S E unit :=
  if c then body else ret tt.

(** Sequential [map] of an effectful callback over an array. *)
Fixpoint mapM {A B} (f : A -> M S E B) (l : list A) : M S E (list B) :=
  match l with
  | [] => ret []
  | a :: l' => bind (f a) (fun b => bind (mapM f l') (fun bs => ret (b :: bs)))
  end.
End Ops.

Declare Scope eff_scope.
Delimit Scope eff_scope with eff.
Notation "x <- c ;; k" := (bind c (fun x => k))
  (at level 20, c at level 99, k at level 200, only parsing) : eff_scope.
Notation "' pat <- c ;; k" := (bind c (fun x => match x with pat => k end))
  (at level 20, pat pattern, c at level 99, k at level 200, only parsing) : eff_scope.
Notation "c ;; k" := (bind c (fun _ => k))
  (at level 100, k at level 200, right associativity, only parsing) : eff_scope.

End Eff.

(** ** PVM container header (PVM guide, [parse_pvm_header]) *)
Module Pvm.
Import Eff.
Local Open Scope eff_scope.

Inductive py_exn :=
| ValueError (msg : string)
| struct_error
| UnicodeDecodeError.

Inductive py_val :=
| PyInt (n : Z)
| PyStr (s : string).

(** An open binary file: its bytes and the read position. *)
Record file := File { contents : list Z; offset : nat }.

(** [f.read(n)]: at most [n] bytes, fewer at the end of the file. *)
Definition read (n : nat) : M file py_exn (list Z) :=
  fun f =>
    let bs := take n (drop (offset f) (contents f)) in
    (Ok bs, File (contents f) (offset f + length bs)).

(** [struct.unpack] raises [struct.error] unless the buffer has exactly the
    size of the format; fields are little-endian. *)
Definition unpack_H (bs : list Z) : M file py_exn Z :=
  match bs with
  | [b0; b1] => ret (b0 + 2 ^ 8 * b1)
  | _ => throw struct_error
  end.

Definition unpack_I (bs : list Z) : M file py_exn Z :=
  match bs with
  | [b0; b1; b2; b3] => ret (b0 + 2 ^ 8 * b1 + 2 ^ 16 * b2 + 2 ^ 24 * b3)
  | _ => throw struct_error
  end.

Definition unpack_HH (bs : list Z) : M file py_exn (Z * Z) :=
  match bs with
  | [b0; b1; b2; b3] => ret (b0 + 2 ^ 8 * b1, b2 + 2 ^ 8 * b3)
  | _ => throw struct_error
  end.

(** [s.replace('\x00', '')] *)
Fixpoint replace_nul (s : string) : string :=
  match s with
  | EmptyString => EmptyString
  | String c s' =>
      if Ascii.eqb c Ascii.zero then replace_nul s' else String c (replace_nul s')
  end.

Definition magic_PVMH : list Z := [0x50; 0x56; 0x4D; 0x48].

Record pvm_header := PvmHeader {
  header_size : Z;
  flags : Z;
  texture_count : Z;
  textures : list (gmap string py_val)
}.

Section Parse.
(** [bytes.decode()] of the Python library: [None] when the bytes are not
    valid UTF-8. *)
Variable decode : list Z -> option string.

(** One iteration of the loop over the texture entries. *)
Definition read_texture (flags : Z) : M file py_exn (gmap string py_val) :=
  bs <- read 2 ;;
  index <- unpack_H bs ;;
  let texture : gmap string py_val := {[ "index" := PyInt index ]} in
  texture <-
    (if Z.land flags 0x08 =? 0 then ret texture
     else
       name_bytes <- read 28 ;;
       match decode name_bytes with
       | None => throw UnicodeDecodeError
       | Some s => ret (<[ "name" := PyStr (replace_nul s) ]> texture)
       end) ;;
  texture <-
    (if Z.land flags 0x04 =? 0 then ret texture
     else
       bs <- read 2 ;;
       format_value <- unpack_H bs ;;
       ret (<[ "format" := PyInt (Z.shiftr format_value 8) ]> texture)) ;;
  texture <-
    (if Z.land flags 0x02 =? 0 then ret texture
     else
       bs <- read 2 ;;
       size <- unpack_H bs ;;
       let width := Z.shiftl 1 (Z.land size 0x0f + 2) in
       let height := Z.shiftl 1 (Z.land (Z.shiftr size 4) 0x0f + 2) in
       ret (<[ "height" := PyInt height ]> (<[ "width" := PyInt width ]> texture))) ;;
  texture <-
    (if Z.land flags 0x01 =? 0 then ret texture
     else
       bs <- read 4 ;;
       global_index <- unpack_I bs ;;
       ret (<[ "global_index" := PyInt global_index ]> texture)) ;;
  ret texture.

(** [for i in range(tex_count): ... textures.append(texture)] *)
Fixpoint read_textures (flags : Z) (n : nat) (textures : list (gmap string py_val))
    : M file py_exn (list (gmap string py_val)) :=
  match n with
  | O => ret textures
  | S n' =>
      texture <- read_texture flags ;;
      read_textures flags n' (textures ++ [texture])
  end.

Definition parse_pvm_header_from : M file py_exn pvm_header :=
  magic <- read 4 ;;
  if negb (bool_decide (magic = magic_PVMH))
  then throw (ValueError "Not a valid PVM file")
  else
    bs <- read 4 ;;
    header_size <- unpack_I bs ;;
    bs <- read 4 ;;
    '(flags, tex_count) <- unpack_HH bs ;;
    textures <- read_textures flags (Z.to_nat tex_count) [] ;;
    ret (PvmHeader header_size flags tex_count textures).

(** The routine applied to the bytes of the file at [file_path]. *)
Definition parse_pvm_header (bytes : list Z) : res py_exn pvm_header :=
  fst (parse_pvm_header_from (File bytes 0)).
End Parse.

End Pvm.

(** ** NJ models (NJ guide, [readBone] and [readChunk]) *)
Module Nj.
Import Eff.
Local Open Scope eff_scope.

(** The error kinds of the decoding core. *)
Inductive DecodeError :=
| BadMagic
| UnsupportedFormat
| TruncatedInput
| IndexOutOfRange
| CyclicReference
| EntryCountMismatch.

(** The parser state: the cursor of the byte reader and whatever the
    parser at hand builds ([ext]). *)
Record state (X : Type) := State { pos : Z; ext : X }.
Arguments State {X} pos ext.
Arguments pos {X} s.
Arguments ext {X} s.

Section ByteReader.
(** The input buffer, immutable during a decode. *)
Variable buffer : list Z.
Context {X : Type}.

Abbreviation P := (M (state X) DecodeError).

(** Modelled from the spec: the [ByteReader] class is not among the
    shipped sources. All integers are little-endian; a read or seek that
    would leave the buffer is [TruncatedInput]. *)
Definition tell : P Z := fun s => (Ok (pos s), s).

Definition seek (target : Z) : P unit :=
  fun s =>
    if (0 <=? target) && (target <=? Z.of_nat (length buffer))
    then (Ok tt, State target (ext s))
    else (Err TruncatedInput, s).

Definition seekRel (delta : Z) : P unit :=
  here <- tell ;; seek (here + delta).

Definition readUInt8 : P Z :=
  fun s =>
    if pos s <? 0 then (Err TruncatedInput, s)
    else match buffer !! Z.to_nat (pos s) with
         | Some b => (Ok b, State (pos s + 1) (ext s))
         | None => (Err TruncatedInput, s)
         end.

Definition readUInt32 : P Z :=
  b0 <- readUInt8 ;; b1 <- readUInt8 ;; b2 <- readUInt8 ;; b3 <- readUInt8 ;;
  ret (b0 + 2 ^ 8 * b1 + 2 ^ 16 * b2 + 2 ^ 24 * b3).

Definition readInt32 : P Z :=
  u <- readUInt32 ;; ret (CInt.i32 u).

(** A 32-bit float is carried as its IEEE-754 bit pattern: the embedded
    code moves floats around and never computes on them. *)
Definition readFloat : P Z := readUInt32.
End ByteReader.

(** *** Bones *)

Record Vector3 := Vec3 { vx : Z; vy : Z; vz : Z }.
Inductive RotationOrder := XYZ | ZXY.
Record Euler := MkEuler { ex : Z; ey : Z; ez : Z; order : RotationOrder }.

(** A bone of the skeleton. [parent] is the bone it was [add]ed to; the
    children of a bone are, in order, the bones of the arena that name it. *)
Record Bone := MkBone {
  position : Vector3;
  rotation : Euler;
  scale : Vector3;
  parent : option nat
}.

(** The bit pattern of the float 1.0. *)
Definition float_one : Z := 0x3F800000.

(** [new Bone()]: zero position, zero rotation, unit scale, no parent. *)
Definition default_Bone : Bone :=
  MkBone (Vec3 0 0 0) (MkEuler 0 0 0 XYZ) (Vec3 float_one float_one float_one) None.

(** Modelled from the spec: [isBitFlagSet(flags, n)] tests bit [n]. *)
Definition isBitFlagSet (flags n : Z) : bool := Z.testbit flags n.

Section ReadBone.
Variable buffer : list Z.

(** The bones created so far, in creation order; a bone is referred to
    by its index. *)
Abbreviation P := (M (state (list Bone)) DecodeError).

(** [readMeshData] is not among the shipped sources. *)
Variable readMeshData : P unit.

(** Modelled from the spec: position and scale are 3 x float32. *)
Definition readVector3 : P Vector3 :=
  x <- readFloat buffer ;; y <- readFloat buffer ;; z <- readFloat buffer ;;
  ret (Vec3 x y z).

(** Modelled from the spec: rotation is 3 x int32, the axis order selected
    by the flag bit passed in. *)
Definition readRotation (zxy : bool) : P Euler :=
  x <- readInt32 buffer ;; y <- readInt32 buffer ;; z <- readInt32 buffer ;;
  ret (MkEuler x y z (if zxy then ZXY else XYZ)).

Definition newBone : P nat :=
  fun s => (Ok (length (ext s)), State (pos s) (ext s ++ [default_Bone])).

Definition updateBone (bone : nat) (f : Bone -> Bone) : P unit :=
  modify (fun s => State (pos s) (alter f bone (ext s))).

Definition copy_position (v : Vector3) (b : Bone) : Bone :=
  MkBone v (rotation b) (scale b) (parent b).
Definition copy_rotation (e : Euler) (b : Bone) : Bone :=
  MkBone (position b) e (scale b) (parent b).
Definition copy_scale (v : Vector3) (b : Bone) : Bone :=
  MkBone (position b) (rotation b) v (parent b).
Definition set_parent (p : nat) (b : Bone) : Bone :=
  MkBone (position b) (rotation b) (scale b) (Some p).

(** The first half of [readBone]: read the 52-byte record, create the
    bone, apply the transforms that the flags do not suppress and attach
    it to its parent. Returns the bone and the three offsets. *)
Definition readBoneRecord (parentBone : option nat) : P (nat * Z * Z * Z) :=
  boneOffset <- tell ;;
  flags <- readUInt32 buffer ;;
  chunkOfs <- readUInt32 buffer ;;
  position <- readVector3 ;;
  rotation <- readRotation (isBitFlagSet flags 5) ;;
  scale <- readVector3 ;;
  childOfs <- readUInt32 buffer ;;
  siblingOfs <- readUInt32 buffer ;;
  bone <- newBone ;;
  when (negb (isBitFlagSet flags 0)) (updateBone bone (copy_position position)) ;;
  when (negb (isBitFlagSet flags 1)) (updateBone bone (copy_rotation rotation)) ;;
  when (negb (isBitFlagSet flags 2)) (updateBone bone (copy_scale scale)) ;;
  match parentBone with
  | Some p => updateBone bone (set_parent p)
  | None => ret tt
  end ;;
  ret (bone, chunkOfs, childOfs, siblingOfs).

(** [readBone]; [fuel] bounds the depth of the recursion. *)
Fixpoint readBone (fuel : nat) (parentBone : option nat) : P unit :=
  match fuel with
  | O => fun s => (OutOfFuel, s)
  | S fuel' =>
      '(bone, chunkOfs, childOfs, siblingOfs) <- readBoneRecord parentBone ;;
      when (negb (chunkOfs =? 0)) (seek buffer chunkOfs ;; readMeshData) ;;
      when (negb (childOfs =? 0)) (seek buffer childOfs ;; readBone fuel' (Some bone)) ;;
      when (negb (siblingOfs =? 0)) (seek buffer siblingOfs ;; readBone fuel' parentBone)
  end.
End ReadBone.

(** *** The chunk stream *)

Record MaterialState := MkMaterialState { texId : Z; blending : bool; doubleSide : bool }.
(** JavaScript numbers that hold colour channels are rationals. *)
Record Color := MkColor { r : Q; g : Q; b : Q; a : Q }.

(** The state of [readChunk]: its two local variables and the output [G]
    that the chunk readers accumulate. *)
Record chunk_env (G : Type) := ChunkEnv {
  currentMaterial : MaterialState;
  currentColor : Color;
  output : G
}.
Arguments ChunkEnv {G} _ _ _.
Arguments currentMaterial {G} _.
Arguments currentColor {G} _.
Arguments output {G} _.

Definition NJD_NULLOFF : Z := 0x00.
Definition NJD_BITSOFF : Z := 0x01.
Definition NJD_TINYOFF : Z := 0x08.
Definition NJD_MATOFF : Z := 0x10.
Definition NJD_VERTOFF : Z := 0x20.
Definition NJD_STRIPOFF : Z := 0x40.
Definition NJD_ENDOFF : Z := 0xff.

Section ReadChunk.
Variable buffer : list Z.
Context {G : Type}.

Abbreviation P := (M (state (chunk_env G)) DecodeError).

(** The four chunk readers are not among the shipped sources. *)
Variable readStripChunk : Z -> Z -> P unit.
Variable readMaterialChunk : Z -> Z -> P unit.
Variable readTinyChunk : Z -> Z -> P unit.
Variable readBitsChunk : Z -> Z -> P unit.

(** The chain of [if]s that processes one chunk that is not the end. *)
Definition processChunk (head flag : Z) : P unit :=
  if NJD_STRIPOFF <=? head then readStripChunk head flag
  else if NJD_VERTOFF <=? head then ret tt
  else if NJD_MATOFF <=? head then readMaterialChunk head flag
  else if NJD_TINYOFF <=? head then readTinyChunk head flag
  else if NJD_BITSOFF <=? head then readBitsChunk head flag
  else ret tt.

(** The [do { ... } while (true)] loop; [fuel] bounds the iterations. *)
Fixpoint readChunk_loop (fuel : nat) : P unit :=
  match fuel with
  | O => fun s => (OutOfFuel, s)
  | S fuel' =>
      head <- readUInt8 buffer ;;
      flag <- readUInt8 buffer ;;
      if head =? NJD_ENDOFF then ret tt
      else (processChunk head flag ;; readChunk_loop fuel')
  end.

Definition readChunk (fuel : nat) : P unit :=
  modify (fun s =>
    State (pos s)
      (ChunkEnv (MkMaterialState (-1) false false)
                (MkColor 1 1 1 1)
                (output (ext s)))) ;;
  readChunk_loop fuel.
End ReadChunk.

End Nj.

(** ** The model viewer ([NjViewer.tsx])

    Calls into the browser, into three.js and into the parsing library are
    parameters of the embedding; each of them may throw. The [console.log],
    [console.warn] and [console.error] calls only write diagnostics and are
    left out. An [async] function is a computation whose exception is the
    rejection of its promise. *)
Module Viewer.
Import Eff.
Local Open Scope eff_scope.

Inductive js_exn :=
| Error (message : string)
| TypeError (message : string)
| RangeError (message : string)
| DOMException (message : string).

Record ImageData := MkImageData { img_width : Z; img_height : Z; img_data : list Z }.

Record PVMEntry := MkPVMEntry { name : string; data : list Z }.

Record Canvas := MkCanvas {
  canvas_width : Z;
  canvas_height : Z;
  style_border : string;
  title : string
}.

Record UserData := MkUserData {
  applied : bool;
  path : string;
  fromPVM : option bool;
  index : option Z
}.

Record Texture := MkTexture {
  image : Canvas;
  flipY : bool;
  tex_name : string;
  needsUpdate : bool;
  userData : UserData
}.

(** *** Strings *)

(** [s.split(sep)], never empty. *)
Fixpoint split (sep : Ascii.ascii) (s : string) : list string :=
  match s with
  | EmptyString => [EmptyString]
  | String c s' =>
      if Ascii.eqb c sep then EmptyString :: split sep s'
      else match split sep s' with
           | w :: ws => String c w :: ws
           | [] => [String c EmptyString]
           end
  end.

(** [s.split("/").pop() || ""] *)
Definition basename (s : string) : string :=
  List.last (split "/"%char s) EmptyString.

(** [key.split('/').pop()?.split('.')[0]] *)
Definition stem (s : string) : string :=
  List.hd EmptyString (split "."%char (basename s)).

(** *** Texture loading *)

Section Textures.
(** The state of the browser. *)
Variable W : Type.
Variable CanvasRenderingContext2D : Type.

Abbreviation P := (M W js_exn).

Variable parsePvr : list Z -> P ImageData.
Variable parsePvm : list Z -> P (list PVMEntry).
Variable createCanvas : P Canvas.
Variable getContext2d : Canvas -> P (option CanvasRenderingContext2D).
Variable putImageData : CanvasRenderingContext2D -> ImageData -> P unit.
Variable newCanvasTexture : Canvas -> P Texture.

Definition processTextureEntry (entry : PVMEntry) (texturePath : string)
    : P (option (Texture * Canvas)) :=
  try_catch
    (imageData <- parsePvr (data entry) ;;
     canvas <- createCanvas ;;
     let canvas :=
       MkCanvas (img_width imageData) (img_height imageData)
                "1px solid white" (name entry) in
     context <- getContext2d canvas ;;
     match context with
     | None => ret None
     | Some context =>
         putImageData context imageData ;;
         texture <- newCanvasTexture canvas ;;
         let texture :=
           MkTexture (image texture) false (name entry) true
             (MkUserData false (texturePath +:+ "/" +:+ name entry)
                         (Some true) None) in
         ret (Some (texture, canvas))
     end)
    (fun err => ret None).

Definition processPvrFile (buffer : list Z) (texturePath : string) (index : Z)
    : P (option (Texture * Canvas * Z)) :=
  try_catch
    (imageData <- parsePvr buffer ;;
     canvas <- createCanvas ;;
     let canvas :=
       MkCanvas (img_width imageData) (img_height imageData)
                "1px solid white" (basename texturePath) in
     context <- getContext2d canvas ;;
     match context with
     | None => ret None
     | Some context =>
         putImageData context imageData ;;
         texture <- newCanvasTexture canvas ;;
         let texture :=
           MkTexture (image texture) false (basename texturePath) true
             (MkUserData false texturePath None (Some index)) in
         ret (Some (texture, canvas, index))
     end)
    (fun err => ret None).

(** [Promise.all] over the entries; the calls are run one after the
    other. [results.filter(result => result !== null)] keeps the textures
    that decoded. *)
Definition processPvmFile (buffer : list Z) (texturePath : string)
    : P (option (list (Texture * Canvas))) :=
  try_catch
    (entries <- parsePvm buffer ;;
     results <- mapM (fun entry => processTextureEntry entry texturePath) entries ;;
     ret (Some (omap id results)))
    (fun err => ret None).
End Textures.

(** *** Model loading *)

(** A key of the [Map<number | string, THREE.Texture>]. *)
Inductive Key := KNum (n : Z) | KStr (s : string).

#[global] Instance Key_eq_dec : EqDecision Key.
Proof. solve_decision. Defined.

(** The texture map keeps insertion order; a key occurs at most once. A
    material refers to its texture by the key it is stored under. *)
Definition TextureMap := list (Key * Texture).

Fixpoint map_get (m : TextureMap) (k : Key) : option Texture :=
  match m with
  | [] => None
  | (k', t) :: m' => if decide (k' = k) then Some t else map_get m' k
  end.

Definition map_has (m : TextureMap) (k : Key) : bool :=
  match map_get m k with Some _ => true | None => false end.

(** Mutation of the texture object stored under [k]. *)
Fixpoint map_update (f : Texture -> Texture) (k : Key) (m : TextureMap) : TextureMap :=
  match m with
  | [] => []
  | (k', t) :: m' =>
      if decide (k' = k) then (k', f t) :: m' else (k', t) :: map_update f k m'
  end.

Definition set_applied (t : Texture) : Texture :=
  MkTexture (image t) (flipY t) (tex_name t) (needsUpdate t)
    (MkUserData true (path (userData t)) (fromPVM (userData t))
                (index (userData t))).

Definition set_needsUpdate (t : Texture) : Texture :=
  MkTexture (image t) (flipY t) (tex_name t) true (userData t).

Record ColorOpts := MkColorOpts { r : Q; g : Q; b : Q; a : Q }.

Record MaterialOpts := MkMaterialOpts {
  texId : Z;
  blending : bool;
  doubleSide : bool;
  diffuseColor : option ColorOpts
}.

Inductive Side := FrontSide | DoubleSide.

Record MeshPhongMaterial := MkMeshPhongMaterial {
  side : Side;
  transparent : bool;
  mat_name : string;
  color : Q * Q * Q;
  opacity : Q;
  map : option Key;
  mat_needsUpdate : bool
}.

Inductive Material :=
| Phong (m : MeshPhongMaterial)
| MeshNormalMaterial.

Section Model.
Variable W : Type.
Variable BufferGeometry Clip Bone : Type.

(** [String.prototype.toLowerCase] *)
Variable toLowerCase : string -> string.

Record NinjaModel := MkNinjaModel {
  textureNames : option (list string);
  materials : option (list MaterialOpts);
  geometry : option BufferGeometry;
  clips : option (list Clip);
  bones : list Bone
}.

Record Response := MkResponse {
  ok : bool;
  statusText : string;
  arrayBuffer : M W js_exn (list Z)
}.

Record SkinnedMesh := MkSkinnedMesh {
  mesh_geometry : BufferGeometry;
  mesh_materials : list Material;
  children : list Bone;
  skeleton : list Bone;
  skeletonHelper_visible : bool
}.

(** The state of [loadModel]: the browser and the texture map it was
    handed, whose textures it mutates. *)
Record env := Env { world : W; textureMap : TextureMap }.

Abbreviation P := (M env js_exn).

Definition liftW {A} (c : M W js_exn A) : P A :=
  fun s =>
    let '(r, w) := c (world s) in (r, Env w (textureMap s)).

Variable fetch : string -> M W js_exn Response.
Variable parseNinjaModel : list Z -> M W js_exn NinjaModel.
Variable setAnimations : list Clip -> M W js_exn unit.

(** [parsedModel.textureNames[materialOpts.texId]] *)
Definition texture_name_at (names : list string) (texId : Z) : option string :=
  if texId <? 0 then None else names !! Z.to_nat texId.

(** [material.map = texture; material.needsUpdate = true;
    texture.userData.applied = true] for the texture stored under [key]. *)
Definition apply_texture (material : MeshPhongMaterial) (key : Key)
    : P MeshPhongMaterial :=
  modify (fun s => Env (world s) (map_update set_applied key (textureMap s))) ;;
  ret (MkMeshPhongMaterial (side material) (transparent material)
         (mat_name material) (color material) (opacity material)
         (Some key) true).

(** The loop of strategy 3 over [textureMap.entries()]: the first key
    that matches, if any. Evaluating [textureName.toLowerCase()] on an
    undefined [textureName] throws. *)
Fixpoint fuzzy_match (textureName : option string) (entries : TextureMap)
    : P (option Key) :=
  match entries with
  | [] => ret None
  | (KNum _, _) :: rest => fuzzy_match textureName rest
  | (KStr key, _) :: rest =>
      match textureName with
      | None => throw (TypeError "Cannot read properties of undefined")
      | Some textureName' =>
          if bool_decide (key = textureName')
             || bool_decide (toLowerCase key = toLowerCase textureName')
             || bool_decide (toLowerCase (stem key) = toLowerCase textureName')
          then ret (Some (KStr key))
          else fuzzy_match textureName rest
      end
  end.

Definition applyTextureToMaterial (material : MeshPhongMaterial)
    (materialOpts : MaterialOpts) (parsedModel : NinjaModel)
    (materialIndex : nat) : P MeshPhongMaterial :=
  let in_names :=
    match textureNames parsedModel with
    | Some names => Z.of_nat (length names) >? texId materialOpts
    | None => false
    end in
  let textureName :=
    match textureNames parsedModel with
    | Some names => texture_name_at names (texId materialOpts)
    | None => None
    end in
  (* Strategy 1: direct texture name match *)
  s <- get ;;
  '(material, textureApplied) <-
    (match textureName with
     | Some tn =>
         if in_names && negb (bool_decide (tn = EmptyString))
            && map_has (textureMap s) (KStr tn)
         then (m <- apply_texture material (KStr tn) ;; ret (m, true))
         else ret (material, false)
     | None => ret (material, false)
     end) ;;
  (* Strategy 2: by index *)
  s <- get ;;
  '(material, textureApplied) <-
    (if negb textureApplied && (texId materialOpts >=? 0)
        && map_has (textureMap s) (KNum (texId materialOpts))
     then (m <- apply_texture material (KNum (texId materialOpts)) ;; ret (m, true))
     else ret (material, textureApplied)) ;;
  (* Strategy 3: fuzzy name matching *)
  s <- get ;;
  '(material, textureApplied) <-
    (if negb textureApplied && in_names
     then
       found <- fuzzy_match textureName (textureMap s) ;;
       match found with
       | Some key => (m <- apply_texture material key ;; ret (m, true))
       | None => ret (material, textureApplied)
       end
     else ret (material, textureApplied)) ;;
  match map material with
  | Some key =>
      modify (fun s => Env (world s) (map_update set_needsUpdate key (textureMap s)))
  | None => ret tt
  end ;;
  ret material.

(** The callback of [parsedModel.materials.map]. *)
Definition make_material (parsedModel : NinjaModel) (materialOpts : MaterialOpts)
    (index : nat) : P Material :=
  let material :=
    MkMeshPhongMaterial
      (if doubleSide materialOpts then DoubleSide else FrontSide)
      (blending materialOpts || false)
      ("Material_" +:+ pretty index)
      (1%Q, 1%Q, 1%Q) 1%Q None false in
  let material :=
    match diffuseColor materialOpts with
    | Some c =>
        MkMeshPhongMaterial (side material) (transparent material)
          (mat_name material) (r c, g c, b c) (a c)
          (map material) (mat_needsUpdate material)
    | None => material
    end in
  material <- applyTextureToMaterial material materialOpts parsedModel index ;;
  ret (Phong material).

Fixpoint map_materials (parsedModel : NinjaModel) (l : list MaterialOpts)
    (index : nat) : P (list Material) :=
  match l with
  | [] => ret []
  | materialOpts :: l' =>
      m <- make_material parsedModel materialOpts index ;;
      ms <- map_materials parsedModel l' (S index) ;;
      ret (m :: ms)
  end.

Definition loadModel (modelPath : string) : P SkinnedMesh :=
  response <- liftW (fetch ("/iso/" +:+ modelPath)) ;;
  if negb (ok response)
  then throw (Error ("Failed to load model: " +:+ statusText response))
  else
    modelBuffer <- liftW (arrayBuffer response) ;;
    parsedModel <- liftW (parseNinjaModel modelBuffer) ;;
    match clips parsedModel with
    | Some (c :: cs) => liftW (setAnimations (c :: cs))
    | _ => liftW (setAnimations [])
    end ;;
    match geometry parsedModel, materials parsedModel with
    | Some geometry, Some materialOpts =>
        materials <- map_materials parsedModel materialOpts 0 ;;
        let materials :=
          if Nat.eqb (length materials) 0
          then materials ++ [MeshNormalMaterial]
          else materials in
        ret (MkSkinnedMesh geometry materials
               (match bones parsedModel with
                | rootBone :: _ => [rootBone]
                | [] => []
                end)
               (bones parsedModel) false)
    | _, _ => throw (Error "Model missing geometry or materials")
    end.
End Model.

Arguments MkNinjaModel {BufferGeometry Clip Bone} _ _ _ _ _.
Arguments textureNames {BufferGeometry Clip Bone} _.
Arguments materials {BufferGeometry Clip Bone} _.
Arguments geometry {BufferGeometry Clip Bone} _.
Arguments clips {BufferGeometry Clip Bone} _.
Arguments bones {BufferGeometry Clip Bone} _.
Arguments MkResponse {W} _ _ _.
Arguments ok {W} _.
Arguments statusText {W} _.
Arguments arrayBuffer {W} _.
Arguments MkSkinnedMesh {BufferGeometry Bone} _ _ _ _ _.
Arguments mesh_geometry {BufferGeometry Bone} _.
Arguments mesh_materials {BufferGeometry Bone} _.
Arguments children {BufferGeometry Bone} _.
Arguments skeleton {BufferGeometry Bone} _.
Arguments skeletonHelper_visible {BufferGeometry Bone} _.
Arguments Env {W} _ _.
Arguments world {W} _.
Arguments textureMap {W} _.
Arguments liftW {W A} _.

End Viewer.

(* ===================================================================== *)
(** * Part I, continued: the vocabulary of the statements

    Notions used to state the properties of Part II, and the concrete inputs
    on which the embedded code is run there. *)
(* ===================================================================== *)

Module PixelDefs.
Import Pixel.

(** A check run on [n] consecutive integers from [i] on. *)
Fixpoint all_from (n : nat) (i : Z) (P : Z -> bool) : bool :=
  match n with
  | O => true
  | S n' => P i && all_from n' (i + 1) P
  end.

(** A channel of [w] bits widened to 8 bits: the channel in the top bits,
    its own top bits again below. *)
Definition replicate (w : Z) (c : Z) : Z := c * 2 ^ (8 - w) + c / 2 ^ (2 * w - 8).

Definition rgba_eqb (p q : rgba8888) : bool :=
  (out0 p =? out0 q) && (out1 p =? out1 q) && (out2 p =? out2 q) && (out3 p =? out3 q).

End PixelDefs.

Module MortonDefs.

(** The bit of the interleaving that lands at position [n]. *)
Definition interleaved_bit (x y n : Z) : bool :=
  if Z.even n then Z.testbit x (n / 2) else Z.testbit y (n / 2).

End MortonDefs.

Module TwiddledDefs.
Import Pixel Morton Twiddled.

(** [visited y x y' x']: texel [(x', y')] comes before [(x, y)] in the
    row-major order of the two loops. *)
Definition visited (y x y' x' : Z) : bool :=
  (y' <? y) || ((y' =? y) && (x' <? x)).

Section Decode.
Variables (src dst : list Z) (width height : Z).

(** What the decode leaves at an output coordinate: the converted source
    texel when its Morton index is within [width * height], the previous
    content of [dst] otherwise. *)
Definition texel_after (x y : Z) : option Z :=
  if untwiddle x y <? width * height
  then (fun color => pack_pixel (argb1555_to_rgba8888 color))
         <$> src !! Z.to_nat (untwiddle x y)
  else dst !! Z.to_nat (y * width + x).

(** The state after the rows below [y] and the first [x] texels of row
    [y] have been processed. *)
Definition decoded_upto (y x : Z) (l : list Z) : Prop :=
  length l = length dst /\
  forall x' y', 0 <= x' < width -> 0 <= y' < height ->
    l !! Z.to_nat (y' * width + x')
    = if visited y x y' x'
      then texel_after x' y'
      else dst !! Z.to_nat (y' * width + x').
End Decode.

End TwiddledDefs.

Module PvmDefs.
Import Pvm.

(** No byte is left to read. *)
Definition exhausted (f : file) : Prop := (length (contents f) <= offset f)%nat.

(** The offset of the size field of the entry that starts at [start]. *)
Definition size_field_offset (flags : Z) (start : nat) : nat :=
  (start + 2
   + (if (Z.land flags 0x08 =? 0)%Z then 0 else 28)
   + (if (Z.land flags 0x04 =? 0)%Z then 0 else 2))%nat.

(** The entry read from the bytes 07 00 34 00 under flags 0x02. *)
Definition sample_texture : gmap string py_val :=
  <[ "height" := PyInt 32 ]> (<[ "width" := PyInt 64 ]> {[ "index" := PyInt 7 ]}).

(** A decoder of ASCII names, to run the parser on concrete bytes. *)
Definition decode_ascii (bs : list Z) : option string :=
  if forallb (fun b => (0 <=? b) && (b <? 128)) bs
  then Some (String.string_of_list_ascii
               (List.map (fun b => Ascii.ascii_of_N (Z.to_N b)) bs))
  else None.

(** A complete header: flags 0x0F, one entry named TEX_1 with index 0,
    format 0x0100, size 0x34 and global index 7. *)
Definition sample_pvm : list Z :=
  [0x50; 0x56; 0x4D; 0x48;  0x28; 0; 0; 0;  0x0F; 0;  1; 0]
  ++ [0; 0]
  ++ [0x54; 0x45; 0x58; 0x5F; 0x31] ++ repeat 0 23
  ++ [0x00; 0x01]
  ++ [0x34; 0x00]
  ++ [7; 0; 0; 0].

End PvmDefs.

Module NjDefs.
Import Eff Nj.

(** The byte stored at an offset (0 outside the buffer) and the
    little-endian 32-bit word stored there. *)
Definition byte_at (buffer : list Z) (p : Z) : Z :=
  match buffer !! Z.to_nat p with Some b => b | None => 0 end.

Definition u32_at (buffer : list Z) (p : Z) : Z :=
  byte_at buffer p + 2 ^ 8 * byte_at buffer (p + 1)
  + 2 ^ 16 * byte_at buffer (p + 2) + 2 ^ 24 * byte_at buffer (p + 3).

Definition vec3_at (buffer : list Z) (p : Z) : Vector3 :=
  Vec3 (u32_at buffer p) (u32_at buffer (p + 4)) (u32_at buffer (p + 8)).

Definition euler_at (buffer : list Z) (p : Z) (zxy : bool) : Euler :=
  MkEuler (CInt.i32 (u32_at buffer p)) (CInt.i32 (u32_at buffer (p + 4)))
          (CInt.i32 (u32_at buffer (p + 8))) (if zxy then ZXY else XYZ).

(** The bone that a 52-byte record at offset [p] produces. *)
Definition bone_at (buffer : list Z) (p : Z) (parentBone : option nat) : Bone :=
  let flags := u32_at buffer p in
  MkBone
    (if isBitFlagSet flags 0 then position default_Bone
     else vec3_at buffer (p + 8))
    (if isBitFlagSet flags 1 then rotation default_Bone
     else euler_at buffer (p + 20) (isBitFlagSet flags 5))
    (if isBitFlagSet flags 2 then scale default_Bone
     else vec3_at buffer (p + 32))
    parentBone.

(** A bone record with flags 0x02 (rotation suppressed), position (1, 2, 3),
    rotation (0x4000, 0, 0), scale (2, 2, 2), no mesh, child or sibling. *)
Definition sample_bone_record : list Z :=
  [0x02; 0; 0; 0;   0; 0; 0; 0;
   0; 0; 0x80; 0x3F;  0; 0; 0; 0x40;  0; 0; 0x40; 0x40;
   0; 0x40; 0; 0;  0; 0; 0; 0;  0; 0; 0; 0;
   0; 0; 0; 0x40;  0; 0; 0; 0x40;  0; 0; 0; 0x40;
   0; 0; 0; 0;   0; 0; 0; 0].

(** The error kinds that a computation can raise. *)
Definition raises_only {S A} (P : DecodeError -> Prop) (c : M S DecodeError A) : Prop :=
  forall s e s', c s = (Err e, s') -> P e.

(** The bone that the reader enters right after a bone without mesh: its
    first child, or its next sibling when it has no child. *)
Definition entered_next (buffer : list Z) (p : Z) : Z :=
  if u32_at buffer (p + 44) =? 0 then u32_at buffer (p + 48)
  else u32_at buffer (p + 44).

(** A set of offsets of complete bone records without mesh that the
    reader cannot leave: a cycle of child (or, without child, sibling)
    pointers is such a set. *)
Definition cyclic (buffer : list Z) (C : Z -> Prop) : Prop :=
  forall p, C p ->
    0 <= p /\ p + 52 <= Z.of_nat (length buffer)
    /\ u32_at buffer (p + 4) = 0
    /\ entered_next buffer p <> 0 /\ C (entered_next buffer p).

(** A root bone at offset 4 whose child offset is 4. *)
Definition self_child_buffer : list Z :=
  [0; 0; 0; 0]
  ++ [0; 0; 0; 0;   0; 0; 0; 0]
  ++ [0; 0; 0; 0;  0; 0; 0; 0;  0; 0; 0; 0]
  ++ [0; 0; 0; 0;  0; 0; 0; 0;  0; 0; 0; 0]
  ++ [0; 0; 0x80; 0x3F;  0; 0; 0x80; 0x3F;  0; 0; 0x80; 0x3F]
  ++ [4; 0; 0; 0;   0; 0; 0; 0].

(** A root bone at offset 0 (flags 0x04: scale suppressed) with one child at
    offset 52 and nothing else. *)
Definition two_bone_buffer : list Z :=
  [0x04; 0; 0; 0] ++ repeat 0 40 ++ [52; 0; 0; 0;  0; 0; 0; 0] ++ repeat 0 52.

(** The state in which [readChunk] enters its loop. *)
Definition chunk_start {G} (s : state (chunk_env G)) : state (chunk_env G) :=
  State (pos s)
    (ChunkEnv (MkMaterialState (-1) false false) (MkColor 1 1 1 1) (output (ext s))).

(** Chunk readers that return and never move the cursor backwards. *)
Definition advancing {G}
    (readStripChunk readMaterialChunk readTinyChunk readBitsChunk
      : Z -> Z -> M (state (chunk_env G)) DecodeError unit) : Prop :=
  forall head flag s,
    let r := processChunk readStripChunk readMaterialChunk readTinyChunk
                          readBitsChunk head flag s in
    fst r <> OutOfFuel /\ pos s <= pos (snd r).

(** Chunk readers that consume nothing, to run the interpreter on concrete
    streams. *)
Definition skip_chunk : Z -> Z -> M (state (chunk_env unit)) DecodeError unit :=
  fun _ _ => ret tt.

Definition chunk_state0 (p : Z) : state (chunk_env unit) :=
  State p (ChunkEnv (MkMaterialState (-1) false false) (MkColor 1 1 1 1) tt).

End NjDefs.

Module ViewerDefs.
Import Eff Viewer.

(** A decoder that rejects every buffer. *)
Definition rejecting_parsePvr : list Z -> M unit js_exn ImageData :=
  fun _ => throw (Error "Invalid PVR").

Definition is_phong (m : Material) : Prop := exists p, m = Phong p.

(** A model file without materials, served by a browser that has it. *)
Definition bare_model : NinjaModel unit unit unit :=
  MkNinjaModel (Some []) (Some []) (Some tt) None [].

Definition bare_mesh : SkinnedMesh unit unit :=
  MkSkinnedMesh tt [MeshNormalMaterial] [] [] false.

Definition serve_bare_model : string -> M unit js_exn (Response unit) :=
  fun _ => ret (MkResponse true "OK" (ret [0x4E; 0x4A; 0x43; 0x4D])).

End ViewerDefs.

(** ** NJ texture list (NJ guide, [readNjtl]) *)
Module Njtl.
Import Eff Nj.
Local Open Scope eff_scope.

Section ReadNjtl.
Variable buffer : list Z.
Context {X : Type}.

Abbreviation P := (M (state X) DecodeError).

(** [reader.readString] is not among the shipped sources. *)
Variable readString : P string.

(** The [for] loop that collects the name pointers. *)
Fixpoint readPointers (count : nat) (textureNamePointers : list Z) : P (list Z) :=
  match count with
  | O => ret textureNamePointers
  | S count' =>
      p <- readUInt32 buffer ;;
      seekRel buffer 8 ;;
      readPointers count' (textureNamePointers ++ [p])
  end.

Definition readNjtl : P (list string) :=
  ref <- tell ;;
  ptr <- readUInt32 buffer ;;
  count <- readUInt32 buffer ;;
  seek buffer (ptr + ref) ;;
  textureNamePointers <- readPointers (Z.to_nat count) [] ;;
  mapM (fun ptr => seek buffer (ref + ptr) ;; readString) textureNamePointers.
End ReadNjtl.

End Njtl.

(** ** NJ models: vocabulary, continued *)
Module NjMoreDefs.
Import Eff Nj NjDefs Njtl.

(** The name pointers of a table of [count] 12-byte entries at [base]. *)
Definition table_pointers (buffer : list Z) (base : Z) (count : nat) : list Z :=
  List.map (fun i => u32_at buffer (base + 12 * Z.of_nat i)) (seq 0 count).

(** A reader of NUL-terminated strings, to run [readNjtl] on concrete
    tables. *)
Fixpoint cstring (bytes : list Z) : option (string * Z) :=
  match bytes with
  | [] => None
  | b :: rest =>
      if b =? 0 then Some (EmptyString, 1)
      else match cstring rest with
           | Some (s, n) => Some (String (Ascii.ascii_of_nat (Z.to_nat b)) s, n + 1)
           | None => None
           end
  end.

Definition read_cstring (buffer : list Z) : M (state unit) DecodeError string :=
  fun s =>
    if pos s <? 0 then (Err TruncatedInput, s)
    else match cstring (drop (Z.to_nat (pos s)) buffer) with
         | Some (str, n) => (Ok str, State (pos s + n) (ext s))
         | None => (Err TruncatedInput, s)
         end.

(** A texture list of two entries at origin 0: the table at offset 8, the
    names AB at offset 32 and C at offset 35, the first entry naming C. *)
Definition sample_njtl : list Z :=
  [8; 0; 0; 0;   2; 0; 0; 0]
  ++ [35; 0; 0; 0] ++ repeat 0 8
  ++ [32; 0; 0; 0] ++ repeat 0 8
  ++ [65; 66; 0] ++ [67; 0].

(** The same header with a count of 0xFFFFFFFF. *)
Definition oversized_njtl : list Z :=
  [8; 0; 0; 0;   0xFF; 0xFF; 0xFF; 0xFF] ++ repeat 0 24.

(** A mesh reader that leaves the bones alone. *)
Definition keeps_arena (c : M (state (list Bone)) DecodeError unit) : Prop :=
  forall s, ext (snd (c s)) = ext s.

(** The bones [new], created from index [n0] on under the bone [root], name
    as parent either [root] or a bone created before them. *)
Definition forest_from (n0 : nat) (root : option nat) (new : list Bone) : Prop :=
  forall i b, new !! i = Some b ->
    match parent b with
    | None => root = None
    | Some p => root = Some p \/ (n0 <= p < n0 + i)%nat
    end.

End NjMoreDefs.

(** ** PVM container header: vocabulary *)
Module PvmMoreDefs.
Import Pvm.

(** The keys of an entry read under [flags]. *)
Definition entry_keys (flags : Z) : gset string :=
  {[ "index" ]}
  ∪ (if Z.land flags 0x08 =? 0 then ∅ else {[ "name" ]})
  ∪ (if Z.land flags 0x04 =? 0 then ∅ else {[ "format" ]})
  ∪ (if Z.land flags 0x02 =? 0 then ∅ else {[ "width"; "height" ]})
  ∪ (if Z.land flags 0x01 =? 0 then ∅ else {[ "global_index" ]}).

(** The number of bytes of an entry stored under [flags]. *)
Definition entry_size (flags : Z) : nat :=
  (2
   + (if (Z.land flags 0x08 =? 0)%Z then 0 else 28)
   + (if (Z.land flags 0x04 =? 0)%Z then 0 else 2)
   + (if (Z.land flags 0x02 =? 0)%Z then 0 else 2)
   + (if (Z.land flags 0x01 =? 0)%Z then 0 else 4))%nat.

(** A field follows the name in every entry. *)
Definition field_after_name (flags : Z) : Prop :=
  Z.land flags 0x04 <> 0 \/ Z.land flags 0x02 <> 0 \/ Z.land flags 0x01 <> 0.

(** A dimension that the size field can encode: 4, 8, ..., 131072. *)
Definition is_dimension (v : py_val) : Prop :=
  exists e, 0 <= e <= 15 /\ v = PyInt (2 ^ (e + 2)).

(** A string value without NUL character. *)
Fixpoint has_nul (s : string) : bool :=
  match s with
  | EmptyString => false
  | String c s' => Ascii.eqb c Ascii.zero || has_nul s'
  end.

Definition is_clean_name (v : py_val) : Prop :=
  exists s, v = PyStr s /\ has_nul s = false.

(** What every entry of a parsed header satisfies. *)
Definition well_formed_entry (flags : Z) (texture : gmap string py_val) : Prop :=
  dom texture = entry_keys flags
  /\ (forall v, texture !! "name" = Some v -> is_clean_name v)
  /\ (forall v, texture !! "width" = Some v -> is_dimension v)
  /\ (forall v, texture !! "height" = Some v -> is_dimension v).

(** The header that [sample_pvm] holds. *)
Definition sample_header : pvm_header :=
  PvmHeader 0x28 0x0F 1
    [ <[ "global_index" := PyInt 7 ]>
        (<[ "height" := PyInt 32 ]>
           (<[ "width" := PyInt 64 ]>
              (<[ "format" := PyInt 1 ]>
                 (<[ "name" := PyStr "TEX_1" ]>
                    {[ "index" := PyInt 0 ]})))) ].

End PvmMoreDefs.

(** ** The model viewer: vocabulary *)
Module ViewerMoreDefs.
Import Eff Viewer ViewerDefs.

(** [t'] is the texture [t] after some uses: the same image, name and
    origin, the flags [needsUpdate] and [applied] raised at most. *)
Definition same_texture (t t' : Texture) : Prop :=
  image t' = image t /\ flipY t' = flipY t /\ tex_name t' = tex_name t
  /\ path (userData t') = path (userData t)
  /\ fromPVM (userData t') = fromPVM (userData t)
  /\ index (userData t') = index (userData t)
  /\ (needsUpdate t = true -> needsUpdate t' = true)
  /\ (applied (userData t) = true -> applied (userData t') = true).

(** The same keys in the same order, holding the same textures. *)
Definition marked (m m' : TextureMap) : Prop :=
  Forall2 (fun e e' => fst e' = fst e /\ same_texture (snd e) (snd e')) m m'.

(** The texture stored under [key] is flagged as applied and to upload. *)
Definition flagged (m : TextureMap) (key : Key) : Prop :=
  exists t, map_get m key = Some t
            /\ applied (userData t) = true /\ needsUpdate t = true.

(** A material refers to no texture or to a flagged texture of the map. *)
Definition textured (m : TextureMap) (material : Material) : Prop :=
  forall p key, material = Phong p -> map p = Some key -> flagged m key.

(** A computation that leaves the texture map as it is, flags apart,
    however it ends. *)
Definition keeps {W A} (c : M (env W) js_exn A) : Prop :=
  forall s, marked (textureMap s) (textureMap (snd (c s))).

(** The material refers to no texture or to an applied texture of the map. *)
Definition refers_to_applied {W} (material : MeshPhongMaterial) (s : env W) : Prop :=
  forall key, map material = Some key ->
    exists t, map_get (textureMap s) key = Some t /\ applied (userData t) = true.

(** A computation that returns in every state. *)
Definition returns {S E A} (c : M S E A) : Prop :=
  forall s, exists a s', c s = (Ok a, s').

Definition has_string_key (m : TextureMap) : Prop :=
  exists k t, In (KStr k, t) m.

(** A model with one material on its texture 0, named TEX, and the map that
    loading a PVM with that texture gives. *)
Definition textured_model : NinjaModel unit unit unit :=
  MkNinjaModel (Some ["TEX"]) (Some [MkMaterialOpts 0 false false None])
               (Some tt) None [].

Definition TEX_texture (applied : bool) : Texture :=
  MkTexture (MkCanvas 8 8 "1px solid white" "TEX") false "TEX" true
            (MkUserData applied "OBJ/A.PVM/TEX" (Some true) None).

Definition TEX_map (applied : bool) : TextureMap := [(KStr "TEX", TEX_texture applied)].

Definition textured_mesh : SkinnedMesh unit unit :=
  MkSkinnedMesh tt
    [Phong (MkMeshPhongMaterial FrontSide false "Material_0"
              (1%Q, 1%Q, 1%Q) 1%Q (Some (KStr "TEX")) true)]
    [] [] false.

(** A material of a chunk stream that selected no texture. *)
Definition untextured_opts : MaterialOpts := MkMaterialOpts (-1) false false None.

Definition plain_material : MeshPhongMaterial :=
  MkMeshPhongMaterial FrontSide false "Material_0" (1%Q, 1%Q, 1%Q) 1%Q None false.





Fixpoint has_char (c : Ascii.ascii) (s : string) : bool :=
  match s with
  | EmptyString => false
  | String c' s' => Ascii.eqb c' c || has_char c s'
  end.

End ViewerMoreDefs.

(* ===================================================================== *)
(** * Part II: properties *)
(* ===================================================================== *)

(** ** Fixed-width integers, bit by bit *)
Module CIntFacts.
Import CInt.

Lemma u32_range z : 0 <= u32 z < 2 ^ 32.
Proof. unfold u32. apply Z.mod_pos_bound. lia. Qed.

Lemma u16_range z : 0 <= u16 z < 2 ^ 16.
Proof. unfold u16. apply Z.mod_pos_bound. lia. Qed.

Lemma u16_small z : 0 <= z < 2 ^ 16 -> u16 z = z.
Proof. intros H. unfold u16. now apply Z.mod_small. Qed.

Lemma u32_small z : 0 <= z < 2 ^ 32 -> u32 z = z.
Proof. intros H. unfold u32. now apply Z.mod_small. Qed.

Lemma u16_idem z : u16 (u16 z) = u16 z.
Proof. apply u16_small, u16_range. Qed.

Lemma i32_small z : 0 <= z < 2 ^ 31 -> i32 z = z.
Proof.
  intros H. unfold i32. cbv zeta.
  rewrite Z.mod_small by lia.
  destruct (Z.ltb_spec z (2 ^ 31)); lia.
Qed.

Lemma u32_i32 z : u32 (i32 z) = u32 z.
Proof.
  unfold i32, u32. cbv zeta.
  destruct (Z.ltb_spec (z mod 2 ^ 32) (2 ^ 31)).
  - apply Z.mod_mod. lia.
  - rewrite <- (Z.mod_mod z (2 ^ 32)) at 2 by lia.
    replace (z mod 2 ^ 32 - 2 ^ 32) with (z mod 2 ^ 32 + (-1) * 2 ^ 32) by lia.
    apply Z.mod_add. lia.
Qed.

Lemma testbit_u32 z n : Z.testbit (u32 z) n = (n <? 32) && Z.testbit z n.
Proof. unfold u32. apply Z.testbit_mod_pow2. lia. Qed.

Lemma testbit_u16 z n : Z.testbit (u16 z) n = (n <? 16) && Z.testbit z n.
Proof. unfold u16. apply Z.testbit_mod_pow2. lia. Qed.

(** The low 32 bits of an [int] are those of the value it was made from. *)
Lemma testbit_i32_low z n : n < 32 -> Z.testbit (i32 z) n = Z.testbit z n.
Proof.
  intros H.
  assert (E : Z.testbit (u32 (i32 z)) n = Z.testbit (u32 z) n)
    by now rewrite u32_i32.
  rewrite !testbit_u32 in E.
  destruct (Z.ltb_spec n 32); [exact E | lia].
Qed.

(** A number below [2 ^ k] has no bit at or above position [k]. *)
Lemma testbit_above z k n :
  0 <= z < 2 ^ k -> 0 <= k <= n -> Z.testbit z n = false.
Proof.
  intros Hz Hk. rewrite <- (Z.mod_small z (2 ^ k)) by exact Hz.
  apply Z.mod_pow2_bits_high. exact Hk.
Qed.

(** Unrolling of the counted loop. *)
Lemma for_loop_S {S} n i (body : Z -> S -> S) s :
  for_loop (Datatypes.S n) i body s = for_loop n (i + 1) body (body i s).
Proof. reflexivity. Qed.

Lemma for_loop_snoc {S} n i (body : Z -> S -> S) s :
  for_loop (Datatypes.S n) i body s
  = body (i + Z.of_nat n) (for_loop n i body s).
Proof.
  revert i s. induction n as [|n IH]; intros i s.
  - simpl. now rewrite Z.add_0_r.
  - rewrite for_loop_S. rewrite IH. simpl for_loop at 2.
    f_equal. lia.
Qed.

End CIntFacts.

(** ** Pixel formats *)
Module PixelFacts.
Import CInt Pixel PixelDefs CIntFacts.

Lemma all_from_spec n : forall i P,
  all_from n i P = true -> forall k, i <= k < i + Z.of_nat n -> P k = true.
Proof.
  induction n as [|n IH]; intros i P H k Hk.
  - lia.
  - simpl in H. apply andb_true_iff in H as [H0 H1].
    destruct (Z.eq_dec k i) as [->|Hne]; [exact H0|].
    apply (IH (i + 1) P H1). lia.
Qed.

(** Every 16-bit value passes a check that holds on the whole range. *)
Lemma forall_u16 (P : Z -> bool) :
  all_from (Z.to_nat (2 ^ 16)) 0 P = true ->
  forall z, P (u16 z) = true.
Proof.
  intros H z. pose proof (u16_range z) as R.
  apply (all_from_spec _ _ _ H). lia.
Qed.

Lemma argb1555_u16 input : argb1555_to_rgba8888 (u16 input) = argb1555_to_rgba8888 input.
Proof. unfold argb1555_to_rgba8888. now rewrite u16_idem. Qed.

Lemma rgb565_u16 input : rgb565_to_rgba8888 (u16 input) = rgb565_to_rgba8888 input.
Proof. unfold rgb565_to_rgba8888. now rewrite u16_idem. Qed.

Lemma argb4444_u16 input : argb4444_to_rgba8888 (u16 input) = argb4444_to_rgba8888 input.
Proof. unfold argb4444_to_rgba8888. now rewrite u16_idem. Qed.

Lemma rgba_eqb_eq p q : rgba_eqb p q = true -> p = q.
Proof.
  destruct p, q. unfold rgba_eqb. simpl.
  rewrite !andb_true_iff, !Z.eqb_eq. intros [[[-> ->] ->] ->]. reflexivity.
Qed.

Lemma rgb565_replicates input :
  let v := u16 input in
  rgb565_to_rgba8888 input
  = RGBA (replicate 5 (v / 2 ^ 11)) (replicate 6 (v / 2 ^ 5 mod 2 ^ 6))
         (replicate 5 (v mod 2 ^ 5)) 255.
Proof.
  cbv zeta. rewrite <- rgb565_u16.
  apply rgba_eqb_eq.
  apply (forall_u16 (fun v =>
    rgba_eqb (rgb565_to_rgba8888 v)
      (RGBA (replicate 5 (v / 2 ^ 11)) (replicate 6 (v / 2 ^ 5 mod 2 ^ 6))
            (replicate 5 (v mod 2 ^ 5)) 255))).
  vm_compute. reflexivity.
Qed.

Lemma argb1555_replicates input :
  let v := u16 input in
  argb1555_to_rgba8888 input
  = RGBA (replicate 5 (v / 2 ^ 10 mod 2 ^ 5)) (replicate 5 (v / 2 ^ 5 mod 2 ^ 5))
         (replicate 5 (v mod 2 ^ 5)) (if v <? 2 ^ 15 then 0 else 255).
Proof.
  cbv zeta. rewrite <- argb1555_u16.
  apply rgba_eqb_eq.
  apply (forall_u16 (fun v =>
    rgba_eqb (argb1555_to_rgba8888 v)
      (RGBA (replicate 5 (v / 2 ^ 10 mod 2 ^ 5)) (replicate 5 (v / 2 ^ 5 mod 2 ^ 5))
            (replicate 5 (v mod 2 ^ 5)) (if v <? 2 ^ 15 then 0 else 255)))).
  vm_compute. reflexivity.
Qed.

Lemma argb4444_replicates input :
  let v := u16 input in
  argb4444_to_rgba8888 input
  = RGBA (replicate 4 (v / 2 ^ 8 mod 2 ^ 4)) (replicate 4 (v / 2 ^ 4 mod 2 ^ 4))
         (replicate 4 (v mod 2 ^ 4)) (replicate 4 (v / 2 ^ 12)).
Proof.
  cbv zeta. rewrite <- argb4444_u16.
  apply rgba_eqb_eq.
  apply (forall_u16 (fun v =>
    rgba_eqb (argb4444_to_rgba8888 v)
      (RGBA (replicate 4 (v / 2 ^ 8 mod 2 ^ 4)) (replicate 4 (v / 2 ^ 4 mod 2 ^ 4))
            (replicate 4 (v mod 2 ^ 4)) (replicate 4 (v / 2 ^ 12))))).
  vm_compute. reflexivity.
Qed.

(** C5. The three fixed test vectors of the pixel format decoder: 0xFFFF as
    RGB565 is (255,255,255,255); 0x8000 as ARGB1555 is (0,0,0,255), the
    alpha bit set and RGB zero; 0xF000 as ARGB4444 is (0,0,0,255). In each
    format, for every input, a channel of [w] bits is widened to 8 bits by
    placing it in the top bits and replicating its own top bits below. *)
Theorem decode_pixel_test_vectors :
  decode_pixel RGB565 0xFFFF = RGBA 255 255 255 255 /\
  decode_pixel ARGB1555 0x8000 = RGBA 0 0 0 255 /\
  decode_pixel ARGB4444 0xF000 = RGBA 0 0 0 255 /\
  (forall input, let v := u16 input in
     decode_pixel RGB565 input
     = RGBA (replicate 5 (v / 2 ^ 11)) (replicate 6 (v / 2 ^ 5 mod 2 ^ 6))
            (replicate 5 (v mod 2 ^ 5)) 255) /\
  (forall input, let v := u16 input in
     decode_pixel ARGB1555 input
     = RGBA (replicate 5 (v / 2 ^ 10 mod 2 ^ 5)) (replicate 5 (v / 2 ^ 5 mod 2 ^ 5))
            (replicate 5 (v mod 2 ^ 5)) (if v <? 2 ^ 15 then 0 else 255)) /\
  (forall input, let v := u16 input in
     decode_pixel ARGB4444 input
     = RGBA (replicate 4 (v / 2 ^ 8 mod 2 ^ 4)) (replicate 4 (v / 2 ^ 4 mod 2 ^ 4))
            (replicate 4 (v mod 2 ^ 4)) (replicate 4 (v / 2 ^ 12))).
Proof.
  split; [reflexivity|]. split; [reflexivity|]. split; [reflexivity|].
  split; [|split]; intros input; simpl decode_pixel.
  - apply rgb565_replicates.
  - apply argb1555_replicates.
  - apply argb4444_replicates.
Qed.

End PixelFacts.

(** ** Morton order *)
Module MortonFacts.
Import CInt Morton MortonDefs CIntFacts.

Lemma shifted_x_bit x i n :
  0 <= i -> 0 <= n ->
  Z.testbit (Z.shiftl (Z.land x (2 ^ i)) i) n = (n =? 2 * i) && Z.testbit x i.
Proof.
  intros Hi Hn. rewrite Z.shiftl_spec by lia.
  rewrite Z.land_spec, Z.pow2_bits_eqb by lia.
  destruct (Z.eqb_spec n (2 * i)) as [->|Hne].
  - replace (2 * i - i) with i by lia. rewrite Z.eqb_refl. apply andb_true_r.
  - destruct (Z.eqb_spec i (n - i)); [lia|]. apply andb_false_r.
Qed.

Lemma shifted_y_bit y i n :
  0 <= i -> 0 <= n ->
  Z.testbit (Z.shiftl (Z.land y (2 ^ i)) (i + 1)) n = (n =? 2 * i + 1) && Z.testbit y i.
Proof.
  intros Hi Hn. rewrite Z.shiftl_spec by lia.
  rewrite Z.land_spec, Z.pow2_bits_eqb by lia.
  destruct (Z.eqb_spec n (2 * i + 1)) as [->|Hne].
  - replace (2 * i + 1 - (i + 1)) with i by lia. rewrite Z.eqb_refl. apply andb_true_r.
  - destruct (Z.eqb_spec i (n - (i + 1))); [lia|]. apply andb_false_r.
Qed.

Lemma i32_bit_mask i : 0 <= i < 16 -> i32 (Z.shiftl 1 i) = 2 ^ i.
Proof.
  intros Hi. rewrite Z.shiftl_1_l. apply i32_small.
  split; [apply Z.pow_nonneg; lia|].
  apply Z.pow_lt_mono_r; lia.
Qed.

Example toMorton_3_5 : toMorton 3 5 = 39 /\ from_morton 39 = (3, 5).
Proof. split; reflexivity. Qed.

(** The bits of the accumulator after one iteration. *)
Lemma morton_step_bits x y i m n :
  0 <= i < 16 -> 0 <= n ->
  Z.testbit (morton_step x y i m) n
  = (n <? 32) && (Z.testbit m n
                  || (n =? 2 * i) && Z.testbit x i
                  || (n =? 2 * i + 1) && Z.testbit y i).
Proof.
  intros Hi Hn. unfold morton_step. cbv zeta.
  rewrite i32_bit_mask by exact Hi.
  rewrite testbit_u32, Z.lor_spec, testbit_u32, Z.lor_spec.
  destruct (Z.ltb_spec n 32) as [Hlt|Hge]; [|reflexivity].
  rewrite !testbit_i32_low by exact Hlt.
  rewrite shifted_x_bit, shifted_y_bit by lia.
  simpl. now rewrite orb_assoc.
Qed.

Lemma morton_step_range x y i m : 0 <= morton_step x y i m < 2 ^ 32.
Proof. unfold morton_step. apply u32_range. Qed.

Lemma interleaved_bit_even x y i : interleaved_bit x y (2 * i) = Z.testbit x i.
Proof.
  unfold interleaved_bit. rewrite Z.even_mul. simpl.
  f_equal. rewrite Z.mul_comm. apply Z.div_mul. lia.
Qed.

Lemma interleaved_bit_odd x y i : interleaved_bit x y (2 * i + 1) = Z.testbit y i.
Proof.
  unfold interleaved_bit.
  assert (E : Z.even (2 * i + 1) = false)
    by (rewrite Z.even_add, Z.even_mul; reflexivity).
  assert (D : (2 * i + 1) / 2 = i) by (Z.div_mod_to_equations; lia).
  now rewrite E, D.
Qed.

(** Loop invariant: after the iterations [i .. i+k-1] the accumulator has
    gained exactly the interleaved bits at positions [2i .. 2(i+k)-1]. *)
Lemma morton_loop_bits x y k : forall i m n,
  0 <= i -> i + Z.of_nat k <= 16 -> 0 <= m < 2 ^ 32 -> 0 <= n ->
  Z.testbit (for_loop k i (morton_step x y) m) n
  = Z.testbit m n
    || (2 * i <=? n) && (n <? 2 * (i + Z.of_nat k)) && interleaved_bit x y n.
Proof.
  induction k as [|k IH]; intros i m n Hi Hk Hm Hn.
  - simpl for_loop. replace (i + Z.of_nat 0) with i by lia.
    destruct (Z.leb_spec (2 * i) n), (Z.ltb_spec n (2 * i)); try lia;
      simpl; now rewrite orb_false_r.
  - rewrite for_loop_S.
    rewrite IH by (try apply morton_step_range; lia).
    rewrite morton_step_bits by lia.
    assert (Hhigh : 32 <= n -> Z.testbit m n = false)
      by (intros; apply (testbit_above m 32); lia).
    destruct (Z.eqb_spec n (2 * i)) as [->|Hne0].
    + rewrite interleaved_bit_even.
      destruct (Z.ltb_spec (2 * i) 32); [|lia].
      destruct (Z.eqb_spec (2 * i) (2 * i + 1)); [lia|].
      destruct (Z.leb_spec (2 * (i + 1)) (2 * i)); [lia|].
      destruct (Z.leb_spec (2 * i) (2 * i)); [|lia].
      destruct (Z.ltb_spec (2 * i) (2 * (i + Z.of_nat (S k)))); [|lia].
      simpl. now rewrite !orb_false_r.
    + destruct (Z.eqb_spec n (2 * i + 1)) as [->|Hne1].
      * rewrite interleaved_bit_odd.
        destruct (Z.ltb_spec (2 * i + 1) 32); [|lia].
        destruct (Z.leb_spec (2 * (i + 1)) (2 * i + 1)); [lia|].
        destruct (Z.leb_spec (2 * i) (2 * i + 1)); [|lia].
        destruct (Z.ltb_spec (2 * i + 1) (2 * (i + Z.of_nat (S k)))); [|lia].
        simpl. now rewrite !orb_false_r.
      * simpl. rewrite !orb_false_r.
        replace (i + 1 + Z.of_nat k) with (i + Z.of_nat (S k)) by lia.
        destruct (Z.ltb_spec n 32) as [Hlt|Hge].
        -- destruct (Z.leb_spec (2 * (i + 1)) n), (Z.leb_spec (2 * i) n);
             try lia; reflexivity.
        -- rewrite Hhigh by lia.
           destruct (Z.ltb_spec n (2 * (i + Z.of_nat (S k)))); [lia|].
           now rewrite !andb_false_r.
Qed.

(** The bits of a Morton index. *)
Lemma toMorton_bits x y n :
  0 <= n ->
  Z.testbit (toMorton x y) n = (n <? 32) && interleaved_bit (u16 x) (u16 y) n.
Proof.
  intros Hn. unfold toMorton. cbv zeta.
  rewrite morton_loop_bits by (simpl; lia).
  rewrite Z.bits_0.
  change (2 * (0 + Z.of_nat 16)) with 32. change (2 * 0) with 0.
  destruct (Z.leb_spec 0 n); [|lia]. reflexivity.
Qed.

Lemma toMorton_range x y : 0 <= toMorton x y < 2 ^ 32.
Proof.
  unfold toMorton. cbv zeta.
  change 16%nat with (S 15). rewrite for_loop_snoc. apply morton_step_range.
Qed.

Lemma untwiddle_toMorton x y : untwiddle x y = toMorton x y.
Proof. unfold untwiddle, toMorton. reflexivity. Qed.

(** The two accumulators of the inverse after one iteration. *)
Lemma gathered_bit m j i n :
  0 <= i -> 0 <= n -> 0 <= j ->
  Z.testbit (Z.shiftl (Z.land (Z.shiftr m j) 1) i) n = (n =? i) && Z.testbit m j.
Proof.
  intros Hi Hn Hj. rewrite Z.shiftl_spec by lia.
  rewrite Z.land_spec.
  change 1 with (2 ^ 0) at 1. rewrite Z.pow2_bits_eqb by lia.
  destruct (Z.eqb_spec n i) as [->|Hne].
  - rewrite Z.sub_diag. rewrite Z.shiftr_spec by lia. simpl.
    now rewrite andb_true_r.
  - destruct (Z.eqb_spec 0 (n - i)); [lia|]. apply andb_false_r.
Qed.

Lemma from_morton_loop_bits m k : forall i a b n,
  0 <= i -> 0 <= n ->
  let r := for_loop k i (from_morton_step m) (a, b) in
  Z.testbit (fst r) n
  = Z.testbit a n || (i <=? n) && (n <? i + Z.of_nat k) && Z.testbit m (2 * n)
  /\ Z.testbit (snd r) n
  = Z.testbit b n || (i <=? n) && (n <? i + Z.of_nat k) && Z.testbit m (2 * n + 1).
Proof.
  induction k as [|k IH]; intros i a b n Hi Hn; cbv zeta.
  - simpl for_loop. simpl fst. simpl snd.
    destruct (Z.leb_spec i n), (Z.ltb_spec n (i + Z.of_nat 0)); try lia;
      simpl; now rewrite !orb_false_r.
  - rewrite for_loop_S.
    change (from_morton_step m i (a, b))
      with (Z.lor a (Z.shiftl (Z.land (Z.shiftr m (2 * i)) 1) i),
            Z.lor b (Z.shiftl (Z.land (Z.shiftr m (2 * i + 1)) 1) i)).
    destruct (IH (i + 1)
                (Z.lor a (Z.shiftl (Z.land (Z.shiftr m (2 * i)) 1) i))
                (Z.lor b (Z.shiftl (Z.land (Z.shiftr m (2 * i + 1)) 1) i))
                n ltac:(lia) Hn) as [Ha Hb].
    rewrite Ha, Hb. clear Ha Hb IH.
    rewrite !Z.lor_spec, !gathered_bit by lia.
    replace (i + 1 + Z.of_nat k) with (i + Z.of_nat (S k)) by lia.
    destruct (Z.eqb_spec n i) as [->|Hne].
    + destruct (Z.leb_spec (i + 1) i); [lia|].
      destruct (Z.leb_spec i i); [|lia].
      destruct (Z.ltb_spec i (i + Z.of_nat (S k))); [|lia].
      simpl. now rewrite !orb_false_r.
    + destruct (Z.leb_spec (i + 1) n), (Z.leb_spec i n); try lia;
        simpl; now rewrite !orb_false_r.
Qed.

Lemma from_morton_bits m n :
  0 <= n ->
  Z.testbit (fst (from_morton m)) n = (n <? 16) && Z.testbit (u32 m) (2 * n)
  /\ Z.testbit (snd (from_morton m)) n = (n <? 16) && Z.testbit (u32 m) (2 * n + 1).
Proof.
  intros Hn. unfold from_morton. cbv zeta.
  destruct (from_morton_loop_bits (u32 m) 16 0 0 0 n ltac:(lia) Hn) as [Ha Hb].
  rewrite Ha, Hb. rewrite Z.bits_0.
  change (0 + Z.of_nat 16) with 16.
  destruct (Z.leb_spec 0 n); [|lia]. split; reflexivity.
Qed.

(** Decoding a Morton index gives the coordinates back, as 16-bit values. *)
Lemma from_morton_toMorton x y : from_morton (toMorton x y) = (u16 x, u16 y).
Proof.
  rewrite (surjective_pairing (from_morton (toMorton x y))).
  f_equal; apply Z.bits_inj'; intros n Hn.
  - destruct (from_morton_bits (toMorton x y) n Hn) as [-> _].
    rewrite (u32_small _ (toMorton_range x y)).
    rewrite toMorton_bits by lia. rewrite interleaved_bit_even.
    rewrite !testbit_u16.
    destruct (Z.ltb_spec n 16); [|reflexivity].
    destruct (Z.ltb_spec (2 * n) 32); [|lia]. reflexivity.
  - destruct (from_morton_bits (toMorton x y) n Hn) as [_ ->].
    rewrite (u32_small _ (toMorton_range x y)).
    rewrite toMorton_bits by lia. rewrite interleaved_bit_odd.
    rewrite !testbit_u16.
    destruct (Z.ltb_spec n 16); [|reflexivity].
    destruct (Z.ltb_spec (2 * n + 1) 32); [|lia]. reflexivity.
Qed.

(** C2. For all coordinates x, y in [0, 65535]: decoding the Morton index of
    (x, y) recovers exactly (x, y); the index is a 32-bit value that carries
    bit [i] of x at the even position [2i] and bit [i] of y at the odd
    position [2i+1]; and [toMorton] is injective on that domain. *)
Theorem from_morton_toMorton_inverse x y :
  0 <= x <= 65535 -> 0 <= y <= 65535 ->
  from_morton (toMorton x y) = (x, y)
  /\ 0 <= toMorton x y < 2 ^ 32
  /\ (forall i, 0 <= i < 16 ->
        Z.testbit (toMorton x y) (2 * i) = Z.testbit x i
        /\ Z.testbit (toMorton x y) (2 * i + 1) = Z.testbit y i)
  /\ (forall x' y', 0 <= x' <= 65535 -> 0 <= y' <= 65535 ->
        toMorton x y = toMorton x' y' -> x = x' /\ y = y').
Proof.
  intros Hx Hy.
  assert (Ex : u16 x = x) by (apply u16_small; lia).
  assert (Ey : u16 y = y) by (apply u16_small; lia).
  split; [|split; [|split]].
  - now rewrite from_morton_toMorton, Ex, Ey.
  - apply toMorton_range.
  - intros i Hi. rewrite !toMorton_bits by lia.
    rewrite interleaved_bit_even, interleaved_bit_odd, Ex, Ey.
    destruct (Z.ltb_spec (2 * i) 32); [|lia].
    destruct (Z.ltb_spec (2 * i + 1) 32); [|lia].
    split; reflexivity.
  - intros x' y' Hx' Hy' E.
    assert (R : from_morton (toMorton x y) = from_morton (toMorton x' y'))
      by now rewrite E.
    rewrite !from_morton_toMorton in R.
    rewrite Ex, Ey, (u16_small x'), (u16_small y') in R by lia.
    now inversion R.
Qed.

Lemma from_morton_toMorton_inverse_witness :
  from_morton (toMorton 3 5) = (3, 5)
  /\ 0 <= toMorton 3 5 < 2 ^ 32
  /\ (forall i, 0 <= i < 16 ->
        Z.testbit (toMorton 3 5) (2 * i) = Z.testbit 3 i
        /\ Z.testbit (toMorton 3 5) (2 * i + 1) = Z.testbit 5 i)
  /\ (forall x' y', 0 <= x' <= 65535 -> 0 <= y' <= 65535 ->
        toMorton 3 5 = toMorton x' y' -> 3 = x' /\ 5 = y').
Proof. apply (from_morton_toMorton_inverse 3 5); lia. Defined.

End MortonFacts.

(** ** Detwiddling *)
Module TwiddledFacts.
Import CInt Pixel Morton Twiddled MortonDefs TwiddledDefs CIntFacts MortonFacts.

#[local] Arguments untwiddle : simpl never.
#[local] Arguments pack_pixel : simpl never.
#[local] Arguments argb1555_to_rgba8888 : simpl never.

(** A loop invariant carried through a counted loop. *)
Lemma for_loop_invariant {S} (Inv : Z -> S -> Prop) (body : Z -> S -> S) n :
  forall i s,
    Inv i s ->
    (forall j t, i <= j < i + Z.of_nat n -> Inv j t -> Inv (j + 1) (body j t)) ->
    Inv (i + Z.of_nat n) (for_loop n i body s).
Proof.
  induction n as [|n IH]; intros i s H0 Hstep.
  - simpl. now rewrite Z.add_0_r.
  - rewrite for_loop_S.
    replace (i + Z.of_nat (Datatypes.S n)) with (i + 1 + Z.of_nat n) by lia.
    apply IH.
    + apply Hstep; [lia | exact H0].
    + intros j t Hj. apply Hstep. lia.
Qed.

(** Coordinates below 2^15 give a Morton index below 2^30. *)
Lemma untwiddle_small x y :
  0 <= x < 2 ^ 15 -> 0 <= y < 2 ^ 15 -> 0 <= untwiddle x y < 2 ^ 30.
Proof.
  intros Hx Hy. rewrite untwiddle_toMorton.
  pose proof (toMorton_range x y) as R.
  assert (E : toMorton x y = toMorton x y mod 2 ^ 30).
  { apply Z.bits_inj'. intros n Hn.
    rewrite Z.testbit_mod_pow2 by lia.
    destruct (Z.ltb_spec n 30) as [Hlt|Hge]; [reflexivity|].
    rewrite toMorton_bits by lia.
    rewrite !u16_small by lia.
    assert (15 <= n / 2) by (Z.div_mod_to_equations; lia).
    unfold interleaved_bit.
    rewrite (testbit_above x 15), (testbit_above y 15) by lia.
    destruct (Z.even n); apply andb_false_r. }
  rewrite E. apply Z.mod_pos_bound. lia.
Qed.

(** *** The order in which the texels are visited *)

Ltac order_cases :=
  unfold visited;
  repeat match goal with
         | |- context [?a <? ?b] => destruct (Z.ltb_spec a b)
         | |- context [?a =? ?b] => destruct (Z.eqb_spec a b)
         end;
  cbn [orb andb]; try reflexivity; try lia; try (subst; lia).

Lemma visited_next_other w y x y' x' :
  y' * w + x' <> y * w + x -> visited y (x + 1) y' x' = visited y x y' x'.
Proof. intros NE. order_cases. Qed.

Lemma visited_next_same y x : visited y (x + 1) y x = true.
Proof. order_cases. Qed.

Lemma visited_not_yet y x : visited y x y x = false.
Proof. order_cases. Qed.

Lemma visited_row_end w y y' x' :
  0 <= x' < w -> visited (y + 1) 0 y' x' = visited y (0 + w) y' x'.
Proof. intros Hx'. order_cases. Qed.

Lemma visited_none y' x' : 0 <= x' -> 0 <= y' -> visited 0 0 y' x' = false.
Proof. intros Hx' Hy'. order_cases. Qed.

Lemma visited_all h y' x' : 0 <= y' < h -> visited (0 + h) 0 y' x' = true.
Proof. intros Hy'. order_cases. Qed.

Section Decode.
Variables (src dst : list Z) (width height : Z).
Hypothesis Hw : 0 <= width <= 32768.
Hypothesis Hh : 0 <= height.
Hypothesis Harea : width * height <= 2 ^ 30.
Hypothesis Hsrc : width * height <= Z.of_nat (length src).
Hypothesis Hdst : width * height <= Z.of_nat (length dst).

Lemma index_bound x y :
  0 <= x < width -> 0 <= y < height -> 0 <= y * width + x < width * height.
Proof. intros Hx Hy. nia. Qed.

Lemma index_injective x y x' y' :
  0 <= x < width -> 0 <= x' < width ->
  y' * width + x' = y * width + x -> x' = x /\ y' = y.
Proof.
  intros Hx Hx' E.
  assert (y' = y) by nia. subst y'. lia.
Qed.

Lemma decode_texel_step y x l :
  0 <= y < height -> y < 32768 -> 0 <= x < width ->
  decoded_upto src dst width height y x l ->
  exists l', decode_texel src width height y x (Some l) = Some l'
             /\ decoded_upto src dst width height y (x + 1) l'.
Proof.
  intros Hy Hy15 Hx [Hlen Hl].
  pose proof Harea as Ha.
  pose proof (index_bound x y Hx Hy) as Hi.
  assert (Hm : 0 <= untwiddle x y < 2 ^ 30)
    by (apply untwiddle_small; change (2 ^ 15) with 32768; lia).
  unfold decode_texel. cbn [mbind option_bind].
  rewrite (i32_small (untwiddle x y)) by lia.
  rewrite (i32_small (width * height)) by lia.
  rewrite (i32_small (y * width)) by nia.
  rewrite (i32_small (y * width + x)) by lia.
  destruct (Z.ltb_spec (untwiddle x y) (width * height)) as [Hin|Hout].
  - unfold load. destruct (Z.ltb_spec (untwiddle x y) 0); [lia|].
    destruct (src !! Z.to_nat (untwiddle x y)) as [color|] eqn:Hc.
    2:{ apply lookup_ge_None in Hc. lia. }
    cbn [mbind option_bind]. unfold store.
    destruct (Z.leb_spec 0 (y * width + x)); [|lia].
    destruct (Z.ltb_spec (y * width + x) (Z.of_nat (length l))); [|lia].
    cbn [andb]. eexists. split; [reflexivity|].
    split; [now rewrite length_insert|].
    intros x' y' Hx' Hy'.
    destruct (Z.eq_dec (y' * width + x') (y * width + x)) as [E|NE].
    + destruct (index_injective x y x' y' Hx Hx' E) as [-> ->].
      rewrite list_lookup_insert_eq by lia.
      rewrite visited_next_same. unfold texel_after.
      destruct (Z.ltb_spec (untwiddle x y) (width * height)); [|lia].
      now rewrite Hc.
    + rewrite list_lookup_insert_ne
        by (pose proof (index_bound x' y' Hx' Hy'); lia).
      rewrite Hl by assumption.
      now rewrite (visited_next_other width) by exact NE.
  - eexists. split; [reflexivity|]. split; [exact Hlen|].
    intros x' y' Hx' Hy'. rewrite Hl by assumption.
    destruct (Z.eq_dec (y' * width + x') (y * width + x)) as [E|NE].
    + destruct (index_injective x y x' y' Hx Hx' E) as [-> ->].
      rewrite visited_next_same, visited_not_yet. unfold texel_after.
      destruct (Z.ltb_spec (untwiddle x y) (width * height)); [lia|].
      reflexivity.
    + now rewrite (visited_next_other width) by exact NE.
Qed.

Lemma decode_row_step y l :
  0 <= y < height -> y < 32768 ->
  decoded_upto src dst width height y 0 l ->
  exists l', decode_row src width height y (Some l) = Some l'
             /\ decoded_upto src dst width height (y + 1) 0 l'.
Proof.
  intros Hy Hy15 H0. unfold decode_row.
  pose proof (for_loop_invariant
    (fun x d => exists l', d = Some l' /\ decoded_upto src dst width height y x l')
    (decode_texel src width height y) (Z.to_nat width) 0 (Some l)) as Hloop.
  destruct Hloop as (l' & -> & Hlen & Hl').
  - eauto.
  - intros j t Hj (lj & -> & Hinv).
    destruct (decode_texel_step y j lj Hy Hy15 ltac:(lia) Hinv)
      as (l'' & E & Hinv').
    eauto.
  - eexists. split; [reflexivity|]. split; [exact Hlen|].
    intros x' y' Hx' Hy'. rewrite Hl' by assumption.
    rewrite Z2Nat.id by lia.
    now rewrite (visited_row_end width) by exact Hx'.
Qed.

(** The first [n] rows, as long as their number fits 15 bits. *)
Lemma decode_rows n :
  0 <= n <= height -> n <= 32768 ->
  exists l',
    for_loop (Z.to_nat n) 0 (decode_row src width height) (Some dst) = Some l'
    /\ decoded_upto src dst width height n 0 l'.
Proof.
  intros Hn Hn15.
  pose proof (for_loop_invariant
    (fun y d => exists l', d = Some l' /\ decoded_upto src dst width height y 0 l')
    (decode_row src width height) (Z.to_nat n) 0 (Some dst)) as Hloop.
  rewrite Z2Nat.id in Hloop by lia. apply Hloop.
  - exists dst. split; [reflexivity|]. split; [reflexivity|].
    intros x' y' Hx' Hy'. now rewrite visited_none by lia.
  - intros j t Hj (lj & -> & Hinv).
    destruct (decode_row_step j lj ltac:(lia) ltac:(lia) Hinv) as (l'' & E & Hinv').
    eauto.
Qed.

Lemma decode_twiddled_texture_spec :
  height <= 32768 ->
  exists dst',
    decode_twiddled_texture src dst width height = Some dst'
    /\ length dst' = length dst
    /\ forall x y, 0 <= x < width -> 0 <= y < height ->
         dst' !! Z.to_nat (y * width + x) = texel_after src dst width height x y.
Proof.
  intros Hh15. unfold decode_twiddled_texture.
  destruct (decode_rows height ltac:(lia) Hh15) as (l' & -> & Hlen & Hl').
  exists l'. split; [reflexivity|]. split; [exact Hlen|].
  intros x y Hx Hy. rewrite Hl' by assumption.
  now rewrite (visited_all height) by exact Hy.
Qed.
End Decode.

(** C4, as the code has it. For a texture of at most 32768 x 32768 texels
    whose buffers hold [width * height] elements, the decode completes and
    writes every output coordinate whose Morton index is below
    [width * height] with the converted source texel found at that index;
    an output coordinate whose Morton index is [width * height] or more is
    skipped: its [dst] element keeps the value it had, and no error is
    raised. *)
Theorem decode_twiddled_texture_skips_out_of_range src dst width height :
  0 <= width <= 32768 -> 0 <= height <= 32768 ->
  width * height <= Z.of_nat (length src) ->
  width * height <= Z.of_nat (length dst) ->
  exists dst',
    decode_twiddled_texture src dst width height = Some dst'
    /\ length dst' = length dst
    /\ forall x y, 0 <= x < width -> 0 <= y < height ->
         dst' !! Z.to_nat (y * width + x)
         = if untwiddle x y <? width * height
           then (fun color => pack_pixel (argb1555_to_rgba8888 color))
                  <$> src !! Z.to_nat (untwiddle x y)
           else dst !! Z.to_nat (y * width + x).
Proof.
  intros Hw Hh Hsrc Hdst.
  assert (Harea : width * height <= 2 ^ 30)
    by (change (2 ^ 30) with (32768 * 32768); nia).
  destruct (decode_twiddled_texture_spec src dst width height Hw ltac:(lia)
              Harea Hsrc Hdst ltac:(lia))
    as (dst' & E & L & H).
  exists dst'. split; [exact E|]. split; [exact L|].
  intros x y Hx Hy. rewrite (H x y Hx Hy). unfold texel_after. reflexivity.
Qed.

Lemma decode_twiddled_texture_skips_out_of_range_witness :
  exists dst',
    decode_twiddled_texture [0x8000; 0x7FFF] [7; 9] 1 2 = Some dst'
    /\ length dst' = length [7; 9]
    /\ forall x y, 0 <= x < 1 -> 0 <= y < 2 ->
         dst' !! Z.to_nat (y * 1 + x)
         = if untwiddle x y <? 1 * 2
           then (fun color => pack_pixel (argb1555_to_rgba8888 color))
                  <$> [0x8000; 0x7FFF] !! Z.to_nat (untwiddle x y)
           else [7; 9] !! Z.to_nat (y * 1 + x).
Proof.
  apply (decode_twiddled_texture_skips_out_of_range [0x8000; 0x7FFF] [7; 9] 1 2);
    cbn [length]; lia.
Defined.

(** Beyond 32768 rows the decode leaves its buffers: at row 32768 the Morton
    index has bit 31 set, is negative as an [int], passes the bounds check
    and is used to index [src]. *)
Lemma decode_twiddled_texture_tall src dst :
  32769 <= Z.of_nat (length src) -> 32769 <= Z.of_nat (length dst) ->
  decode_twiddled_texture src dst 1 32769 = None.
Proof.
  intros Hsrc Hdst. unfold decode_twiddled_texture.
  replace (Z.to_nat 32769) with (S (Z.to_nat 32768)) by lia.
  rewrite for_loop_snoc.
  destruct (decode_rows src dst 1 32769 ltac:(lia) ltac:(lia) ltac:(lia)
              ltac:(lia) ltac:(lia) 32768 ltac:(lia) ltac:(lia))
    as (l' & -> & _).
  rewrite Z2Nat.id by lia.
  unfold decode_row. change (Z.to_nat 1) with 1%nat. cbn [for_loop].
  unfold decode_texel. cbn [mbind option_bind].
  change (i32 (untwiddle 0 (0 + 32768))) with (- 2 ^ 31).
  change (i32 (1 * 32769)) with 32769.
  reflexivity.
Qed.

(** C4 fails as stated: in a 1 x 2 texture the output coordinate (0, 1) has
    Morton index 2 = width * height, and the decode still completes; it
    returns the image with that texel left as it was (9) next to the one
    texel it wrote. *)
Lemma decode_twiddled_texture_no_IndexOutOfRange :
  untwiddle 0 1 >= 1 * 2
  /\ decode_twiddled_texture [0x8000; 0x7FFF] [7; 9] 1 2 = Some [0xFF000000; 9].
Proof. split; [vm_compute; discriminate | vm_compute; reflexivity]. Qed.

End TwiddledFacts.

(** ** SMALLVQ codebook size *)
Module SmallVQFacts.
Import SmallVQ.

(** C6. The codebook entry count of a SMALLVQ texture is a function of its
    dimensions: both at most 16 give 16 entries, otherwise both at most 32
    give 32, otherwise both at most 64 give 128, and anything larger gives
    256; so 16x16 -> 16, 32x32 -> 32, 64x64 -> 128, 128x128 -> 256. Non-small
    VQ always uses 256 entries. *)
Theorem smallvq_codebook_size width height :
  (width <= 16 /\ height <= 16 -> codebook_size true width height = 16)
  /\ (~ (width <= 16 /\ height <= 16) -> width <= 32 /\ height <= 32 ->
      codebook_size true width height = 32)
  /\ (~ (width <= 32 /\ height <= 32) -> width <= 64 /\ height <= 64 ->
      codebook_size true width height = 128)
  /\ (~ (width <= 64 /\ height <= 64) -> codebook_size true width height = 256)
  /\ codebook_size false width height = 256
  /\ codebook_size true 16 16 = 16
  /\ codebook_size true 32 32 = 32
  /\ codebook_size true 64 64 = 128
  /\ codebook_size true 128 128 = 256.
Proof.
  unfold codebook_size.
  repeat split; try reflexivity; intros;
    repeat match goal with
           | |- context [?a <=? ?b] => destruct (Z.leb_spec a b)
           end;
    cbn [andb]; try reflexivity; lia.
Qed.

Lemma smallvq_codebook_size_witness :
  codebook_size true 8 16 = 16
  /\ codebook_size true 32 8 = 32
  /\ codebook_size true 64 16 = 128
  /\ codebook_size true 8 128 = 256.
Proof.
  split; [|split; [|split]].
  - destruct (smallvq_codebook_size 8 16) as (H & _). apply H. lia.
  - destruct (smallvq_codebook_size 32 8) as (_ & H & _). apply H; lia.
  - destruct (smallvq_codebook_size 64 16) as (_ & _ & H & _). apply H; lia.
  - destruct (smallvq_codebook_size 8 128) as (_ & _ & _ & H & _). apply H. lia.
Defined.

End SmallVQFacts.

(** ** Computations of the monad *)
Module EffFacts.
Import Eff.

Lemma bind_Ok {S E A B} (c : M S E A) (k : A -> M S E B) s b s' :
  bind c k s = (Ok b, s') ->
  exists a s1, c s = (Ok a, s1) /\ k a s1 = (Ok b, s').
Proof.
  unfold bind. destruct (c s) as [[a| e |] s1]; intros H; try discriminate.
  eauto.
Qed.

Lemma bind_step {S E A B} (c : M S E A) (k : A -> M S E B) s a s1 :
  c s = (Ok a, s1) -> bind c k s = k a s1.
Proof. intros H. unfold bind. now rewrite H. Qed.

Lemma bind_Err {S E A B} (c : M S E A) (k : A -> M S E B) s e s1 :
  c s = (Err e, s1) -> bind c k s = (Err e, s1).
Proof. intros H. unfold bind. now rewrite H. Qed.

Lemma bind_OutOfFuel {S E A B} (c : M S E A) (k : A -> M S E B) s s1 :
  c s = (OutOfFuel, s1) -> bind c k s = (OutOfFuel, s1).
Proof. intros H. unfold bind. now rewrite H. Qed.

Lemma ret_Ok {S E A} (a b : A) (s s' : S) :
  @ret S E A a s = (Ok b, s') -> b = a /\ s' = s.
Proof. unfold ret. intros H. now inversion H. Qed.

End EffFacts.

(** ** PVM container header *)
Module PvmFacts.
Import Eff Pvm PvmDefs EffFacts.

Lemma read_inv n f bs f' :
  read n f = (Ok bs, f') ->
  bs = take n (drop (offset f) (contents f))
  /\ f' = File (contents f) (offset f + length bs).
Proof. unfold read. intros H. now inversion H. Qed.

Lemma read_exact n f bs f' :
  read n f = (Ok bs, f') -> length bs = n ->
  contents f' = contents f
  /\ offset f' = (offset f + n)%nat
  /\ forall i, (i < n)%nat -> bs !! i = contents f !! (offset f + i)%nat.
Proof.
  intros H Hlen. apply read_inv in H as [-> ->]. simpl.
  split; [reflexivity|]. split; [now rewrite Hlen|].
  intros i Hi. rewrite lookup_take_lt by exact Hi. apply lookup_drop.
Qed.

Lemma read_short n f bs f' :
  read n f = (Ok bs, f') -> (length bs < n)%nat -> exhausted f'.
Proof.
  intros H Hlen. apply read_inv in H as [-> ->].
  unfold exhausted. simpl.
  rewrite length_take, length_drop in *. lia.
Qed.

Lemma read_length n f bs f' : read n f = (Ok bs, f') -> (length bs <= n)%nat.
Proof.
  intros H. apply read_inv in H as [-> _]. rewrite length_take. lia.
Qed.

Lemma read_exhausted n f bs f' :
  exhausted f -> read n f = (Ok bs, f') -> bs = [] /\ exhausted f'.
Proof.
  unfold exhausted. intros Hx H. apply read_inv in H as [-> ->].
  rewrite drop_ge by exact Hx. rewrite take_nil. simpl. split; [reflexivity|lia].
Qed.

Lemma unpack_H_inv bs (s s' : file) v :
  unpack_H bs s = (Ok v, s') ->
  exists b0 b1, bs = [b0; b1] /\ v = b0 + 2 ^ 8 * b1 /\ s' = s.
Proof.
  destruct bs as [|b0 [|b1 [|b2 bs]]]; simpl; intros H; try discriminate.
  apply ret_Ok in H as [-> ->]. eauto.
Qed.

Lemma unpack_I_inv bs (s s' : file) v :
  unpack_I bs s = (Ok v, s') -> length bs = 4%nat /\ s' = s.
Proof.
  destruct bs as [|b0 [|b1 [|b2 [|b3 [|b4 bs]]]]]; simpl; intros H;
    try discriminate.
  apply ret_Ok in H as [-> ->]. eauto.
Qed.

(** Reading a 16-bit field: where its two bytes come from. *)
Lemma read_H f v f' :
  (bs <- read 2 ;; unpack_H bs)%eff f = (Ok v, f') ->
  exists b0 b1,
    contents f !! offset f = Some b0
    /\ contents f !! (offset f + 1)%nat = Some b1
    /\ v = b0 + 2 ^ 8 * b1
    /\ contents f' = contents f /\ offset f' = (offset f + 2)%nat.
Proof.
  intros H. apply bind_Ok in H as (bs & f1 & Hr & Hu).
  apply unpack_H_inv in Hu as (b0 & b1 & -> & -> & ->).
  destruct (read_exact _ _ _ _ Hr eq_refl) as (Hc & Ho & Hb).
  exists b0, b1.
  pose proof (Hb 0%nat ltac:(lia)) as H0. pose proof (Hb 1%nat ltac:(lia)) as H1.
  simpl in H0, H1. rewrite Nat.add_0_r in H0.
  repeat split; auto.
Qed.

Lemma read_H_exhausted f v f' :
  exhausted f -> (bs <- read 2 ;; unpack_H bs)%eff f = (Ok v, f') -> False.
Proof.
  intros Hx H. apply bind_Ok in H as (bs & f1 & Hr & Hu).
  apply (read_exhausted _ _ _ _ Hx) in Hr as [-> _]. discriminate.
Qed.

Lemma shiftl_one_pow2 size :
  Z.shiftl 1 (Z.land size 0x0f + 2) = 2 ^ (size mod 16 + 2)
  /\ Z.shiftl 1 (Z.land (Z.shiftr size 4) 0x0f + 2) = 2 ^ (size / 16 mod 16 + 2).
Proof.
  rewrite !Z.shiftl_1_l.
  change 0x0f with (Z.ones 4). rewrite !Z.land_ones by lia.
  rewrite Z.shiftr_div_pow2 by lia. split; reflexivity.
Qed.

(** The parser run on a complete header. *)
Example parse_sample_pvm :
  parse_pvm_header decode_ascii sample_pvm
  = Ok (PvmHeader 0x28 0x0F 1
          [ <[ "global_index" := PyInt 7 ]>
              (<[ "height" := PyInt 32 ]>
                 (<[ "width" := PyInt 64 ]>
                    (<[ "format" := PyInt 1 ]>
                       (<[ "name" := PyStr "TEX_1" ]>
                          {[ "index" := PyInt 0 ]})))) ]).
Proof. vm_compute. reflexivity. Qed.

(** A file that ends inside the entry table raises [struct.error]. *)
Example parse_truncated_pvm :
  parse_pvm_header decode_ascii (take 20 sample_pvm) = Err struct_error.
Proof. vm_compute. reflexivity. Qed.

Section ReadTexture.
Variable decode : list Z -> option string.

(** C7. In a PVM whose flags include 0x02, every texture entry that is
    read has width [1 << ((size & 0xF) + 2)] and height
    [1 << (((size >> 4) & 0xF) + 2)], where [size] is the 16-bit field
    stored after the index and the optional name and format fields; a
    size of 0x34 gives width 64 and height 32. *)
Theorem pvm_size_field_decode flags f texture f' :
  Z.land flags 0x02 <> 0 ->
  read_texture decode flags f = (Ok texture, f') ->
  exists b0 b1,
    let o := size_field_offset flags (offset f) in
    let size := b0 + 2 ^ 8 * b1 in
    contents f !! o = Some b0
    /\ contents f !! (o + 1)%nat = Some b1
    /\ texture !! "width" = Some (PyInt (Z.shiftl 1 (Z.land size 0x0f + 2)))
    /\ texture !! "height"
       = Some (PyInt (Z.shiftl 1 (Z.land (Z.shiftr size 4) 0x0f + 2)))
    /\ (size = 0x34 ->
        texture !! "width" = Some (PyInt 64)
        /\ texture !! "height" = Some (PyInt 32)).
Proof.
  intros Hflag H. unfold read_texture in H.
  (* index *)
  apply bind_Ok in H as (bs & f1 & Hr & H).
  apply bind_Ok in H as (index & f2 & Hu & H).
  assert (Hidx : (bs0 <- read 2 ;; unpack_H bs0)%eff f = (Ok index, f2))
    by (now rewrite (bind_step _ _ _ _ _ Hr)).
  apply read_H in Hidx as (_ & _ & _ & _ & _ & Hc2 & Ho2).
  clear bs f1 Hr Hu.
  (* name *)
  apply bind_Ok in H as (t1 & f3 & Hname & H).
  assert (N : contents f3 = contents f
              /\ (offset f3 = (offset f + 2
                    + (if (Z.land flags 0x08 =? 0)%Z then 0 else 28))%nat
                  \/ exhausted f3)
              /\ t1 !! "width" = None /\ t1 !! "height" = None).
  { destruct (Z.land flags 0x08 =? 0).
    - apply ret_Ok in Hname as [-> ->].
      split; [exact Hc2|]. split; [left; lia|]. split; reflexivity.
    - apply bind_Ok in Hname as (nb & f3' & Hrn & Hd).
      destruct (decode nb); [|discriminate].
      apply ret_Ok in Hd as [-> ->].
      pose proof (read_length _ _ _ _ Hrn) as Hle.
      destruct (Nat.eq_dec (length nb) 28%nat) as [E|NE].
      + destruct (read_exact _ _ _ _ Hrn E) as (Hc & Ho & _).
        split; [congruence|]. split; [left; lia|]. split; reflexivity.
      + split; [apply read_inv in Hrn as [_ ->]; exact Hc2|].
        split; [right; apply (read_short _ _ _ _ Hrn); lia|].
        split; reflexivity. }
  destruct N as (Hc3 & Ho3 & Hw1 & Hh1). clear Hname.
  (* format *)
  apply bind_Ok in H as (t2 & f4 & Hfmt & H).
  assert (F : contents f4 = contents f
              /\ (offset f4 = size_field_offset flags (offset f)
                  \/ exhausted f4)
              /\ t2 !! "width" = None /\ t2 !! "height" = None).
  { unfold size_field_offset.
    destruct (Z.land flags 0x04 =? 0).
    - apply ret_Ok in Hfmt as [-> ->].
      split; [exact Hc3|]. split; [|split; assumption].
      destruct Ho3 as [->|Hx]; [left; lia | right; exact Hx].
    - apply bind_Ok in Hfmt as (bs & f4' & Hr & Hfmt).
      apply bind_Ok in Hfmt as (fv & f4'' & Hu & Hfmt).
      apply ret_Ok in Hfmt as [-> ->].
      assert (Hrd : (bs0 <- read 2 ;; unpack_H bs0)%eff f3 = (Ok fv, f4''))
        by (now rewrite (bind_step _ _ _ _ _ Hr)).
      destruct Ho3 as [Ho3|Hx]; [|destruct (read_H_exhausted _ _ _ Hx Hrd)].
      apply read_H in Hrd as (_ & _ & _ & _ & _ & Hc4 & Ho4).
      split; [congruence|]. split; [left; lia|].
      split; rewrite lookup_insert_ne by done; assumption. }
  destruct F as (Hc4 & Ho4 & Hw2 & Hh2). clear Hfmt.
  (* size *)
  apply bind_Ok in H as (t3 & f5 & Hsize & H).
  destruct (Z.eqb_spec (Z.land flags 0x02) 0) as [|_]; [contradiction|].
  apply bind_Ok in Hsize as (bs & f5' & Hr & Hsize).
  apply bind_Ok in Hsize as (size & f5'' & Hu & Hsize).
  apply ret_Ok in Hsize as [-> ->].
  assert (Hrd : (bs0 <- read 2 ;; unpack_H bs0)%eff f4 = (Ok size, f5''))
    by (now rewrite (bind_step _ _ _ _ _ Hr)).
  destruct Ho4 as [Ho4|Hx]; [|destruct (read_H_exhausted _ _ _ Hx Hrd)].
  apply read_H in Hrd as (b0 & b1 & Hb0 & Hb1 & -> & _ & _).
  rewrite Hc4, Ho4 in Hb0, Hb1.
  (* global index *)
  apply bind_Ok in H as (t4 & f6 & Hgi & H).
  apply ret_Ok in H as [-> ->].
  assert (G : t4 !! "width"
              = Some (PyInt (Z.shiftl 1 (Z.land (b0 + 2 ^ 8 * b1) 0x0f + 2)))
              /\ t4 !! "height"
              = Some (PyInt (Z.shiftl 1
                        (Z.land (Z.shiftr (b0 + 2 ^ 8 * b1) 4) 0x0f + 2)))).
  { destruct (Z.land flags 0x01 =? 0).
    - apply ret_Ok in Hgi as [-> ->].
      split; [rewrite lookup_insert_ne by done|]; apply lookup_insert_eq.
    - apply bind_Ok in Hgi as (bsg & f6' & _ & Hgi).
      apply bind_Ok in Hgi as (gi & f6'' & _ & Hgi).
      apply ret_Ok in Hgi as [-> ->].
      split; rewrite lookup_insert_ne by done;
        [rewrite lookup_insert_ne by done|]; apply lookup_insert_eq. }
  destruct G as [Gw Gh].
  exists b0, b1. cbv zeta.
  split; [exact Hb0|]. split; [exact Hb1|].
  split; [exact Gw|]. split; [exact Gh|].
  intros E. rewrite E in Gw, Gh. split; assumption.
Qed.
End ReadTexture.

Lemma pvm_size_field_decode_witness :
  exists b0 b1,
    [0x07; 0x00; 0x34; 0x00] !! size_field_offset 0x02 0 = Some b0
    /\ [0x07; 0x00; 0x34; 0x00] !! (size_field_offset 0x02 0 + 1)%nat = Some b1
    /\ sample_texture !! "width"
       = Some (PyInt (Z.shiftl 1 (Z.land (b0 + 2 ^ 8 * b1) 0x0f + 2)))
    /\ sample_texture !! "height"
       = Some (PyInt (Z.shiftl 1 (Z.land (Z.shiftr (b0 + 2 ^ 8 * b1) 4) 0x0f + 2)))
    /\ (b0 + 2 ^ 8 * b1 = 0x34 ->
        sample_texture !! "width" = Some (PyInt 64)
        /\ sample_texture !! "height" = Some (PyInt 32)).
Proof.
  apply (pvm_size_field_decode decode_ascii 0x02
           (File [0x07; 0x00; 0x34; 0x00] 0) sample_texture
           (File [0x07; 0x00; 0x34; 0x00] 4)).
  - vm_compute. discriminate.
  - reflexivity.
Defined.

End PvmFacts.

(** ** NJ models *)
Module NjFacts.
Import Eff Nj NjDefs EffFacts.

Section Reader.
Variable buffer : list Z.
Context {X : Type}.

Lemma readUInt8_in p (x : X) :
  0 <= p < Z.of_nat (length buffer) ->
  readUInt8 buffer (State p x) = (Ok (byte_at buffer p), State (p + 1) x).
Proof.
  intros Hp. unfold readUInt8, byte_at. simpl.
  destruct (Z.ltb_spec p 0); [lia|].
  destruct (buffer !! Z.to_nat p) eqn:E; [reflexivity|].
  apply lookup_ge_None in E. lia.
Qed.

Lemma readUInt8_out p (x : X) :
  ~ (0 <= p < Z.of_nat (length buffer)) ->
  readUInt8 buffer (State p x) = (Err TruncatedInput, State p x).
Proof.
  intros Hp. unfold readUInt8. simpl.
  destruct (Z.ltb_spec p 0); [reflexivity|].
  destruct (buffer !! Z.to_nat p) eqn:E; [|reflexivity].
  apply lookup_lt_Some in E. lia.
Qed.

Lemma readUInt32_in p (x : X) :
  0 <= p -> p + 4 <= Z.of_nat (length buffer) ->
  readUInt32 buffer (State p x) = (Ok (u32_at buffer p), State (p + 4) x).
Proof.
  intros Hp Hq. unfold readUInt32, u32_at.
  do 4 (erewrite bind_step by (apply readUInt8_in; lia)).
  replace (p + 1 + 1 + 1 + 1) with (p + 4) by lia.
  replace (p + 1 + 1 + 1) with (p + 3) by lia.
  replace (p + 1 + 1) with (p + 2) by lia.
  reflexivity.
Qed.

Lemma readInt32_in p (x : X) :
  0 <= p -> p + 4 <= Z.of_nat (length buffer) ->
  readInt32 buffer (State p x)
  = (Ok (CInt.i32 (u32_at buffer p)), State (p + 4) x).
Proof.
  intros Hp Hq. unfold readInt32.
  erewrite bind_step by (apply readUInt32_in; lia). reflexivity.
Qed.

Lemma seek_in target p (x : X) :
  0 <= target <= Z.of_nat (length buffer) ->
  seek buffer target (State p x) = (Ok tt, State target x).
Proof.
  intros Ht. unfold seek. simpl.
  destruct (Z.leb_spec 0 target); [|lia].
  destruct (Z.leb_spec target (Z.of_nat (length buffer))); [|lia].
  reflexivity.
Qed.
End Reader.

Lemma alter_last {A} (f : A -> A) (l : list A) (d : A) :
  alter f (length l) (l ++ [d]) = l ++ [f d].
Proof.
  rewrite alter_app_r_alt by lia. now rewrite Nat.sub_diag.
Qed.

Section BoneRecord.
Variable buffer : list Z.

Lemma readVector3_in p (x : list Bone) :
  0 <= p -> p + 12 <= Z.of_nat (length buffer) ->
  readVector3 buffer (State p x) = (Ok (vec3_at buffer p), State (p + 12) x).
Proof.
  intros Hp Hq. unfold readVector3, readFloat, vec3_at.
  do 3 (erewrite bind_step by (apply readUInt32_in; lia)).
  replace (p + 4 + 4 + 4) with (p + 12) by lia.
  replace (p + 4 + 4) with (p + 8) by lia.
  reflexivity.
Qed.

Lemma readRotation_in zxy p (x : list Bone) :
  0 <= p -> p + 12 <= Z.of_nat (length buffer) ->
  readRotation buffer zxy (State p x)
  = (Ok (euler_at buffer p zxy), State (p + 12) x).
Proof.
  intros Hp Hq. unfold readRotation, euler_at.
  do 3 (erewrite bind_step by (apply readInt32_in; lia)).
  replace (p + 4 + 4 + 4) with (p + 12) by lia.
  replace (p + 4 + 4) with (p + 8) by lia.
  reflexivity.
Qed.

Lemma readBoneRecord_in parentBone p (arena : list Bone) :
  0 <= p -> p + 52 <= Z.of_nat (length buffer) ->
  readBoneRecord buffer parentBone (State p arena)
  = (Ok (length arena, u32_at buffer (p + 4), u32_at buffer (p + 44),
         u32_at buffer (p + 48)),
     State (p + 52) (arena ++ [bone_at buffer p parentBone])).
Proof.
  intros Hp Hq. unfold readBoneRecord.
  erewrite bind_step by reflexivity. simpl pos.
  erewrite bind_step by (apply readUInt32_in; lia).
  erewrite bind_step by (apply readUInt32_in; lia).
  erewrite bind_step by (apply readVector3_in; lia).
  erewrite bind_step by (apply readRotation_in; lia).
  erewrite bind_step by (apply readVector3_in; lia).
  erewrite bind_step by (apply readUInt32_in; lia).
  erewrite bind_step by (apply readUInt32_in; lia).
  erewrite bind_step by reflexivity. simpl pos. simpl ext.
  replace (p + 4 + 4 + 12 + 12 + 12 + 4 + 4) with (p + 52) by lia.
  replace (p + 4 + 4 + 12 + 12 + 12 + 4) with (p + 48) by lia.
  replace (p + 4 + 4 + 12 + 12 + 12) with (p + 44) by lia.
  replace (p + 4 + 4 + 12 + 12) with (p + 32) by lia.
  replace (p + 4 + 4 + 12) with (p + 20) by lia.
  replace (p + 4 + 4) with (p + 8) by lia.
  unfold bone_at.
  destruct (isBitFlagSet (u32_at buffer p) 0),
           (isBitFlagSet (u32_at buffer p) 1),
           (isBitFlagSet (u32_at buffer p) 2),
           parentBone;
    cbv [when negb bind ret updateBone modify pos ext];
    rewrite ?alter_last; reflexivity.
Qed.
End BoneRecord.

(** C8. Reading a bone record consumes the full fixed layout (flags, chunk
    offset, position, rotation, scale, child offset, sibling offset: 52
    bytes) whatever the suppression bits are, so the cursor always ends 52
    bytes further; position, rotation and scale are each written into the
    bone unless its own flag bit (0, 1, 2) is set, in which case the bone
    keeps the default for that field. *)
Theorem readBoneRecord_layout buffer parentBone p (arena : list Bone) :
  0 <= p -> p + 52 <= Z.of_nat (length buffer) ->
  let flags := u32_at buffer p in
  exists bone,
    readBoneRecord buffer parentBone (State p arena)
    = (Ok (length arena, u32_at buffer (p + 4), u32_at buffer (p + 44),
           u32_at buffer (p + 48)),
       State (p + 52) (arena ++ [bone]))
    /\ position bone = (if Z.testbit flags 0 then Vec3 0 0 0
                        else vec3_at buffer (p + 8))
    /\ rotation bone = (if Z.testbit flags 1 then MkEuler 0 0 0 XYZ
                        else euler_at buffer (p + 20) (Z.testbit flags 5))
    /\ scale bone = (if Z.testbit flags 2 then Vec3 float_one float_one float_one
                     else vec3_at buffer (p + 32))
    /\ parent bone = parentBone.
Proof.
  intros Hp Hq flags. exists (bone_at buffer p parentBone).
  split; [now apply readBoneRecord_in|].
  repeat split.
Qed.

Lemma readBoneRecord_layout_witness :
  exists bone,
    readBoneRecord sample_bone_record None (State 0 [])
    = (Ok (0%nat, 0, 0, 0), State 52 [bone])
    /\ position bone = (if Z.testbit (u32_at sample_bone_record 0) 0 then Vec3 0 0 0
                        else vec3_at sample_bone_record 8)
    /\ rotation bone = (if Z.testbit (u32_at sample_bone_record 0) 1 then MkEuler 0 0 0 XYZ
                        else euler_at sample_bone_record 20 (Z.testbit (u32_at sample_bone_record 0) 5))
    /\ scale bone = (if Z.testbit (u32_at sample_bone_record 0) 2 then Vec3 float_one float_one float_one
                     else vec3_at sample_bone_record 32)
    /\ parent bone = None.
Proof.
  apply (readBoneRecord_layout sample_bone_record None 0 []);
    [lia | vm_compute; discriminate].
Defined.

Lemma raises_only_ret {S A} P (a : A) : raises_only P (@ret S DecodeError A a).
Proof. intros s e s' H. discriminate. Qed.

Lemma raises_only_bind {S A B} P (c : M S DecodeError A) (k : A -> M S DecodeError B) :
  raises_only P c -> (forall a, raises_only P (k a)) -> raises_only P (bind c k).
Proof.
  intros Hc Hk s e s' H. unfold bind in H.
  destruct (c s) as [[a|e0|] s1] eqn:E.
  - exact (Hk a _ _ _ H).
  - inversion H; subst. exact (Hc _ _ _ E).
  - discriminate.
Qed.

Lemma raises_only_when {S} P b (c : M S DecodeError unit) :
  raises_only P c -> raises_only P (when b c).
Proof. destruct b; [trivial | intros _; apply raises_only_ret]. Qed.

Lemma raises_only_modify {S} P (f : S -> S) : raises_only P (@modify S DecodeError f).
Proof. intros s e s' H. discriminate. Qed.

Lemma raises_only_readUInt8 {X} (P : DecodeError -> Prop) buffer :
  P TruncatedInput -> raises_only P (@readUInt8 buffer X).
Proof.
  intros HP s e s' H. unfold readUInt8 in H.
  destruct (pos s <? 0); [inversion H; subst; exact HP|].
  destruct (buffer !! Z.to_nat (pos s)); inversion H; subst; exact HP.
Qed.

Lemma raises_only_readUInt32 {X} (P : DecodeError -> Prop) buffer :
  P TruncatedInput -> raises_only P (@readUInt32 buffer X).
Proof.
  intros HP. unfold readUInt32.
  repeat (apply raises_only_bind; [now apply raises_only_readUInt8 | intros ?]).
  apply raises_only_ret.
Qed.

Lemma raises_only_seek {X} (P : DecodeError -> Prop) buffer target :
  P TruncatedInput -> raises_only P (@seek buffer X target).
Proof.
  intros HP s e s' H. unfold seek in H.
  destruct ((0 <=? target) && (target <=? Z.of_nat (length buffer)));
    inversion H; subst; exact HP.
Qed.

Lemma raises_only_readBoneRecord (P : DecodeError -> Prop) buffer parentBone :
  P TruncatedInput -> raises_only P (readBoneRecord buffer parentBone).
Proof.
  intros HP. unfold readBoneRecord, readVector3, readRotation, readFloat, readInt32.
  repeat first
    [ apply raises_only_ret
    | apply raises_only_modify
    | now apply raises_only_readUInt32
    | apply raises_only_when
    | (intros s e s' H; discriminate)
    | (apply raises_only_bind; [|intros ?]) ].
  destruct parentBone; [apply raises_only_modify | apply raises_only_ret].
Qed.

Lemma fst_bind_OutOfFuel {S E A B} (c : M S E A) (k : A -> M S E B) s :
  fst (c s) = OutOfFuel -> fst (bind c k s) = OutOfFuel.
Proof.
  unfold bind. destruct (c s) as [[a|e|] s1]; simpl; intros H;
    [discriminate | discriminate | reflexivity].
Qed.

Section BoneTree.
Variable buffer : list Z.
Variable readMeshData : M (state (list Bone)) DecodeError unit.

Lemma readBone_S fuel parentBone :
  readBone buffer readMeshData (S fuel) parentBone
  = ('(bone, chunkOfs, childOfs, siblingOfs) <- readBoneRecord buffer parentBone ;;
     when (negb (chunkOfs =? 0)) (seek buffer chunkOfs ;; readMeshData) ;;
     when (negb (childOfs =? 0))
       (seek buffer childOfs ;; readBone buffer readMeshData fuel (Some bone)) ;;
     when (negb (siblingOfs =? 0))
       (seek buffer siblingOfs ;; readBone buffer readMeshData fuel parentBone))%eff.
Proof. reflexivity. Qed.

(** [readBone] can only fail with a truncated read or seek, or with an
    error of the mesh reader: no step of it reports a cycle. *)
Lemma readBone_raises (P : DecodeError -> Prop) :
  P TruncatedInput -> raises_only P readMeshData ->
  forall fuel parentBone, raises_only P (readBone buffer readMeshData fuel parentBone).
Proof.
  intros HP Hmesh. induction fuel as [|fuel IH]; intros parentBone.
  - intros s e s' H. discriminate.
  - rewrite readBone_S.
    apply raises_only_bind; [now apply raises_only_readBoneRecord|].
    intros [[[bone chunkOfs] childOfs] siblingOfs].
    apply raises_only_bind.
    { apply raises_only_when, raises_only_bind;
        [now apply raises_only_seek | intros _; exact Hmesh]. }
    intros _. apply raises_only_bind.
    { apply raises_only_when, raises_only_bind;
        [now apply raises_only_seek | intros _; apply IH]. }
    intros _.
    apply raises_only_when, raises_only_bind;
      [now apply raises_only_seek | intros _; apply IH].
Qed.

Lemma readBone_diverges C :
  cyclic buffer C ->
  forall fuel p parentBone arena, C p ->
    fst (readBone buffer readMeshData fuel parentBone (State p arena)) = OutOfFuel.
Proof.
  intros HC. induction fuel as [|fuel IH]; intros p parentBone arena Hp.
  - reflexivity.
  - destruct (HC p Hp) as (Hp0 & Hlen & Hchunk & Hnz & Hnext).
    destruct (HC _ Hnext) as (Hn0 & Hnlen & _).
    rewrite readBone_S.
    erewrite bind_step by (apply readBoneRecord_in; assumption).
    cbv beta iota. rewrite Hchunk. change (negb (0 =? 0)) with false.
    cbv [when]. erewrite bind_step by reflexivity.
    unfold entered_next in *.
    destruct (Z.eqb_spec (u32_at buffer (p + 44)) 0) as [E|NE]; cbv [negb].
    + erewrite bind_step by reflexivity.
      destruct (Z.eqb_spec (u32_at buffer (p + 48)) 0) as [E'|NE'];
        [contradiction|]. cbv [negb].
      erewrite bind_step by (apply seek_in; lia).
      apply IH. exact Hnext.
    + apply fst_bind_OutOfFuel.
      erewrite bind_step by (apply seek_in; lia).
      apply IH. exact Hnext.
Qed.
End BoneTree.

(** On a tree the read finishes: two bones, the second a child of the first. *)
Example readBone_two_bones :
  readBone two_bone_buffer (fun s => (Ok tt, s)) 2 None (State 0 [])
  = (Ok tt, State 104 [default_Bone;
                       MkBone (Vec3 0 0 0) (MkEuler 0 0 0 XYZ) (Vec3 0 0 0) (Some 0%nat)]).
Proof. vm_compute. reflexivity. Qed.

(** C1, as the code has it. [readBone] keeps no set of visited offsets. On
    every buffer in which some bones without mesh data form a cycle of child
    pointers (or of sibling pointers at bones without child), for instance a
    bone whose child offset is its own offset, reading from a bone of the
    cycle recurses without bound: whatever the depth allowed, the read has
    not finished, and no error is reported. *)
Theorem readBone_cycle_recurses_forever buffer readMeshData (C : Z -> Prop) :
  cyclic buffer C ->
  forall fuel p parentBone arena, C p ->
    fst (readBone buffer readMeshData fuel parentBone (State p arena)) = OutOfFuel.
Proof. apply readBone_diverges. Qed.

Lemma self_child_cyclic : cyclic self_child_buffer (fun p => p = 4).
Proof.
  intros p ->. repeat split; try (vm_compute; congruence).
Qed.

Lemma readBone_cycle_recurses_forever_witness :
  cyclic self_child_buffer (fun p => p = 4)
  /\ fst (readBone self_child_buffer (fun s => (Ok tt, s)) 1000 None (State 4 []))
     = OutOfFuel.
Proof.
  split; [exact self_child_cyclic|].
  apply (readBone_cycle_recurses_forever self_child_buffer (fun s => (Ok tt, s))
           (fun p => p = 4) self_child_cyclic 1000 4 None []).
  reflexivity.
Defined.

(** C1 fails as stated: on the buffer whose root bone has its own offset as
    child offset, no recursion depth lets the read finish, and the read
    never reports [CyclicReference]. *)
Lemma readBone_reports_no_CyclicReference :
  (forall fuel,
     fst (readBone self_child_buffer (fun s => (Ok tt, s)) fuel None (State 4 []))
     = OutOfFuel)
  /\ ~ (exists fuel,
         fst (readBone self_child_buffer (fun s => (Ok tt, s)) fuel None (State 4 []))
         = Err CyclicReference).
Proof.
  assert (D : forall fuel,
    fst (readBone self_child_buffer (fun s => (Ok tt, s)) fuel None (State 4 []))
    = OutOfFuel).
  { intros fuel. now apply (readBone_diverges _ _ _ self_child_cyclic). }
  split; [exact D|]. intros [fuel H]. rewrite D in H. discriminate.
Qed.

(** *** The chunk stream *)

Lemma readUInt8_Ok {X} buffer (s s' : state X) b :
  readUInt8 buffer s = (Ok b, s') ->
  0 <= pos s /\ buffer !! Z.to_nat (pos s) = Some b
  /\ s' = State (pos s + 1) (ext s).
Proof.
  unfold readUInt8. destruct (Z.ltb_spec (pos s) 0) as [Hneg|Hpos];
    [discriminate|].
  destruct (buffer !! Z.to_nat (pos s)); [|discriminate].
  intros E. inversion E. auto.
Qed.

Lemma readUInt8_at {X} buffer p (x : X) b :
  0 <= p -> buffer !! Z.to_nat p = Some b ->
  readUInt8 buffer (State p x) = (Ok b, State (p + 1) x).
Proof.
  intros Hp Hb. unfold readUInt8. simpl.
  destruct (Z.ltb_spec p 0); [lia|]. now rewrite Hb.
Qed.

Lemma readUInt8_result {X} buffer (s : state X) :
  (exists b, readUInt8 buffer s = (Ok b, State (pos s + 1) (ext s))
             /\ 0 <= pos s < Z.of_nat (length buffer))
  \/ readUInt8 buffer s = (Err TruncatedInput, s).
Proof.
  unfold readUInt8. destruct (Z.ltb_spec (pos s) 0); [now right|].
  destruct (buffer !! Z.to_nat (pos s)) as [b|] eqn:E; [|now right].
  left. exists b. split; [reflexivity|].
  apply lookup_lt_Some in E. lia.
Qed.

Section ChunkStream.
Variable buffer : list Z.
Context {G : Type}.
Variables readStripChunk readMaterialChunk readTinyChunk readBitsChunk
  : Z -> Z -> M (state (chunk_env G)) DecodeError unit.

Abbreviation loop :=
  (readChunk_loop buffer readStripChunk readMaterialChunk readTinyChunk readBitsChunk).
Abbreviation process :=
  (processChunk readStripChunk readMaterialChunk readTinyChunk readBitsChunk).

Lemma readChunk_start fuel s :
  readChunk buffer readStripChunk readMaterialChunk readTinyChunk readBitsChunk fuel s
  = loop fuel (chunk_start s).
Proof. reflexivity. Qed.

(** One turn of the loop on a stream that holds a head and a flag byte
    at the cursor. *)
Lemma readChunk_loop_step fuel p env head flag :
  0 <= p ->
  buffer !! Z.to_nat p = Some head ->
  buffer !! Z.to_nat (p + 1) = Some flag ->
  loop (S fuel) (State p env)
  = if head =? NJD_ENDOFF then (Ok tt, State (p + 2) env)
    else (process head flag ;; loop fuel)%eff (State (p + 2) env).
Proof.
  intros Hp Hh Hf. cbn [readChunk_loop].
  erewrite bind_step by (apply readUInt8_at; eassumption).
  erewrite bind_step by (apply readUInt8_at; [lia | eassumption]).
  replace (p + 1 + 1) with (p + 2) by lia.
  destruct (head =? NJD_ENDOFF); reflexivity.
Qed.

(** The end head as last byte of the buffer: the read of its flag fails. *)
Lemma readChunk_loop_missing_flag fuel p env :
  0 <= p ->
  buffer !! Z.to_nat p = Some NJD_ENDOFF ->
  p + 1 = Z.of_nat (length buffer) ->
  loop (S fuel) (State p env) = (Err TruncatedInput, State (p + 1) env).
Proof.
  intros Hp Hh Hlen. cbn [readChunk_loop].
  erewrite bind_step by (apply readUInt8_at; eassumption).
  erewrite bind_Err by (apply readUInt8_out; lia). reflexivity.
Qed.

(** Whenever the loop finishes, the two bytes before the cursor are an
    end head and its flag. *)
Lemma readChunk_loop_finish fuel : forall s s',
  loop fuel s = (Ok tt, s') ->
  2 <= pos s'
  /\ buffer !! Z.to_nat (pos s' - 2) = Some NJD_ENDOFF
  /\ is_Some (buffer !! Z.to_nat (pos s' - 1)).
Proof.
  induction fuel as [|fuel IH]; intros s s' H; [discriminate|].
  cbn [readChunk_loop] in H.
  apply bind_Ok in H as (head & s1 & Hh & H).
  apply bind_Ok in H as (flag & s2 & Hf & H).
  apply readUInt8_Ok in Hh as (Hp & Hhead & ->).
  apply readUInt8_Ok in Hf as (_ & Hflag & ->). simpl in Hflag, H.
  destruct (Z.eqb_spec head NJD_ENDOFF) as [->|NE].
  - apply ret_Ok in H as [_ ->]. simpl.
    replace (pos s + 1 + 1 - 2) with (pos s) by lia.
    replace (pos s + 1 + 1 - 1) with (pos s + 1) by lia.
    split; [lia|]. split; [exact Hhead | eauto].
  - apply bind_Ok in H as ([] & s3 & _ & H). exact (IH _ _ H).
Qed.

(** With such chunk readers the loop always comes to an end: every turn
    consumes at least the two header bytes. *)
Lemma readChunk_loop_terminates :
  advancing readStripChunk readMaterialChunk readTinyChunk readBitsChunk ->
  forall fuel s,
    (0 < fuel)%nat -> Z.of_nat (length buffer) - pos s < Z.of_nat fuel ->
    fst (loop fuel s) <> OutOfFuel.
Proof.
  intros Hadv. induction fuel as [|fuel IH]; intros s Hpos Hfuel; [lia|].
  cbn [readChunk_loop].
  destruct (readUInt8_result buffer s) as [(head & Hh & Hr)|Hh].
  2:{ erewrite bind_Err by exact Hh. discriminate. }
  erewrite bind_step by exact Hh.
  destruct (readUInt8_result buffer (State (pos s + 1) (ext s)))
    as [(flag & Hf & Hr')|Hf].
  2:{ erewrite bind_Err by exact Hf. discriminate. }
  erewrite bind_step by exact Hf. simpl in Hr' |- *.
  destruct (head =? NJD_ENDOFF); [discriminate|].
  destruct (Hadv head flag (State (pos s + 1 + 1) (ext s))) as [Hfuel' Hmono].
  unfold bind.
  destruct (process head flag (State (pos s + 1 + 1) (ext s)))
    as [[[]|e|] s3]; simpl in *; [|discriminate|congruence].
  apply IH; lia.
Qed.
End ChunkStream.

(** A null chunk, a vertex chunk and the end chunk: six bytes consumed. *)
Example readChunk_three_chunks :
  readChunk [0x00; 0x00; 0x25; 0x00; 0xff; 0x00]
            skip_chunk skip_chunk skip_chunk skip_chunk 3 (chunk_state0 0)
  = (Ok tt, chunk_state0 6).
Proof. reflexivity. Qed.

(** C3, as the code has it. The chunk interpreter reads a head byte and a
    flag byte at every turn and only then tests the head. It stops exactly
    when the head it has read is 0xFF, and at that point it has consumed
    two bytes, the 0xFF head and the flag byte after it; on any other head
    it processes the chunk and goes on. Whenever it finishes, the two bytes
    before the cursor are a 0xFF head and its flag. *)
Theorem readChunk_stops_after_end_flag {G} buffer
    (readStripChunk readMaterialChunk readTinyChunk readBitsChunk
      : Z -> Z -> M (state (chunk_env G)) DecodeError unit) :
  (forall fuel s head flag,
     0 <= pos s ->
     buffer !! Z.to_nat (pos s) = Some head ->
     buffer !! Z.to_nat (pos s + 1) = Some flag ->
     readChunk buffer readStripChunk readMaterialChunk readTinyChunk
               readBitsChunk (S fuel) s
     = if head =? 0xff
       then (Ok tt, State (pos s + 2) (ext (chunk_start s)))
       else (processChunk readStripChunk readMaterialChunk readTinyChunk
                          readBitsChunk head flag ;;
             readChunk_loop buffer readStripChunk readMaterialChunk
                            readTinyChunk readBitsChunk fuel)%eff
              (State (pos s + 2) (ext (chunk_start s))))
  /\ (forall fuel s s',
        readChunk buffer readStripChunk readMaterialChunk readTinyChunk
                  readBitsChunk fuel s = (Ok tt, s') ->
        2 <= pos s'
        /\ buffer !! Z.to_nat (pos s' - 2) = Some 0xff
        /\ is_Some (buffer !! Z.to_nat (pos s' - 1))).
Proof.
  split.
  - intros fuel s head flag Hp Hh Hf. rewrite readChunk_start.
    unfold chunk_start at 1.
    now rewrite (readChunk_loop_step buffer _ _ _ _ fuel (pos s) _ head flag).
  - intros fuel s s' H. rewrite readChunk_start in H.
    exact (readChunk_loop_finish buffer _ _ _ _ fuel _ _ H).
Qed.

Lemma readChunk_stops_after_end_flag_witness :
  readChunk [0xff; 0x00] skip_chunk skip_chunk skip_chunk skip_chunk 1 (chunk_state0 0)
  = (Ok tt, chunk_state0 2).
Proof.
  destruct (readChunk_stops_after_end_flag [0xff; 0x00]
              skip_chunk skip_chunk skip_chunk skip_chunk) as [Hstep _].
  rewrite (Hstep 0%nat (chunk_state0 0) 0xff 0x00); [reflexivity | simpl; lia | reflexivity | reflexivity].
Defined.

(** C3 fails as stated: on the stream 0xFF 0x00 the interpreter stops with
    the cursor at 2, past the flag byte that follows the end head; and when
    the end head is the last byte of the stream, reading that flag byte
    fails. *)
Lemma readChunk_consumes_flag_after_end :
  readChunk [0xff; 0x00] skip_chunk skip_chunk skip_chunk skip_chunk 1 (chunk_state0 0)
  = (Ok tt, chunk_state0 2)
  /\ pos (chunk_state0 2) <> 0 + 1
  /\ fst (readChunk [0xff] skip_chunk skip_chunk skip_chunk skip_chunk 1 (chunk_state0 0))
     = Err TruncatedInput.
Proof. split; [reflexivity|]. split; [simpl; lia | reflexivity]. Qed.

End NjFacts.

(** ** The model viewer *)
Module ViewerFacts.
Import Eff Viewer ViewerDefs EffFacts.

(** *** [try] / [catch] with a handler that returns a value *)

Lemma try_catch_ret_no_throw {S E A} (body : M S E A) (a : A) s e :
  fst (try_catch body (fun _ => ret a) s) <> Err e.
Proof.
  unfold try_catch. destruct (body s) as [[x|e'|] s']; simpl; discriminate.
Qed.

Lemma try_catch_ret_caught {S E A} (body : M S E A) (a : A) s e s' :
  body s = (Err e, s') -> try_catch body (fun _ => ret a) s = (Ok a, s').
Proof. intros H. unfold try_catch. now rewrite H. Qed.

Lemma try_catch_ret_Ok {S E A} (body : M S E A) (handler : E -> M S E A) s a s' :
  body s = (Ok a, s') -> try_catch body handler s = (Ok a, s').
Proof. intros H. unfold try_catch. now rewrite H. Qed.

(** A callback that never throws, mapped over a list: the map finishes
    with one result per element unless a call does not return. *)
Lemma mapM_no_throw {S E A B} (f : A -> M S E B) :
  (forall a s e, fst (f a s) <> Err e) ->
  forall l s,
    fst (mapM f l s) = OutOfFuel
    \/ exists bs, fst (mapM f l s) = Ok bs /\ length bs = length l.
Proof.
  intros Hf. induction l as [|a l IH]; intros s.
  - right. exists []. split; reflexivity.
  - cbn [mapM]. destruct (f a s) as [[b|e|] s1] eqn:Ef.
    + rewrite (bind_step _ _ _ _ _ Ef).
      specialize (IH s1).
      destruct (mapM f l s1) as [[bs|e|] s2] eqn:Em.
      * rewrite (bind_step _ _ _ _ _ Em). right. exists (b :: bs).
        split; [reflexivity|].
        destruct IH as [IH|(bs' & IH & Hlen)]; [discriminate|].
        inversion IH; subst. simpl. now rewrite Hlen.
      * destruct IH as [IH|(bs' & IH & _)]; discriminate.
      * rewrite (bind_OutOfFuel _ _ _ _ Em). now left.
    + specialize (Hf a s e). rewrite Ef in Hf. now destruct Hf.
    + rewrite (bind_OutOfFuel _ _ _ _ Ef). now left.
Qed.

Lemma length_omap_le {A B} (f : A -> option B) (l : list A) :
  (length (omap f l) <= length l)%nat.
Proof.
  induction l as [|a l IH]; [reflexivity|].
  change (omap f (a :: l))
    with (match f a with Some b => b :: omap f l | None => omap f l end).
  destruct (f a); cbn [length]; lia.
Qed.

Section Textures.
Variable W : Type.
Variable CanvasRenderingContext2D : Type.
Variable parsePvr : list Z -> M W js_exn ImageData.
Variable parsePvm : list Z -> M W js_exn (list PVMEntry).
Variable createCanvas : M W js_exn Canvas.
Variable getContext2d : Canvas -> M W js_exn (option CanvasRenderingContext2D).
Variable putImageData : CanvasRenderingContext2D -> ImageData -> M W js_exn unit.
Variable newCanvasTexture : Canvas -> M W js_exn Texture.

Abbreviation entry_loader :=
  (processTextureEntry W CanvasRenderingContext2D parsePvr createCanvas
     getContext2d putImageData newCanvasTexture).
Abbreviation file_loader :=
  (processPvrFile W CanvasRenderingContext2D parsePvr createCanvas
     getContext2d putImageData newCanvasTexture).
Abbreviation pvm_loader :=
  (processPvmFile W CanvasRenderingContext2D parsePvr parsePvm createCanvas
     getContext2d putImageData newCanvasTexture).

Lemma processTextureEntry_no_throw entry texturePath w e :
  fst (entry_loader entry texturePath w) <> Err e.
Proof. apply try_catch_ret_no_throw. Qed.

Lemma processPvrFile_no_throw buffer texturePath index w e :
  fst (file_loader buffer texturePath index w) <> Err e.
Proof. apply try_catch_ret_no_throw. Qed.

Lemma processTextureEntry_undecodable entry texturePath w e w' :
  parsePvr (data entry) w = (Err e, w') ->
  entry_loader entry texturePath w = (Ok None, w').
Proof.
  intros H. apply (try_catch_ret_caught _ _ _ e).
  now apply bind_Err.
Qed.

Lemma processPvrFile_undecodable buffer texturePath index w e w' :
  parsePvr buffer w = (Err e, w') ->
  file_loader buffer texturePath index w = (Ok None, w').
Proof.
  intros H. apply (try_catch_ret_caught _ _ _ e).
  now apply bind_Err.
Qed.

(** Loading the textures of a PVM whose table parses is never aborted by
    an entry: it yields the textures that decoded. *)
Lemma processPvmFile_not_aborted buffer texturePath w entries w1 :
  parsePvm buffer w = (Ok entries, w1) ->
  fst (pvm_loader buffer texturePath w) = OutOfFuel
  \/ exists results,
       fst (pvm_loader buffer texturePath w) = Ok (Some results)
       /\ (length results <= length entries)%nat.
Proof.
  intros Hp. unfold processPvmFile, try_catch.
  erewrite bind_step by exact Hp.
  pose proof (mapM_no_throw (fun entry => entry_loader entry texturePath)
                (fun a s e => processTextureEntry_no_throw a texturePath s e)
                entries w1) as Hmap.
  destruct (mapM (fun entry => entry_loader entry texturePath) entries w1)
    as [[rs|e|] w2] eqn:Em.
  - rewrite (bind_step _ _ _ _ _ Em). right. eexists.
    split; [reflexivity|].
    destruct Hmap as [Hmap|(rs' & Hmap & Hlen)]; [discriminate|].
    inversion Hmap; subst. rewrite <- Hlen. apply length_omap_le.
  - destruct Hmap as [Hmap|(rs' & Hmap & _)]; discriminate.
  - rewrite (bind_OutOfFuel _ _ _ _ Em). now left.
Qed.
End Textures.

(** C10. [processTextureEntry] and [processPvrFile] never propagate an
    exception to their caller, whatever the bytes are and whatever the
    decoder, the canvas and three.js do: an error raised while decoding the
    PVR data is caught and the function returns [null]; so loading a PVM
    whose table parses is not aborted by an undecodable entry and yields
    the textures that decoded. *)
Theorem texture_loading_never_throws (W CanvasRenderingContext2D : Type)
    (parsePvr : list Z -> M W js_exn ImageData)
    (parsePvm : list Z -> M W js_exn (list PVMEntry))
    (createCanvas : M W js_exn Canvas)
    (getContext2d : Canvas -> M W js_exn (option CanvasRenderingContext2D))
    (putImageData : CanvasRenderingContext2D -> ImageData -> M W js_exn unit)
    (newCanvasTexture : Canvas -> M W js_exn Texture) :
  let entry_loader :=
    processTextureEntry W CanvasRenderingContext2D parsePvr createCanvas
      getContext2d putImageData newCanvasTexture in
  let file_loader :=
    processPvrFile W CanvasRenderingContext2D parsePvr createCanvas
      getContext2d putImageData newCanvasTexture in
  let pvm_loader :=
    processPvmFile W CanvasRenderingContext2D parsePvr parsePvm createCanvas
      getContext2d putImageData newCanvasTexture in
  (forall entry texturePath w e,
     fst (entry_loader entry texturePath w) <> Err e)
  /\ (forall buffer texturePath index w e,
        fst (file_loader buffer texturePath index w) <> Err e)
  /\ (forall entry texturePath w e w',
        parsePvr (data entry) w = (Err e, w') ->
        entry_loader entry texturePath w = (Ok None, w'))
  /\ (forall buffer texturePath index w e w',
        parsePvr buffer w = (Err e, w') ->
        file_loader buffer texturePath index w = (Ok None, w'))
  /\ (forall buffer texturePath w entries w1,
        parsePvm buffer w = (Ok entries, w1) ->
        fst (pvm_loader buffer texturePath w) = OutOfFuel
        \/ exists results,
             fst (pvm_loader buffer texturePath w) = Ok (Some results)
             /\ (length results <= length entries)%nat).
Proof.
  cbv zeta. split; [|split; [|split; [|split]]].
  - intros. apply processTextureEntry_no_throw.
  - intros. apply processPvrFile_no_throw.
  - intros. eapply processTextureEntry_undecodable. eassumption.
  - intros. eapply processPvrFile_undecodable. eassumption.
  - intros. eapply processPvmFile_not_aborted. eassumption.
Qed.

Lemma texture_loading_never_throws_witness :
  processTextureEntry unit unit rejecting_parsePvr
    (ret (MkCanvas 0 0 "" "")) (fun _ => ret None) (fun _ _ => ret tt)
    (fun c => ret (MkTexture c true "" false (MkUserData false "" None None)))
    (MkPVMEntry "TEX_1" [0x50; 0x56]) "OBJ/COCK.PVM" tt
  = (Ok None, tt).
Proof.
  destruct (texture_loading_never_throws unit unit rejecting_parsePvr
              (fun _ => ret [])
              (ret (MkCanvas 0 0 "" "")) (fun _ => ret None) (fun _ _ => ret tt)
              (fun c => ret (MkTexture c true "" false (MkUserData false "" None None))))
    as (_ & _ & H & _).
  apply (H (MkPVMEntry "TEX_1" [0x50; 0x56]) "OBJ/COCK.PVM" tt (Error "Invalid PVR") tt).
  reflexivity.
Defined.

Section Model.
Variable W : Type.
Variable BufferGeometry Clip Bone : Type.
Variable toLowerCase : string -> string.
Variable fetch : string -> M W js_exn (Response W).
Variable parseNinjaModel : list Z -> M W js_exn (NinjaModel BufferGeometry Clip Bone).
Variable setAnimations : list Clip -> M W js_exn unit.

Lemma liftW_Ok {A} (c : M W js_exn A) s a s' :
  liftW c s = (Ok a, s') ->
  exists w', c (world s) = (Ok a, w') /\ s' = Env w' (textureMap s).
Proof.
  unfold liftW. destruct (c (world s)) as [r w'] eqn:E.
  intros H. inversion H; subst. eauto.
Qed.

Lemma map_materials_Ok parsedModel l : forall index s ms s',
  map_materials W BufferGeometry Clip Bone toLowerCase parsedModel l index s
    = (Ok ms, s') ->
  length ms = length l /\ Forall is_phong ms.
Proof.
  induction l as [|materialOpts l IH]; intros index s ms s' H.
  - apply ret_Ok in H as [-> _]. split; [reflexivity | constructor].
  - cbn [map_materials] in H.
    apply bind_Ok in H as (m & s1 & Hm & H).
    apply bind_Ok in H as (ms' & s2 & Hms & H).
    apply ret_Ok in H as [-> _].
    destruct (IH _ _ _ _ Hms) as [Hlen Hall].
    split; [simpl; now rewrite Hlen|].
    constructor; [|exact Hall].
    unfold make_material in Hm.
    apply bind_Ok in Hm as (p & s1' & _ & Hm).
    apply ret_Ok in Hm as [-> _]. now exists p.
Qed.

Lemma loadModel_Ok modelPath s mesh s' :
  loadModel W BufferGeometry Clip Bone toLowerCase fetch parseNinjaModel
    setAnimations modelPath s = (Ok mesh, s') ->
  exists response w1 modelBuffer w2 parsedModel w3 materialOpts,
    fetch ("/iso/" +:+ modelPath) (world s) = (Ok response, w1)
    /\ arrayBuffer response w1 = (Ok modelBuffer, w2)
    /\ parseNinjaModel modelBuffer w2 = (Ok parsedModel, w3)
    /\ materials parsedModel = Some materialOpts
    /\ (materialOpts = [] -> mesh_materials mesh = [MeshNormalMaterial])
    /\ (materialOpts <> [] ->
        length (mesh_materials mesh) = length materialOpts
        /\ Forall is_phong (mesh_materials mesh)).
Proof.
  intros H. unfold loadModel in H.
  apply bind_Ok in H as (response & s1 & Hf & H).
  apply liftW_Ok in Hf as (w1 & Hf & ->).
  destruct (ok response); [|discriminate]. cbn [negb] in H.
  apply bind_Ok in H as (modelBuffer & s2 & Hb & H).
  apply liftW_Ok in Hb as (w2 & Hb & ->). simpl in Hb.
  apply bind_Ok in H as (parsedModel & s3 & Hp & H).
  apply liftW_Ok in Hp as (w3 & Hp & ->). simpl in Hp.
  apply bind_Ok in H as ([] & s4 & _ & H).
  destruct (geometry parsedModel) as [geom|]; [|discriminate].
  destruct (materials parsedModel) as [materialOpts|] eqn:Em; [|discriminate].
  apply bind_Ok in H as (ms & s5 & Hms & H).
  apply ret_Ok in H as [-> _].
  destruct (map_materials_Ok _ _ _ _ _ _ Hms) as [Hlen Hall].
  exists response, w1, modelBuffer, w2, parsedModel, w3, materialOpts.
  repeat (split; [assumption|]). cbn [mesh_materials].
  split.
  - intros ->. destruct ms; [reflexivity | discriminate].
  - intros Hne. destruct ms as [|m ms].
    + destruct materialOpts; [contradiction | discriminate].
    + cbn [length Nat.eqb]. split; assumption.
Qed.
End Model.

(** C9. Whenever [loadModel] constructs a mesh, the mesh carries at least
    one material: the materials are those of the model that was fetched and
    parsed, one Phong material per entry of its material list, and when
    that list is empty exactly one default material
    ([MeshNormalMaterial]) is inserted. *)
Theorem loadModel_materials_nonempty (W BufferGeometry Clip Bone : Type)
    (toLowerCase : string -> string)
    (fetch : string -> M W js_exn (Response W))
    (parseNinjaModel : list Z -> M W js_exn (NinjaModel BufferGeometry Clip Bone))
    (setAnimations : list Clip -> M W js_exn unit)
    modelPath s mesh s' :
  loadModel W BufferGeometry Clip Bone toLowerCase fetch parseNinjaModel
    setAnimations modelPath s = (Ok mesh, s') ->
  mesh_materials mesh <> []
  /\ exists response w1 modelBuffer w2 parsedModel w3 materialOpts,
       fetch ("/iso/" +:+ modelPath) (world s) = (Ok response, w1)
       /\ arrayBuffer response w1 = (Ok modelBuffer, w2)
       /\ parseNinjaModel modelBuffer w2 = (Ok parsedModel, w3)
       /\ materials parsedModel = Some materialOpts
       /\ (materialOpts = [] -> mesh_materials mesh = [MeshNormalMaterial])
       /\ (materialOpts <> [] ->
           length (mesh_materials mesh) = length materialOpts
           /\ Forall is_phong (mesh_materials mesh)).
Proof.
  intros H.
  pose proof (loadModel_Ok _ _ _ _ _ _ _ _ _ _ _ _ H) as L.
  split; [|exact L].
  destruct L as (_ & _ & _ & _ & _ & _ & materialOpts & _ & _ & _ & _ & He & Hne).
  destruct materialOpts as [|o os].
  - rewrite He by reflexivity. discriminate.
  - destruct (Hne ltac:(discriminate)) as [Hlen _].
    destruct (mesh_materials mesh); [discriminate Hlen | discriminate].
Qed.

Lemma loadModel_materials_nonempty_witness :
  mesh_materials bare_mesh <> []
  /\ exists response w1 modelBuffer w2 parsedModel w3 materialOpts,
       serve_bare_model ("/iso/" +:+ "OBJ/COCK.NJ") tt = (Ok response, w1)
       /\ arrayBuffer response w1 = (Ok modelBuffer, w2)
       /\ (ret bare_model : M unit js_exn _) w2 = (Ok parsedModel, w3)
       /\ materials parsedModel = Some materialOpts
       /\ (materialOpts = [] -> mesh_materials bare_mesh = [MeshNormalMaterial])
       /\ (materialOpts <> [] ->
           length (mesh_materials bare_mesh) = length materialOpts
           /\ Forall is_phong (mesh_materials bare_mesh)).
Proof.
  apply (loadModel_materials_nonempty unit unit unit unit (fun s => s)
           serve_bare_model (fun _ => ret bare_model) (fun _ => ret tt)
           "OBJ/COCK.NJ" (Env tt []) bare_mesh (Env tt [])).
  reflexivity.
Defined.

End ViewerFacts.

(** ** More on the Morton order *)
Module MortonSquare.
Import CInt Morton MortonDefs CIntFacts MortonFacts.

(** A number without bits at or above position [k] is below [2 ^ k]. *)
Lemma below_pow2_of_bits z k :
  0 <= k ->
  (forall n, k <= n -> Z.testbit z n = false) ->
  0 <= z < 2 ^ k.
Proof.
  intros Hk Hbits.
  assert (E : z = z mod 2 ^ k).
  { apply Z.bits_inj'. intros n Hn.
    rewrite Z.testbit_mod_pow2 by exact Hk.
    destruct (Z.ltb_spec n k); [reflexivity|]. now apply Hbits. }
  rewrite E. apply Z.mod_pos_bound. now apply Z.pow_pos_nonneg.
Qed.

Lemma half_of_even j : (2 * j) / 2 = j.
Proof. rewrite Z.mul_comm. apply Z.div_mul. lia. Qed.

Lemma half_of_odd j : (2 * j + 1) / 2 = j.
Proof. Z.div_mod_to_equations. lia. Qed.

(** Coordinates of a square of side [2 ^ k] have their index below [4 ^ k]. *)
Lemma toMorton_square k x y :
  0 <= k <= 16 -> 0 <= x < 2 ^ k -> 0 <= y < 2 ^ k ->
  0 <= toMorton x y < 2 ^ (2 * k).
Proof.
  intros Hk Hx Hy.
  assert (P16 : 2 ^ k <= 2 ^ 16) by (apply Z.pow_le_mono_r; lia).
  apply below_pow2_of_bits; [lia|]. intros n Hn.
  rewrite toMorton_bits by lia.
  rewrite !u16_small by lia.
  assert (k <= n / 2) by (Z.div_mod_to_equations; lia).
  unfold interleaved_bit.
  rewrite (testbit_above x k), (testbit_above y k) by lia.
  destruct (Z.even n); apply andb_false_r.
Qed.

(** Interleaving the two halves of an index gives the index back. *)
Lemma toMorton_from_morton m :
  0 <= m < 2 ^ 32 ->
  toMorton (fst (from_morton m)) (snd (from_morton m)) = m.
Proof.
  intros Hm. apply Z.bits_inj'. intros n Hn.
  rewrite toMorton_bits by exact Hn.
  assert (Hhigh : 32 <= n -> Z.testbit m n = false)
    by (intros; apply (testbit_above m 32); lia).
  unfold interleaved_bit. rewrite !testbit_u16.
  destruct (Z.even n) eqn:E.
  - apply Z.even_spec in E as [j ->]. rewrite half_of_even.
    destruct (from_morton_bits m j ltac:(lia)) as [-> _].
    rewrite (u32_small m Hm).
    destruct (Z.ltb_spec (2 * j) 32), (Z.ltb_spec j 16); try lia;
      cbn [andb]; try reflexivity.
    symmetry. apply Hhigh. lia.
  - assert (O : Z.odd n = true) by (now rewrite <- Z.negb_even, E).
    apply Z.odd_spec in O as [j ->]. rewrite half_of_odd.
    destruct (from_morton_bits m j ltac:(lia)) as [_ ->].
    rewrite (u32_small m Hm).
    destruct (Z.ltb_spec (2 * j + 1) 32), (Z.ltb_spec j 16); try lia;
      cbn [andb]; try reflexivity.
    symmetry. apply Hhigh. lia.
Qed.

(** The two halves of an index below [4 ^ k] are below [2 ^ k]. *)
Lemma from_morton_square k m :
  0 <= k <= 16 -> 0 <= m < 2 ^ (2 * k) ->
  0 <= fst (from_morton m) < 2 ^ k /\ 0 <= snd (from_morton m) < 2 ^ k.
Proof.
  intros Hk Hm.
  assert (P32 : 2 ^ (2 * k) <= 2 ^ 32) by (apply Z.pow_le_mono_r; lia).
  split; apply below_pow2_of_bits; try lia; intros n Hn.
  - destruct (from_morton_bits m n ltac:(lia)) as [-> _].
    rewrite u32_small by lia.
    rewrite (testbit_above m (2 * k)) by lia. apply andb_false_r.
  - destruct (from_morton_bits m n ltac:(lia)) as [_ ->].
    rewrite u32_small by lia.
    rewrite (testbit_above m (2 * k)) by lia. apply andb_false_r.
Qed.

(** X1. For every k up to 16, [untwiddle] maps the square of side 2^k onto
    exactly the indices below 4^k: the index of a coordinate pair of the
    square is below 4^k, and every index below 4^k is the index of one and
    only one coordinate pair of the square. *)
Theorem untwiddle_square_bijection k :
  0 <= k <= 16 ->
  (forall x y, 0 <= x < 2 ^ k -> 0 <= y < 2 ^ k ->
     0 <= untwiddle x y < 2 ^ (2 * k))
  /\ (forall m, 0 <= m < 2 ^ (2 * k) ->
        exists x y,
          (0 <= x < 2 ^ k /\ 0 <= y < 2 ^ k /\ untwiddle x y = m)
          /\ forall x' y', 0 <= x' < 2 ^ k -> 0 <= y' < 2 ^ k ->
               untwiddle x' y' = m -> x' = x /\ y' = y).
Proof.
  intros Hk.
  assert (P16 : 2 ^ k <= 2 ^ 16) by (apply Z.pow_le_mono_r; lia).
  assert (P32 : 2 ^ (2 * k) <= 2 ^ 32) by (apply Z.pow_le_mono_r; lia).
  split.
  - intros x y Hx Hy. rewrite untwiddle_toMorton. now apply toMorton_square.
  - intros m Hm.
    destruct (from_morton_square k m Hk Hm) as [Hx Hy].
    exists (fst (from_morton m)), (snd (from_morton m)).
    split.
    + split; [exact Hx|]. split; [exact Hy|].
      rewrite untwiddle_toMorton. apply toMorton_from_morton. lia.
    + intros x' y' Hx' Hy' E. rewrite untwiddle_toMorton in E. subst m.
      rewrite from_morton_toMorton. cbn [fst snd].
      rewrite !u16_small by lia. split; reflexivity.
Qed.

Lemma untwiddle_square_bijection_witness :
  (forall x y, 0 <= x < 2 ^ 2 -> 0 <= y < 2 ^ 2 ->
     0 <= untwiddle x y < 2 ^ (2 * 2))
  /\ (forall m, 0 <= m < 2 ^ (2 * 2) ->
        exists x y,
          (0 <= x < 2 ^ 2 /\ 0 <= y < 2 ^ 2 /\ untwiddle x y = m)
          /\ forall x' y', 0 <= x' < 2 ^ 2 -> 0 <= y' < 2 ^ 2 ->
               untwiddle x' y' = m -> x' = x /\ y' = y).
Proof. apply (untwiddle_square_bijection 2). lia. Defined.

End MortonSquare.

(** ** More on detwiddling *)
Module TwiddledMore.
Import CInt Pixel Morton Twiddled MortonDefs TwiddledDefs CIntFacts MortonFacts
       TwiddledFacts MortonSquare.

#[local] Arguments untwiddle : simpl never.
#[local] Arguments pack_pixel : simpl never.
#[local] Arguments argb1555_to_rgba8888 : simpl never.

Lemma for_loop_split {S} (body : Z -> S -> S) a : forall b i s,
  for_loop (a + b) i body s
  = for_loop b (i + Z.of_nat a) body (for_loop a i body s).
Proof.
  induction a as [|a IH]; intros b i s.
  - cbn [Nat.add for_loop]. now rewrite Z.add_0_r.
  - cbn [Nat.add]. rewrite !for_loop_S, IH. f_equal. lia.
Qed.

(** Once an access has left the buffers nothing more happens. *)
Lemma decode_texels_None src width height y n : forall i,
  for_loop n i (decode_texel src width height y) None = None.
Proof. induction n as [|n IH]; intros i; [reflexivity|]. rewrite for_loop_S. apply IH. Qed.

Lemma decode_rows_None src width height n : forall i,
  for_loop n i (decode_row src width height) None = None.
Proof.
  induction n as [|n IH]; intros i; [reflexivity|].
  rewrite for_loop_S. unfold decode_row at 2.
  rewrite decode_texels_None. apply IH.
Qed.

(** X2. A square texture of side 2^k (k up to 15) is decoded completely:
    the decode succeeds and every output texel (x, y) holds the converted
    source texel stored at the Morton index of (x, y); no texel is skipped. *)
Theorem decode_square_complete k src dst :
  0 <= k <= 15 ->
  2 ^ (2 * k) <= Z.of_nat (length src) ->
  2 ^ (2 * k) <= Z.of_nat (length dst) ->
  exists dst',
    decode_twiddled_texture src dst (2 ^ k) (2 ^ k) = Some dst'
    /\ length dst' = length dst
    /\ forall x y, 0 <= x < 2 ^ k -> 0 <= y < 2 ^ k ->
         exists color,
           src !! Z.to_nat (untwiddle x y) = Some color
           /\ dst' !! Z.to_nat (y * 2 ^ k + x)
              = Some (pack_pixel (argb1555_to_rgba8888 color)).
Proof.
  intros Hk Hsrc Hdst.
  assert (P0 : 0 < 2 ^ k) by (apply Z.pow_pos_nonneg; lia).
  assert (P15 : 2 ^ k <= 2 ^ 15) by (apply Z.pow_le_mono_r; lia).
  assert (P30 : 2 ^ (2 * k) <= 2 ^ 30) by (apply Z.pow_le_mono_r; lia).
  assert (A : 2 ^ k * 2 ^ k = 2 ^ (2 * k))
    by (rewrite <- Z.pow_add_r by lia; f_equal; lia).
  change (2 ^ 15) with 32768 in P15.
  destruct (decode_twiddled_texture_spec src dst (2 ^ k) (2 ^ k))
    as (dst' & E & L & H); try lia.
  exists dst'. split; [exact E|]. split; [exact L|].
  intros x y Hx Hy. rewrite (H x y Hx Hy). unfold texel_after.
  assert (Hm : 0 <= untwiddle x y < 2 ^ (2 * k)).
  { rewrite untwiddle_toMorton. apply toMorton_square; lia. }
  destruct (Z.ltb_spec (untwiddle x y) (2 ^ k * 2 ^ k)); [|lia].
  destruct (src !! Z.to_nat (untwiddle x y)) as [color|] eqn:Hc.
  - exists color. split; reflexivity.
  - apply lookup_ge_None in Hc. lia.
Qed.

Lemma decode_square_complete_witness :
  exists dst',
    decode_twiddled_texture [1; 2; 3; 4] [0; 0; 0; 0] (2 ^ 1) (2 ^ 1) = Some dst'
    /\ length dst' = length [0; 0; 0; 0]
    /\ forall x y, 0 <= x < 2 ^ 1 -> 0 <= y < 2 ^ 1 ->
         exists color,
           [1; 2; 3; 4] !! Z.to_nat (untwiddle x y) = Some color
           /\ dst' !! Z.to_nat (y * 2 ^ 1 + x)
              = Some (pack_pixel (argb1555_to_rgba8888 color)).
Proof.
  apply (decode_square_complete 1 [1; 2; 3; 4] [0; 0; 0; 0]);
    [lia | cbn [length]; lia | cbn [length]; lia].
Defined.

Lemma untwiddle_row_32768 : i32 (untwiddle 0 32768) = - 2 ^ 31.
Proof. vm_compute. reflexivity. Qed.

(** X3. A texture of more than 32768 rows is never decoded: at row 32768
    the Morton index has bit 31 set, is negative as an [int], passes the
    bounds check and indexes [src] below its start, so the decode leaves
    its buffers, whatever they hold. *)
Theorem decode_tall_leaves_buffers src dst width height :
  1 <= width <= 32768 -> 32768 < height ->
  width * height <= 2 ^ 30 ->
  width * height <= Z.of_nat (length src) ->
  width * height <= Z.of_nat (length dst) ->
  decode_twiddled_texture src dst width height = None.
Proof.
  intros Hw Hh Harea Hsrc Hdst. unfold decode_twiddled_texture.
  replace (Z.to_nat height)
    with (Z.to_nat 32768 + (1 + Z.to_nat (height - 32769)))%nat by lia.
  rewrite for_loop_split.
  destruct (decode_rows src dst width height ltac:(lia) ltac:(lia) Harea Hsrc Hdst
              32768 ltac:(lia) ltac:(lia)) as (l' & -> & _).
  rewrite for_loop_split. cbn [for_loop].
  replace (decode_row src width height (0 + Z.of_nat (Z.to_nat 32768)) (Some l'))
    with (@None (list Z)); [apply decode_rows_None|].
  unfold decode_row.
  replace (Z.to_nat width) with (1 + Z.to_nat (width - 1))%nat by lia.
  rewrite for_loop_split. cbn [for_loop].
  replace (decode_texel src width height (0 + Z.of_nat (Z.to_nat 32768)) 0 (Some l'))
    with (@None (list Z)); [now rewrite decode_texels_None|].
  replace (0 + Z.of_nat (Z.to_nat 32768)) with 32768 by lia.
  unfold decode_texel. cbn [mbind option_bind].
  rewrite untwiddle_row_32768.
  rewrite (i32_small (width * height)) by nia.
  destruct (Z.ltb_spec (- 2 ^ 31) (width * height)); [|nia].
  reflexivity.
Qed.

Lemma decode_tall_leaves_buffers_witness :
  decode_twiddled_texture (repeat 0 (Z.to_nat 32769)) (repeat 0 (Z.to_nat 32769))
    1 32769 = None.
Proof.
  apply decode_tall_leaves_buffers; rewrite ?repeat_length; lia.
Defined.

(** X4. Whenever a decode of fewer than 2^31 texels succeeds, the output has
    the length of [dst] and every element of [dst] at or beyond index
    [width * height] is left as it was: nothing is written outside the
    image. *)
Theorem decode_writes_inside_image src dst width height dst' :
  width * height < 2 ^ 31 ->
  decode_twiddled_texture src dst width height = Some dst' ->
  length dst' = length dst
  /\ forall k, (Z.to_nat (width * height) <= k)%nat -> dst' !! k = dst !! k.
Proof.
  intros Harea.
  pose (Inv := fun (_ : Z) (d : option (list Z)) =>
    forall l, d = Some l ->
      length l = length dst
      /\ forall k, (Z.to_nat (width * height) <= k)%nat -> l !! k = dst !! k).
  assert (Hrows : Inv (0 + Z.of_nat (Z.to_nat height))
                      (decode_twiddled_texture src dst width height)).
  { unfold decode_twiddled_texture.
    apply (for_loop_invariant Inv).
    - intros l [= <-]. split; reflexivity.
    - intros y d Hy Hd. unfold decode_row.
      apply (for_loop_invariant (fun _ => Inv y) _ (Z.to_nat width) 0 d Hd).
      intros x t Hx Ht l. unfold decode_texel.
      destruct t as [lt|]; cbn [mbind option_bind]; [|discriminate].
      destruct (Ht lt eq_refl) as [Hlen Hout].
      destruct (i32 (untwiddle x y) <? i32 (width * height));
        [|intros [= <-]; split; assumption].
      destruct (load src (i32 (untwiddle x y))) as [color|];
        cbn [mbind option_bind]; [|discriminate].
      assert (Hi : 0 <= y * width + x < width * height) by nia.
      rewrite (i32_small (y * width)) by nia.
      rewrite (i32_small (y * width + x)) by lia.
      unfold store.
      destruct ((0 <=? y * width + x) && (y * width + x <? Z.of_nat (length lt)));
        [|discriminate].
      intros [= <-]. split; [now rewrite length_insert|].
      intros k Hk. rewrite list_lookup_insert_ne by lia. now apply Hout. }
  intros E. exact (Hrows dst' E).
Qed.

Lemma decode_writes_inside_image_witness :
  length [0xFF000000; 9; 5] = length [7; 9; 5]
  /\ forall k, (Z.to_nat (1 * 2) <= k)%nat ->
       [0xFF000000; 9; 5] !! k = [7; 9; 5] !! k.
Proof.
  apply (decode_writes_inside_image [0x8000; 0x7FFF] [7; 9; 5] 1 2).
  - lia.
  - vm_compute. reflexivity.
Defined.

End TwiddledMore.

(** ** More on the pixel formats *)
Module PixelLossless.
Import CInt Pixel PixelDefs CIntFacts PixelFacts.

(** Widening a channel loses nothing: the channel is the top of the result. *)
Lemma replicate_inj w c c' :
  4 <= w <= 8 -> 0 <= c < 2 ^ w -> 0 <= c' < 2 ^ w ->
  replicate w c = replicate w c' -> c = c'.
Proof.
  intros Hw Hc Hc' E. unfold replicate in E.
  assert (W : w = 4 \/ w = 5 \/ w = 6 \/ w = 7 \/ w = 8) by lia.
  destruct W as [->|[->|[->|[->| ->]]]]; cbn in E, Hc, Hc';
    Z.div_mod_to_equations; lia.
Qed.

Lemma rgb565_inj a b :
  0 <= a < 2 ^ 16 -> 0 <= b < 2 ^ 16 ->
  rgb565_to_rgba8888 a = rgb565_to_rgba8888 b -> a = b.
Proof.
  intros Ha Hb E.
  rewrite (rgb565_replicates a), (rgb565_replicates b) in E. cbv zeta in E.
  rewrite !u16_small in E by assumption.
  injection E as E0 E1 E2.
  apply replicate_inj in E0, E1, E2; try lia;
    try (split; [Z.div_mod_to_equations; lia | Z.div_mod_to_equations; lia]).
  change (2 ^ 16) with 65536 in *.
  Z.div_mod_to_equations. lia.
Qed.

Lemma argb4444_inj a b :
  0 <= a < 2 ^ 16 -> 0 <= b < 2 ^ 16 ->
  argb4444_to_rgba8888 a = argb4444_to_rgba8888 b -> a = b.
Proof.
  intros Ha Hb E.
  rewrite (argb4444_replicates a), (argb4444_replicates b) in E. cbv zeta in E.
  rewrite !u16_small in E by assumption.
  injection E as E0 E1 E2 E3.
  apply replicate_inj in E0, E1, E2, E3; try lia;
    try (split; [Z.div_mod_to_equations; lia | Z.div_mod_to_equations; lia]).
  change (2 ^ 16) with 65536 in *.
  Z.div_mod_to_equations. lia.
Qed.

Lemma argb1555_inj a b :
  0 <= a < 2 ^ 16 -> 0 <= b < 2 ^ 16 ->
  argb1555_to_rgba8888 a = argb1555_to_rgba8888 b -> a = b.
Proof.
  intros Ha Hb E.
  rewrite (argb1555_replicates a), (argb1555_replicates b) in E. cbv zeta in E.
  rewrite !u16_small in E by assumption.
  injection E as E0 E1 E2 E3.
  apply replicate_inj in E0, E1, E2; try lia;
    try (split; [Z.div_mod_to_equations; lia | Z.div_mod_to_equations; lia]).
  change (2 ^ 16) with 65536 in *.
  destruct (Z.ltb_spec a (2 ^ 15)), (Z.ltb_spec b (2 ^ 15)); try discriminate;
    change (2 ^ 15) with 32768 in *; Z.div_mod_to_equations; lia.
Qed.

(** X5. The three converters lose no information: two different 16-bit raw
    values never decode to the same colour, in any of the three formats. *)
Theorem decode_pixel_injective fmt a b :
  0 <= a < 2 ^ 16 -> 0 <= b < 2 ^ 16 ->
  a <> b -> decode_pixel fmt a <> decode_pixel fmt b.
Proof.
  intros Ha Hb Hne E. apply Hne. destruct fmt; cbn [decode_pixel] in E.
  - now apply argb1555_inj.
  - now apply rgb565_inj.
  - now apply argb4444_inj.
Qed.

Lemma decode_pixel_injective_witness :
  decode_pixel RGB565 0x0001 <> decode_pixel RGB565 0x0000.
Proof. apply decode_pixel_injective; lia. Defined.

End PixelLossless.

(** ** More on the PVM container header *)
Module PvmMore.
Import Eff Pvm PvmDefs PvmMoreDefs EffFacts PvmFacts.

Lemma replace_nul_clean s : has_nul (replace_nul s) = false.
Proof.
  induction s as [|c s IH]; [reflexivity|]. cbn [replace_nul].
  destruct (Ascii.eqb c Ascii.zero) eqn:E; [exact IH|].
  cbn [has_nul]. now rewrite E, IH.
Qed.

Lemma dimension_low size : is_dimension (PyInt (Z.shiftl 1 (Z.land size 0x0f + 2))).
Proof.
  exists (size mod 16). split; [pose proof (Z.mod_pos_bound size 16); lia|].
  now destruct (shiftl_one_pow2 size) as [-> _].
Qed.

Lemma dimension_high size :
  is_dimension (PyInt (Z.shiftl 1 (Z.land (Z.shiftr size 4) 0x0f + 2))).
Proof.
  exists (size / 16 mod 16).
  split; [pose proof (Z.mod_pos_bound (size / 16) 16); lia|].
  now destruct (shiftl_one_pow2 size) as [_ ->].
Qed.

Lemma bind_ret_l {S E A B} (a : A) (k : A -> M S E B) s : bind (ret a) k s = k a s.
Proof. reflexivity. Qed.

(** Reading a fixed-size field, whatever follows. *)
Lemma read_H_then {B} (k : Z -> M file py_exn B) f r f' :
  (bs <- read 2 ;; x <- unpack_H bs ;; k x)%eff f = (Ok r, f') ->
  exists v f1,
    k v f1 = (Ok r, f')
    /\ contents f1 = contents f
    /\ offset f1 = (offset f + 2)%nat
    /\ (offset f1 <= length (contents f))%nat.
Proof.
  intros H. apply bind_Ok in H as (bs & f0 & Hr & H).
  apply bind_Ok in H as (v & f1 & Hu & H).
  assert (Hrd : (bs0 <- read 2 ;; unpack_H bs0)%eff f = (Ok v, f1))
    by (now rewrite (bind_step _ _ _ _ _ Hr)).
  apply read_H in Hrd as (b0 & b1 & _ & Hb1 & _ & Hc & Ho).
  exists v, f1. repeat split; try assumption.
  apply lookup_lt_Some in Hb1. lia.
Qed.

Lemma read_I_then {B} (k : Z -> M file py_exn B) f r f' :
  (bs <- read 4 ;; x <- unpack_I bs ;; k x)%eff f = (Ok r, f') ->
  exists v f1,
    k v f1 = (Ok r, f')
    /\ contents f1 = contents f
    /\ offset f1 = (offset f + 4)%nat
    /\ (offset f1 <= length (contents f))%nat.
Proof.
  intros H. apply bind_Ok in H as (bs & f0 & Hr & H).
  apply bind_Ok in H as (v & f1 & Hu & H).
  apply unpack_I_inv in Hu as [Hlen ->].
  destruct (read_exact _ _ _ _ Hr Hlen) as (Hc & Ho & Hb).
  exists v, f0. repeat split; try assumption.
  pose proof (Hb 3%nat ltac:(lia)) as H3.
  destruct (bs !! 3%nat) eqn:E.
  - symmetry in H3. apply lookup_lt_Some in H3. lia.
  - apply lookup_ge_None in E. lia.
Qed.

Lemma read_H_then_exhausted {B} (k : Z -> M file py_exn B) f r f' :
  exhausted f -> (bs <- read 2 ;; x <- unpack_H bs ;; k x)%eff f = (Ok r, f') -> False.
Proof.
  intros Hx H. apply read_H_then in H as (v & f1 & _ & Hc & Ho & Hle).
  unfold exhausted in Hx. lia.
Qed.

Lemma read_I_then_exhausted {B} (k : Z -> M file py_exn B) f r f' :
  exhausted f -> (bs <- read 4 ;; x <- unpack_I bs ;; k x)%eff f = (Ok r, f') -> False.
Proof.
  intros Hx H. apply read_I_then in H as (v & f1 & _ & Hc & Ho & Hle).
  unfold exhausted in Hx. lia.
Qed.

(** The name field: 28 bytes, or what is left of the file. *)
Lemma read_name_then {B} decode (k : gmap string py_val -> M file py_exn B)
    (texture : gmap string py_val) f r f' :
  (t <- (name_bytes <- read 28 ;;
         match decode name_bytes with
         | None => throw UnicodeDecodeError
         | Some s => ret (<[ "name" := PyStr (replace_nul s) ]> texture)
         end) ;; k t)%eff f = (Ok r, f') ->
  exists s f1,
    k (<[ "name" := PyStr (replace_nul s) ]> texture) f1 = (Ok r, f')
    /\ contents f1 = contents f
    /\ ((offset f1 = (offset f + 28)%nat /\ (offset f1 <= length (contents f))%nat)
        \/ exhausted f1).
Proof.
  intros H. apply bind_Ok in H as (t & f1 & Hn & H).
  apply bind_Ok in Hn as (nb & f0 & Hr & Hd).
  destruct (decode nb) as [s|]; [|discriminate].
  apply ret_Ok in Hd as [-> ->].
  exists s, f0. split; [exact H|].
  pose proof (read_length _ _ _ _ Hr) as Hle.
  destruct (Nat.eq_dec (length nb) 28%nat) as [E|NE].
  - destruct (read_exact _ _ _ _ Hr E) as (Hc & Ho & Hb).
    split; [exact Hc|]. left. split; [exact Ho|].
    pose proof (Hb 27%nat ltac:(lia)) as H27.
    destruct (nb !! 27%nat) eqn:E27.
    + symmetry in H27. apply lookup_lt_Some in H27. lia.
    + apply lookup_ge_None in E27. lia.
  - split; [apply read_inv in Hr as [_ ->]; reflexivity|].
    right. apply (read_short _ _ _ _ Hr). lia.
Qed.

Section Entry.
Variable decode : list Z -> option string.

(** What a successful read of one entry gives: the shape of the entry, and
    where the file stands afterwards. *)
Lemma read_texture_Ok flags f texture f' :
  read_texture decode flags f = (Ok texture, f') ->
  well_formed_entry flags texture
  /\ contents f' = contents f
  /\ ((offset f' = (offset f + entry_size flags)%nat
       /\ (offset f' <= length (contents f))%nat)
      \/ (~ field_after_name flags /\ exhausted f')).
Proof.
  intros H. unfold read_texture in H.
  apply read_H_then in H as (index & f1 & H & Hc1 & Ho1 & Hl1).
  unfold well_formed_entry, entry_keys, entry_size, field_after_name.
  destruct (Z.eqb_spec (Z.land flags 8) 0) as [E8|E8];
  destruct (Z.eqb_spec (Z.land flags 4) 0) as [E4|E4];
  destruct (Z.eqb_spec (Z.land flags 2) 0) as [E2|E2];
  destruct (Z.eqb_spec (Z.land flags 1) 0) as [E1|E1];
  repeat match type of H with
    | bind (ret _) _ _ = _ => rewrite bind_ret_l in H; cbv beta in H
    | bind (bind (read 28) _) _ _ = _ =>
        apply read_name_then in H as (s & fn & H & Hcn & Hon)
    | bind (bind (read 2) _) _ _ = _ =>
        let Hx := fresh in
        apply bind_Ok in H as (? & ? & Hx & H);
        apply read_H_then in Hx as (? & ? & Hx & ? & ? & ?);
        apply ret_Ok in Hx as [-> ->]
    | bind (bind (read 4) _) _ _ = _ =>
        let Hx := fresh in
        apply bind_Ok in H as (? & ? & Hx & H);
        apply read_I_then in Hx as (? & ? & Hx & ? & ? & ?);
        apply ret_Ok in Hx as [-> ->]
    end.
  all: apply ret_Ok in H as [-> ->].
  all: split; [split; [|split; [|split]] | split].
  all: try (rewrite ?dom_insert_L, dom_singleton_L; set_solver).
  all: try (intros v Hv; simplify_map_eq;
            first [ eexists; split; [reflexivity | apply replace_nul_clean]
                  | apply dimension_low
                  | apply dimension_high ]).
  all: try congruence.
  all: repeat match goal with
              | H : contents ?a = contents ?b |- _ =>
                  assert (length (contents a) = length (contents b))
                    by (now rewrite H);
                  clear H
              end.
  all: unfold exhausted in *.
  all: try (left; split; lia).
  all: try (destruct Hon as [[Hon Hln]|Hon];
            [ left; split; lia
            | first [ right; split; [intros [?|[?|?]]; contradiction | lia]
                    | exfalso; lia ] ]).
Qed.
Lemma read_texture_exhausted flags f texture f' :
  exhausted f -> read_texture decode flags f = (Ok texture, f') -> False.
Proof. intros Hx H. exact (read_H_then_exhausted _ _ _ _ Hx H). Qed.

(** The loop over the entries. *)
Lemma read_textures_Ok flags n : forall acc f ts f',
  read_textures decode flags n acc f = (Ok ts, f') ->
  exists new,
    ts = acc ++ new
    /\ length new = n
    /\ Forall (well_formed_entry flags) new
    /\ contents f' = contents f
    /\ ((offset f' = (offset f + n * entry_size flags)%nat
         /\ ((0 < n)%nat -> (offset f' <= length (contents f))%nat))
        \/ (~ field_after_name flags /\ exhausted f')).
Proof.
  induction n as [|n IH]; intros acc f ts f' H.
  - apply ret_Ok in H as [-> ->]. exists []. rewrite app_nil_r.
    split; [reflexivity|]. split; [reflexivity|]. split; [constructor|].
    split; [reflexivity|]. left. split; lia.
  - cbn [read_textures] in H.
    apply bind_Ok in H as (t & f1 & Ht & H).
    pose proof (read_texture_Ok _ _ _ _ Ht) as (Hwf & Hc1 & Ho1).
    destruct (IH _ _ _ _ H) as (new & -> & Hlen & Hall & Hc & Ho).
    exists (t :: new). rewrite <- app_assoc. cbn [app length].
    split; [reflexivity|]. split; [now rewrite Hlen|].
    split; [now constructor|]. split; [congruence|].
    assert (L : length (contents f1) = length (contents f)) by now rewrite Hc1.
    destruct Ho1 as [[Ho1 Hl1]|[Hfan Hx1]].
    + destruct Ho as [[Ho Hl]|[Hfan Hx]]; [|now right].
      left. split; [lia|]. intros _.
      destruct n as [|n]; [lia|]. specialize (Hl ltac:(lia)). lia.
    + right. split; [exact Hfan|].
      destruct n as [|n].
      * apply ret_Ok in H as [_ ->]. exact Hx1.
      * cbn [read_textures] in H.
        apply bind_Ok in H as (t' & f2 & Ht' & _).
        destruct (read_texture_exhausted _ _ _ _ Hx1 Ht').
Qed.

Lemma unpack_HH_inv bs (s s' : file) v :
  unpack_HH bs s = (Ok v, s') -> length bs = 4%nat /\ s' = s.
Proof.
  destruct bs as [|b0 [|b1 [|b2 [|b3 [|b4 bs]]]]]; simpl; intros H;
    try discriminate.
  apply ret_Ok in H as [-> ->]. eauto.
Qed.

(** What a successful parse gives. *)
Lemma parse_pvm_header_Ok bytes hdr :
  parse_pvm_header decode bytes = Ok hdr ->
  take 4 bytes = magic_PVMH
  /\ length (textures hdr) = Z.to_nat (texture_count hdr)
  /\ Forall (well_formed_entry (flags hdr)) (textures hdr)
  /\ (field_after_name (flags hdr) ->
      (12 + Z.to_nat (texture_count hdr) * entry_size (flags hdr)
       <= length bytes)%nat).
Proof.
  unfold parse_pvm_header.
  destruct (parse_pvm_header_from decode (File bytes 0)) as [r f'] eqn:H.
  cbn [fst]. intros ->. unfold parse_pvm_header_from in H.
  apply bind_Ok in H as (magic & f1 & Hm & H).
  destruct (bool_decide_reflect (magic = magic_PVMH)) as [->|]; [|discriminate].
  cbn [negb] in H.
  assert (Hm4 : length magic_PVMH = 4%nat) by reflexivity.
  destruct (read_exact _ _ _ _ Hm Hm4) as (Hc1 & Ho1 & _).
  apply read_inv in Hm as [Hm _]. cbn [offset contents] in Hm, Hc1, Ho1.
  rewrite drop_0 in Hm.
  apply read_I_then in H as (hs & f2 & H & Hc2 & Ho2 & Hl2).
  apply bind_Ok in H as (bs & f3 & Hr & H).
  apply bind_Ok in H as ([fl cnt] & f4 & Hu & H).
  apply unpack_HH_inv in Hu as [Hlen ->].
  destruct (read_exact _ _ _ _ Hr Hlen) as (Hc3 & Ho3 & Hb3).
  assert (Hl3 : (offset f3 <= length (contents f2))%nat).
  { pose proof (Hb3 3%nat ltac:(lia)) as H3.
    destruct (bs !! 3%nat) eqn:E.
    - symmetry in H3. apply lookup_lt_Some in H3. lia.
    - apply lookup_ge_None in E. lia. }
  apply bind_Ok in H as (ts & f5 & Hts & H).
  apply ret_Ok in H as [-> _]. cbn [textures texture_count flags].
  destruct (read_textures_Ok _ _ _ _ _ _ Hts) as (new & -> & Hn & Hall & Hc5 & Ho5).
  cbn [app]. split; [now symmetry|]. split; [exact Hn|]. split; [exact Hall|].
  intros Hfan.
  assert (L : length (contents f3) = length bytes) by congruence.
  assert (L2 : length (contents f2) = length bytes) by congruence.
  destruct Ho5 as [[Ho5 Hl5]|[Hno _]]; [|contradiction].
  destruct (Z.to_nat cnt) as [|n]; [lia|].
  specialize (Hl5 ltac:(lia)). lia.
Qed.
End Entry.

(** X6. Whenever the header parses, the file starts with the magic PVMH, the
    list of textures has exactly [texture_count] entries, and every entry has
    exactly the keys that the flags select: "index" always, "name" with
    0x08, "format" with 0x04, "width" and "height" with 0x02,
    "global_index" with 0x01. *)
Theorem parse_pvm_header_entries decode bytes hdr :
  parse_pvm_header decode bytes = Ok hdr ->
  take 4 bytes = magic_PVMH
  /\ length (textures hdr) = Z.to_nat (texture_count hdr)
  /\ Forall (fun texture => dom texture = entry_keys (flags hdr)) (textures hdr).
Proof.
  intros H. destruct (parse_pvm_header_Ok decode bytes hdr H) as (Hm & Hn & Hall & _).
  split; [exact Hm|]. split; [exact Hn|].
  eapply Forall_impl; [exact Hall|]. now intros t [Hd _].
Qed.

Lemma parse_pvm_header_entries_witness :
  take 4 sample_pvm = magic_PVMH
  /\ length (textures sample_header) = Z.to_nat (texture_count sample_header)
  /\ Forall (fun texture => dom texture = entry_keys (flags sample_header))
            (textures sample_header).
Proof.
  apply (parse_pvm_header_entries decode_ascii sample_pvm sample_header).
  vm_compute. reflexivity.
Defined.

(** X7. In every entry of a parsed header the name holds no NUL character,
    and width and height are powers of two from 4 to 131072. *)
Theorem parse_pvm_header_values decode bytes hdr :
  parse_pvm_header decode bytes = Ok hdr ->
  Forall (fun texture : gmap string py_val =>
            (forall v, texture !! "name" = Some v -> is_clean_name v)
            /\ (forall v, texture !! "width" = Some v -> is_dimension v)
            /\ (forall v, texture !! "height" = Some v -> is_dimension v))
         (textures hdr).
Proof.
  intros H. destruct (parse_pvm_header_Ok decode bytes hdr H) as (_ & _ & Hall & _).
  eapply Forall_impl; [exact Hall|]. now intros t [_ Hv].
Qed.

Lemma parse_pvm_header_values_witness :
  Forall (fun texture : gmap string py_val =>
            (forall v, texture !! "name" = Some v -> is_clean_name v)
            /\ (forall v, texture !! "width" = Some v -> is_dimension v)
            /\ (forall v, texture !! "height" = Some v -> is_dimension v))
         (textures sample_header).
Proof.
  apply (parse_pvm_header_values decode_ascii sample_pvm sample_header).
  vm_compute. reflexivity.
Defined.

(** X8. A file that does not start with the four bytes PVMH, an empty or
    shorter file included, is rejected with ValueError "Not a valid PVM
    file", whatever follows. *)
Theorem parse_pvm_header_bad_magic decode bytes :
  take 4 bytes <> magic_PVMH ->
  parse_pvm_header decode bytes = Err (ValueError "Not a valid PVM file").
Proof.
  intros Hm. unfold parse_pvm_header, parse_pvm_header_from.
  erewrite bind_step by reflexivity. cbn [offset contents]. rewrite drop_0.
  destruct (bool_decide_reflect (take 4 bytes = magic_PVMH)); [contradiction|].
  reflexivity.
Qed.

Lemma parse_pvm_header_bad_magic_witness :
  parse_pvm_header decode_ascii [] = Err (ValueError "Not a valid PVM file")
  /\ parse_pvm_header decode_ascii [0x50; 0x56; 0x52; 0x54; 0; 0; 0; 0]
     = Err (ValueError "Not a valid PVM file").
Proof.
  split; apply parse_pvm_header_bad_magic; discriminate.
Defined.

(** X9. When the flags select a field after the name (0x04, 0x02 or 0x01),
    a header only parses if the file holds the 12 header bytes and all
    [texture_count] entries in full. *)
Theorem parse_pvm_header_needs_all_entries decode bytes hdr :
  parse_pvm_header decode bytes = Ok hdr ->
  field_after_name (flags hdr) ->
  (12 + Z.to_nat (texture_count hdr) * entry_size (flags hdr) <= length bytes)%nat.
Proof.
  intros H. now destruct (parse_pvm_header_Ok decode bytes hdr H) as (_ & _ & _ & Hs).
Qed.

Lemma parse_pvm_header_needs_all_entries_witness :
  (12 + Z.to_nat (texture_count sample_header) * entry_size (flags sample_header)
   <= length sample_pvm)%nat.
Proof.
  apply (parse_pvm_header_needs_all_entries decode_ascii sample_pvm sample_header).
  - vm_compute. reflexivity.
  - left. vm_compute. discriminate.
Defined.

End PvmMore.

(** ** NJ texture list, skeleton and chunk stream, continued *)
Module NjMore.
Import Eff Nj NjDefs Njtl NjMoreDefs EffFacts NjFacts.

Section TextureList.
Variable buffer : list Z.
Context {X : Type}.

Lemma readUInt32_result (s : state X) :
  (readUInt32 buffer s = (Ok (u32_at buffer (pos s)), State (pos s + 4) (ext s))
   /\ 0 <= pos s /\ pos s + 4 <= Z.of_nat (length buffer))
  \/ (exists s', readUInt32 buffer s = (Err TruncatedInput, s')
                 /\ ~ (0 <= pos s /\ pos s + 4 <= Z.of_nat (length buffer))).
Proof.
  destruct s as [p x]. cbn [pos ext].
  destruct (decide (0 <= p /\ p + 4 <= Z.of_nat (length buffer))) as [[H0 H4]|Hout].
  - left. split; [now apply readUInt32_in | lia].
  - right. unfold readUInt32.
    destruct (decide (0 <= p < Z.of_nat (length buffer))) as [H1|H1].
    2:{ eexists. split; [|exact Hout].
        erewrite bind_Err by (apply readUInt8_out; exact H1). reflexivity. }
    erewrite bind_step by (apply readUInt8_in; exact H1).
    destruct (decide (p + 1 < Z.of_nat (length buffer))) as [H2|H2].
    2:{ eexists. split; [|exact Hout].
        erewrite bind_Err by (apply readUInt8_out; lia). reflexivity. }
    erewrite bind_step by (apply readUInt8_in; lia).
    destruct (decide (p + 1 + 1 < Z.of_nat (length buffer))) as [H3|H3].
    2:{ eexists. split; [|exact Hout].
        erewrite bind_Err by (apply readUInt8_out; lia). reflexivity. }
    erewrite bind_step by (apply readUInt8_in; lia).
    eexists. split; [|exact Hout].
    erewrite bind_Err by (apply readUInt8_out; lia). reflexivity.
Qed.

Lemma readUInt32_Ok (s s' : state X) v :
  readUInt32 buffer s = (Ok v, s') ->
  v = u32_at buffer (pos s) /\ s' = State (pos s + 4) (ext s)
  /\ 0 <= pos s /\ pos s + 4 <= Z.of_nat (length buffer).
Proof.
  intros H. destruct (readUInt32_result s) as [[E Hr]|(s1 & E & _)];
    rewrite E in H; [|discriminate].
  inversion H. auto.
Qed.

Lemma seek_result target (s : state X) :
  (seek buffer target s = (Ok tt, State target (ext s))
   /\ 0 <= target <= Z.of_nat (length buffer))
  \/ (seek buffer target s = (Err TruncatedInput, s)
      /\ ~ (0 <= target <= Z.of_nat (length buffer))).
Proof.
  unfold seek.
  destruct (Z.leb_spec 0 target);
    destruct (Z.leb_spec target (Z.of_nat (length buffer))); cbn [andb];
    first [ left; split; [reflexivity | lia] | right; split; [reflexivity | lia] ].
Qed.

Lemma seek_Ok target (s s' : state X) u :
  seek buffer target s = (Ok u, s') ->
  s' = State target (ext s) /\ 0 <= target <= Z.of_nat (length buffer).
Proof.
  intros H. destruct (seek_result target s) as [[E Hr]|[E _]];
    rewrite E in H; [|discriminate].
  inversion H. auto.
Qed.

Lemma seekRel_result delta (s : state X) :
  (seekRel buffer delta s = (Ok tt, State (pos s + delta) (ext s))
   /\ 0 <= pos s + delta <= Z.of_nat (length buffer))
  \/ (seekRel buffer delta s = (Err TruncatedInput, s)
      /\ ~ (0 <= pos s + delta <= Z.of_nat (length buffer))).
Proof.
  unfold seekRel, tell, bind. apply seek_result.
Qed.

Variable readString : M (state X) DecodeError string.

(** The loop over the table entries: it succeeds exactly when the
    [count] entries are inside the buffer, and then it has collected
    their first words in order. *)
Lemma readPointers_result count : forall acc (s : state X),
  0 <= pos s ->
  (readPointers buffer count acc s
   = (Ok (acc ++ table_pointers buffer (pos s) count),
      State (pos s + 12 * Z.of_nat count) (ext s))
   /\ (count = 0%nat \/ pos s + 12 * Z.of_nat count <= Z.of_nat (length buffer)))
  \/ (exists s', readPointers buffer count acc s = (Err TruncatedInput, s')
                 /\ Z.of_nat (length buffer) < pos s + 12 * Z.of_nat count).
Proof.
  induction count as [|count IH]; intros acc s Hp.
  - left. unfold table_pointers. cbn [readPointers seq List.map].
    rewrite app_nil_r, Z.mul_0_r, Z.add_0_r. destruct s. split; [reflexivity|now left].
  - cbn [readPointers].
    destruct (readUInt32_result s) as [(E & H0 & H4)|(s1 & E & Hout)].
    2:{ right. eexists. split; [erewrite bind_Err by exact E; reflexivity | lia]. }
    erewrite bind_step by exact E.
    destruct (seekRel_result 8 (State (pos s + 4) (ext s))) as [[E8 H8]|[E8 H8]];
      cbn [pos ext] in E8, H8.
    2:{ right. eexists. split; [erewrite bind_Err by exact E8; reflexivity | lia]. }
    erewrite bind_step by exact E8.
    destruct (IH (acc ++ [u32_at buffer (pos s)]) (State (pos s + 4 + 8) (ext s)))
      as [[EI HI]|(s1 & EI & HI)]; cbn [pos ext] in *; [lia| |].
    + left. rewrite EI. split; [|right; lia].
      f_equal; [|f_equal; lia]. f_equal. rewrite <- app_assoc. f_equal.
      unfold table_pointers. cbn [seq List.map app].
      rewrite Z.mul_0_r, Z.add_0_r. f_equal.
      rewrite <- seq_shift, List.map_map. apply List.map_ext. intros i. f_equal. lia.
    + right. exists s1. split; [exact EI | lia].
Qed.

(** The [forEach] over the collected pointers. *)
Lemma read_names_Ok ref : forall ptrs (s s' : state X) names,
  mapM (fun ptr => seek buffer (ref + ptr) ;; readString)%eff ptrs s = (Ok names, s') ->
  Forall2 (fun p name => exists s1 s2,
             pos s1 = ref + p /\ readString s1 = (Ok name, s2)) ptrs names.
Proof.
  induction ptrs as [|p ptrs IH]; intros s s' names H.
  - apply ret_Ok in H as [-> _]. constructor.
  - cbn [mapM] in H.
    apply bind_Ok in H as (name & s1 & Hn & H).
    apply bind_Ok in H as (rest & s2 & Hr & H).
    apply ret_Ok in H as [-> _].
    apply bind_Ok in Hn as (u & s0 & Hs & Hn).
    apply seek_Ok in Hs as [-> _].
    constructor; [|exact (IH _ _ _ Hr)].
    eexists _, _. split; [|exact Hn]. reflexivity.
Qed.

Lemma readNjtl_Ok (s s' : state X) names :
  readNjtl buffer readString s = (Ok names, s') ->
  let ptr := u32_at buffer (pos s) in
  let count := Z.to_nat (u32_at buffer (pos s + 4)) in
  0 <= pos s /\ pos s + 8 <= Z.of_nat (length buffer)
  /\ 0 <= pos s + ptr
  /\ pos s + ptr + 12 * Z.of_nat count <= Z.of_nat (length buffer)
  /\ Forall2 (fun p name => exists s1 s2,
                pos s1 = pos s + p /\ readString s1 = (Ok name, s2))
             (table_pointers buffer (pos s + ptr) count) names.
Proof.
  intros H. unfold readNjtl in H.
  apply bind_Ok in H as (ref & s0 & Ht & H). inversion Ht; subst ref s0; clear Ht.
  apply bind_Ok in H as (ptr' & s1 & Hp & H).
  apply readUInt32_Ok in Hp as (-> & -> & H0 & H4).
  apply bind_Ok in H as (count' & s2 & Hc & H).
  apply readUInt32_Ok in Hc as (-> & -> & _ & H8). cbn [pos ext] in H8, H |- *.
  apply bind_Ok in H as (u & s3 & Hs & H).
  apply seek_Ok in Hs as [-> Hs]. cbn [ext] in H.
  apply bind_Ok in H as (ptrs & s4 & Hps & H).
  destruct (readPointers_result (Z.to_nat (u32_at buffer (pos s + 4))) []
              (State (u32_at buffer (pos s) + pos s) (ext s)))
    as [[E Hfit]|(s5 & E & _)]; cbn [pos ext] in *; [lia| |congruence].
  rewrite E in Hps. inversion Hps; subst ptrs s4; clear Hps.
  cbn [app] in H. apply read_names_Ok in H.
  replace (pos s + u32_at buffer (pos s)) with (u32_at buffer (pos s) + pos s) by lia.
  repeat split; try lia; exact H.
Qed.

Lemma readNjtl_Err (s : state X) :
  0 <= pos s -> pos s + 8 <= Z.of_nat (length buffer) ->
  ~ (0 <= pos s + u32_at buffer (pos s)
     /\ pos s + u32_at buffer (pos s)
        + 12 * Z.of_nat (Z.to_nat (u32_at buffer (pos s + 4)))
        <= Z.of_nat (length buffer)) ->
  fst (readNjtl buffer readString s) = Err TruncatedInput.
Proof.
  intros H0 H8 Hout. unfold readNjtl. destruct s as [p x]. cbn [pos] in *.
  erewrite bind_step by reflexivity. cbn [pos].
  erewrite bind_step by (apply readUInt32_in; lia).
  erewrite bind_step by (apply readUInt32_in; lia).
  destruct (seek_result (u32_at buffer p + p) (State (p + 4 + 4) x)) as [[E Hr]|[E Hr]].
  2:{ erewrite bind_Err by exact E. reflexivity. }
  erewrite bind_step by exact E. cbn [ext].
  destruct (readPointers_result (Z.to_nat (u32_at buffer (p + 4))) []
              (State (u32_at buffer p + p) x))
    as [[EI Hfit]|(s5 & EI & _)]; cbn [pos ext] in *; [lia| |].
  - exfalso. apply Hout. destruct Hfit as [Hz|Hfit]; [rewrite Hz|]; lia.
  - erewrite bind_Err by exact EI. reflexivity.
Qed.
End TextureList.

(** X10. When [readNjtl] returns, it returns exactly as many names as the
    count word says, in the order of the table and not of the strings: the
    i-th name is what [readString] gives at origin + the i-th name pointer,
    the pointers being the first words of the 12-byte entries that start at
    origin + pointer word. *)
Theorem readNjtl_names_in_table_order {X} buffer readString (s s' : state X) names :
  readNjtl buffer readString s = (Ok names, s') ->
  length names = Z.to_nat (u32_at buffer (pos s + 4))
  /\ Forall2 (fun p name => exists s1 s2,
                pos s1 = pos s + p /\ readString s1 = (Ok name, s2))
             (table_pointers buffer (pos s + u32_at buffer (pos s))
                (Z.to_nat (u32_at buffer (pos s + 4))))
             names.
Proof.
  intros H. destruct (readNjtl_Ok buffer readString s s' names H)
    as (_ & _ & _ & _ & HF).
  split; [|exact HF].
  apply Forall2_length in HF. rewrite <- HF.
  unfold table_pointers. now rewrite length_map, length_seq.
Qed.

Lemma readNjtl_names_in_table_order_witness :
  length ["C"; "AB"] = Z.to_nat (u32_at sample_njtl (0 + 4))
  /\ Forall2 (fun p name => exists s1 s2,
                pos s1 = 0 + p
                /\ read_cstring sample_njtl s1 = (Ok name, s2))
             (table_pointers sample_njtl (0 + u32_at sample_njtl 0)
                (Z.to_nat (u32_at sample_njtl (0 + 4))))
             ["C"; "AB"].
Proof.
  apply (readNjtl_names_in_table_order sample_njtl (read_cstring sample_njtl)
           (State 0 tt) (State 35 tt) ["C"; "AB"]).
  vm_compute. reflexivity.
Defined.

(** X11. [readNjtl] only returns when the whole pointer table, 12 bytes for
    each of the entries counted, lies inside the buffer. When the 8-byte
    header can be read and the table does not fit, the count being too
    large for instance, the read fails with [TruncatedInput], whatever the
    string reader is. *)
Theorem readNjtl_table_inside_buffer {X} buffer readString (s : state X) :
  (forall names s',
     readNjtl buffer readString s = (Ok names, s') ->
     0 <= pos s + u32_at buffer (pos s)
     /\ pos s + u32_at buffer (pos s)
        + 12 * Z.of_nat (Z.to_nat (u32_at buffer (pos s + 4)))
        <= Z.of_nat (length buffer))
  /\ (0 <= pos s -> pos s + 8 <= Z.of_nat (length buffer) ->
      ~ (0 <= pos s + u32_at buffer (pos s)
         /\ pos s + u32_at buffer (pos s)
            + 12 * Z.of_nat (Z.to_nat (u32_at buffer (pos s + 4)))
            <= Z.of_nat (length buffer)) ->
      fst (readNjtl buffer readString s) = Err TruncatedInput).
Proof.
  split.
  - intros names s' H.
    destruct (readNjtl_Ok buffer readString s s' names H) as (_ & _ & Ha & Hb & _).
    split; assumption.
  - apply readNjtl_Err.
Qed.

Lemma readNjtl_table_inside_buffer_witness :
  fst (readNjtl oversized_njtl (read_cstring oversized_njtl) (State 0 tt))
  = Err TruncatedInput.
Proof.
  assert (Hcount : u32_at oversized_njtl (0 + 4) = 4294967295)
    by (vm_compute; reflexivity).
  assert (Hptr : u32_at oversized_njtl 0 = 8) by (vm_compute; reflexivity).
  assert (Hlen : Z.of_nat (length oversized_njtl) = 32) by (vm_compute; reflexivity).
  apply (proj2 (readNjtl_table_inside_buffer oversized_njtl
                  (read_cstring oversized_njtl) (State 0 tt)));
    unfold pos; rewrite ?Hcount, ?Hptr, ?Hlen.
  - reflexivity.
  - discriminate.
  - rewrite Z2Nat.id by discriminate. intros [_ Hfit]. apply Hfit. reflexivity.
Defined.

(** *** The skeleton is a forest *)

Section Arena.
Variable buffer : list Z.

Lemma readVector3_Ok (s s' : state (list Bone)) v :
  readVector3 buffer s = (Ok v, s') -> ext s' = ext s.
Proof.
  intros H. unfold readVector3, readFloat in H.
  apply bind_Ok in H as (x & s1 & H1 & H). apply readUInt32_Ok in H1 as (_ & -> & _).
  apply bind_Ok in H as (y & s2 & H2 & H). apply readUInt32_Ok in H2 as (_ & -> & _).
  apply bind_Ok in H as (z & s3 & H3 & H). apply readUInt32_Ok in H3 as (_ & -> & _).
  apply ret_Ok in H as [_ ->]. reflexivity.
Qed.

Lemma readInt32_Ok (s s' : state (list Bone)) v :
  readInt32 buffer s = (Ok v, s') -> ext s' = ext s.
Proof.
  intros H. unfold readInt32 in H.
  apply bind_Ok in H as (x & s1 & H1 & H). apply readUInt32_Ok in H1 as (_ & -> & _).
  apply ret_Ok in H as [_ ->]. reflexivity.
Qed.

Lemma readRotation_Ok zxy (s s' : state (list Bone)) v :
  readRotation buffer zxy s = (Ok v, s') -> ext s' = ext s.
Proof.
  intros H. unfold readRotation in H.
  apply bind_Ok in H as (x & s1 & H1 & H). apply readInt32_Ok in H1.
  apply bind_Ok in H as (y & s2 & H2 & H). apply readInt32_Ok in H2.
  apply bind_Ok in H as (z & s3 & H3 & H). apply readInt32_Ok in H3.
  apply ret_Ok in H as [_ ->]. congruence.
Qed.

(** A conditional update of the bone created last keeps its parent. *)
Lemma when_updateBone_last c (f : Bone -> Bone) arena b (s s' : state (list Bone)) u :
  (forall b0, parent (f b0) = parent b0) ->
  ext s = arena ++ [b] ->
  when c (updateBone (length arena) f) s = (Ok u, s') ->
  exists b', ext s' = arena ++ [b'] /\ parent b' = parent b.
Proof.
  intros Hf Hs H. destruct c; cbn [when] in H.
  - unfold updateBone, modify in H. inversion H; subst s'. cbn [ext].
    rewrite Hs, alter_last. eauto.
  - apply ret_Ok in H as [_ ->]. eauto.
Qed.

Lemma readBoneRecord_Ok parentBone (s s' : state (list Bone)) bone chunkOfs childOfs siblingOfs :
  readBoneRecord buffer parentBone s = (Ok (bone, chunkOfs, childOfs, siblingOfs), s') ->
  bone = length (ext s)
  /\ exists b, ext s' = ext s ++ [b] /\ parent b = parentBone.
Proof.
  intros H. unfold readBoneRecord in H.
  apply bind_Ok in H as (ofs & s0 & Ht & H). inversion Ht; subst ofs s0; clear Ht.
  apply bind_Ok in H as (flags & s1 & H1 & H). apply readUInt32_Ok in H1 as (_ & -> & _).
  apply bind_Ok in H as (cofs & s2 & H2 & H). apply readUInt32_Ok in H2 as (_ & -> & _).
  cbn [pos ext] in H.
  apply bind_Ok in H as (position & s3 & H3 & H). apply readVector3_Ok in H3.
  apply bind_Ok in H as (rotation & s4 & H4 & H). apply readRotation_Ok in H4.
  apply bind_Ok in H as (scale & s5 & H5 & H). apply readVector3_Ok in H5.
  apply bind_Ok in H as (ch & s6 & H6 & H). apply readUInt32_Ok in H6 as (_ & -> & _).
  apply bind_Ok in H as (sb & s7 & H7 & H). apply readUInt32_Ok in H7 as (_ & -> & _).
  cbn [pos ext] in H.
  assert (E5 : ext s5 = ext s) by (cbn [ext] in *; congruence).
  apply bind_Ok in H as (bn & s8 & H8 & H).
  unfold newBone in H8. cbn [pos ext] in H8. inversion H8; subst bn s8; clear H8.
  rewrite E5 in H.
  assert (E8 : ext (State (pos s5 + 4 + 4) (ext s ++ [default_Bone]))
               = ext s ++ [default_Bone]) by reflexivity.
  revert E8 H. generalize (State (pos s5 + 4 + 4) (ext s ++ [default_Bone])).
  intros s8 E8 H.
  apply bind_Ok in H as (u1 & s9 & H9 & H).
  destruct (when_updateBone_last _ (copy_position position) _ _ _ _ _
              (fun _ => eq_refl) E8 H9) as (b9 & E9 & P9).
  apply bind_Ok in H as (u2 & s10 & H10 & H).
  destruct (when_updateBone_last _ (copy_rotation rotation) _ _ _ _ _
              (fun _ => eq_refl) E9 H10) as (b10 & E10 & P10).
  apply bind_Ok in H as (u3 & s11 & H11 & H).
  destruct (when_updateBone_last _ (copy_scale scale) _ _ _ _ _
              (fun _ => eq_refl) E10 H11) as (b11 & E11 & P11).
  apply bind_Ok in H as (u4 & s12 & H12 & H).
  apply ret_Ok in H as [H ->]. inversion H; subst. split; [reflexivity|].
  destruct parentBone as [p|].
  - unfold updateBone, modify in H12. injection H12 as _ <-. cbn [ext].
    rewrite E11, alter_last. eexists. split; [reflexivity|]. reflexivity.
  - apply ret_Ok in H12 as [_ ->]. exists b11. split; [exact E11|].
    rewrite P11, P10, P9. reflexivity.
Qed.

Variable readMeshData : M (state (list Bone)) DecodeError unit.
Hypothesis mesh_keeps : keeps_arena readMeshData.

Lemma readBone_forest fuel : forall parentBone s s',
  readBone buffer readMeshData fuel parentBone s = (Ok tt, s') ->
  exists b new,
    ext s' = ext s ++ b :: new
    /\ parent b = parentBone
    /\ forest_from (length (ext s)) parentBone (b :: new).
Proof.
  induction fuel as [|fuel IH]; intros parentBone s s' H; [discriminate|].
  rewrite readBone_S in H.
  apply bind_Ok in H as ([[[bone chunkOfs] childOfs] siblingOfs] & s1 & Hrec & H).
  apply readBoneRecord_Ok in Hrec as (-> & b & E1 & Pb).
  apply bind_Ok in H as (u1 & s2 & Hmesh & H).
  assert (E2 : ext s2 = ext s1).
  { destruct (negb (chunkOfs =? 0)); cbn [when] in Hmesh.
    - apply bind_Ok in Hmesh as (u & s0 & Hs & Hm).
      apply seek_Ok in Hs as [-> _].
      pose proof (mesh_keeps (State chunkOfs (ext s1))) as K.
      rewrite Hm in K. exact K.
    - apply ret_Ok in Hmesh as [_ ->]. reflexivity. }
  apply bind_Ok in H as (u2 & s3 & Hchild & H).
  assert (E3 : exists new1,
             ext s3 = ext s2 ++ new1
             /\ forest_from (length (ext s2)) (Some (length (ext s))) new1
             /\ forall i b1, new1 !! i = Some b1 -> parent b1 <> None).
  { destruct (negb (childOfs =? 0)); cbn [when] in Hchild.
    - apply bind_Ok in Hchild as (u & s0 & Hs & Hc).
      apply seek_Ok in Hs as [-> _]. destruct u2.
      destruct (IH _ _ _ Hc) as (c & new1 & Ec & Pc & Fc). cbn [ext] in Ec, Fc.
      exists (c :: new1). split; [exact Ec|]. split; [exact Fc|].
      intros i b1 Hi Hn. specialize (Fc i b1 Hi). rewrite Hn in Fc. discriminate.
    - apply ret_Ok in Hchild as [_ ->]. exists []. rewrite app_nil_r.
      split; [reflexivity|]. split; intros i b1 Hi; discriminate. }
  destruct E3 as (new1 & E3 & F1 & N1).
  assert (E4 : exists new2,
             ext s' = ext s3 ++ new2
             /\ forest_from (length (ext s3)) parentBone new2).
  { destruct (negb (siblingOfs =? 0)); cbn [when] in H.
    - apply bind_Ok in H as (u & s0 & Hs & Hc).
      apply seek_Ok in Hs as [-> _].
      destruct (IH _ _ _ Hc) as (c & new2 & Ec & Pc & Fc).
      cbn [ext] in Ec, Fc. eauto.
    - apply ret_Ok in H as [_ ->]. exists []. rewrite app_nil_r.
      split; [reflexivity|]. intros i b1 Hi; discriminate. }
  destruct E4 as (new2 & E4 & F2).
  exists b, (new1 ++ new2). split.
  { rewrite E4, E3, E2, E1. rewrite <- !app_assoc. reflexivity. }
  split; [exact Pb|].
  assert (L2 : length (ext s2) = S (length (ext s))).
  { rewrite E2, E1, length_app. cbn [length]. lia. }
  assert (L3 : length (ext s3) = (S (length (ext s)) + length new1)%nat).
  { rewrite E3, length_app. lia. }
  intros i b1 Hi. destruct i as [|i].
  - inversion Hi; subst b1. rewrite Pb. destruct parentBone; auto.
  - change ((new1 ++ new2) !! i = Some b1) in Hi.
    destruct (decide (i < length new1)%nat) as [Hlt|Hge].
    + rewrite lookup_app_l in Hi by exact Hlt.
      pose proof (F1 i b1 Hi) as F. pose proof (N1 i b1 Hi) as N.
      destruct (parent b1) as [p|]; [|congruence].
      right. destruct F as [F|F]; [inversion F; lia | lia].
    + rewrite lookup_app_r in Hi by lia.
      pose proof (F2 _ b1 Hi) as F.
      destruct (parent b1) as [p|]; [|exact F].
      destruct F as [F|F]; [now left | right; lia].
Qed.
End Arena.

(** X12. Whenever [readBone] returns, the bones it created are appended to
    the ones that existed, the first of them is attached to the parent
    handed in, and each of them has as parent either that parent or a bone
    created earlier in the same read: the skeleton is a forest in creation
    order, for any mesh reader that leaves the bones alone. *)
Theorem readBone_builds_forest buffer readMeshData fuel parentBone s s' :
  keeps_arena readMeshData ->
  readBone buffer readMeshData fuel parentBone s = (Ok tt, s') ->
  exists b new,
    ext s' = ext s ++ b :: new
    /\ parent b = parentBone
    /\ forest_from (length (ext s)) parentBone (b :: new).
Proof. intros Hm H. exact (readBone_forest buffer readMeshData Hm fuel _ _ _ H). Qed.

Lemma readBone_builds_forest_witness :
  exists b new,
    [default_Bone;
     MkBone (Vec3 0 0 0) (MkEuler 0 0 0 XYZ) (Vec3 0 0 0) (Some 0%nat)]
    = [] ++ b :: new
    /\ parent b = None
    /\ forest_from 0 None (b :: new).
Proof.
  apply (readBone_builds_forest two_bone_buffer (fun s => (Ok tt, s)) 2 None
           (State 0 [])
           (State 104 [default_Bone;
                       MkBone (Vec3 0 0 0) (MkEuler 0 0 0 XYZ) (Vec3 0 0 0)
                              (Some 0%nat)])).
  - intros s. reflexivity.
  - vm_compute. reflexivity.
Defined.

(** X13. With chunk readers that return and never move the cursor
    backwards, [readChunk] comes to an end on every buffer, within as many
    turns as there are bytes left plus one; and on a buffer that holds no
    byte 0xFF it ends with an error. *)
Theorem readChunk_always_ends {G} buffer
    (readStripChunk readMaterialChunk readTinyChunk readBitsChunk
      : Z -> Z -> M (state (chunk_env G)) DecodeError unit) fuel s :
  advancing readStripChunk readMaterialChunk readTinyChunk readBitsChunk ->
  (0 < fuel)%nat -> Z.of_nat (length buffer) - pos s < Z.of_nat fuel ->
  fst (readChunk buffer readStripChunk readMaterialChunk readTinyChunk
                 readBitsChunk fuel s) <> OutOfFuel
  /\ (~ In 0xff buffer ->
      exists e, fst (readChunk buffer readStripChunk readMaterialChunk
                               readTinyChunk readBitsChunk fuel s) = Err e).
Proof.
  intros Hadv Hfuel Hlen. rewrite readChunk_start.
  pose proof (readChunk_loop_terminates buffer _ _ _ _ Hadv fuel (chunk_start s)
                Hfuel Hlen) as Hend.
  split; [exact Hend|]. intros Hno.
  destruct (readChunk_loop buffer readStripChunk readMaterialChunk readTinyChunk
              readBitsChunk fuel (chunk_start s)) as [[[]|e|] s'] eqn:E.
  - exfalso. apply Hno.
    destruct (readChunk_loop_finish buffer _ _ _ _ fuel _ _ E) as (_ & Hff & _).
    apply list_elem_of_In. eapply list_elem_of_lookup_2. exact Hff.
  - eauto.
  - now destruct Hend.
Qed.

Lemma readChunk_always_ends_witness :
  fst (readChunk [0x00; 0x00; 0x25; 0x00] skip_chunk skip_chunk skip_chunk
                 skip_chunk 5 (chunk_state0 0)) <> OutOfFuel
  /\ (~ In 0xff [0x00; 0x00; 0x25; 0x00] ->
      exists e, fst (readChunk [0x00; 0x00; 0x25; 0x00] skip_chunk skip_chunk
                               skip_chunk skip_chunk 5 (chunk_state0 0)) = Err e).
Proof.
  apply readChunk_always_ends.
  - intros head flag s. unfold processChunk, skip_chunk.
    repeat match goal with |- context [if ?c then _ else _] => destruct c end;
      (split; [discriminate | cbn; lia]).
  - lia.
  - cbn. lia.
Defined.

End NjMore.

(** ** The model viewer, continued *)
Module ViewerMore.
Import Eff Viewer ViewerDefs ViewerMoreDefs EffFacts ViewerFacts.

Lemma same_texture_refl t : same_texture t t.
Proof. repeat split; auto. Qed.

Lemma same_texture_trans t1 t2 t3 :
  same_texture t1 t2 -> same_texture t2 t3 -> same_texture t1 t3.
Proof.
  intros (A1 & A2 & A3 & A4 & A5 & A6 & A7 & A8) (B1 & B2 & B3 & B4 & B5 & B6 & B7 & B8).
  repeat split; try congruence; auto.
Qed.

Lemma marked_refl m : marked m m.
Proof.
  induction m as [|e m IH]; constructor; [|exact IH].
  split; [reflexivity | apply same_texture_refl].
Qed.

Lemma marked_trans m1 m2 m3 : marked m1 m2 -> marked m2 m3 -> marked m1 m3.
Proof.
  intros H12. revert m3. induction H12 as [|e1 e2 m1 m2 [K12 T12] _ IH];
    intros m3 H23; inversion H23 as [|? e3 ? m3' [K23 T23] H23']; subst;
    constructor.
  - split; [congruence | eapply same_texture_trans; eassumption].
  - apply IH. exact H23'.
Qed.

Lemma marked_map_update f k m :
  (forall t, same_texture t (f t)) -> marked m (map_update f k m).
Proof.
  intros Hf. induction m as [|[k' t] m IH]; [constructor|].
  cbn [map_update]. destruct (decide (k' = k)).
  - constructor; [split; [reflexivity | apply Hf] | apply marked_refl].
  - constructor; [split; [reflexivity | apply same_texture_refl] | exact IH].
Qed.

Lemma same_texture_set_applied t : same_texture t (set_applied t).
Proof. repeat split; auto. Qed.

Lemma same_texture_set_needsUpdate t : same_texture t (set_needsUpdate t).
Proof. repeat split; auto. Qed.

Lemma marked_map_get m m' key t :
  marked m m' -> map_get m key = Some t ->
  exists t', map_get m' key = Some t' /\ same_texture t t'.
Proof.
  intros H. induction H as [|[k1 t1] [k2 t2] m m' [K T] _ IH]; [discriminate|].
  cbn [fst snd] in K, T. subst k2. cbn [map_get].
  destruct (decide (k1 = key)); [|exact IH].
  intros E. inversion E; subst. eauto.
Qed.

Lemma flagged_marked m m' key : marked m m' -> flagged m key -> flagged m' key.
Proof.
  intros H (t & Hg & Ha & Hn).
  destruct (marked_map_get _ _ _ _ H Hg) as (t' & Hg' & T).
  exists t'. split; [exact Hg'|].
  destruct T as (_ & _ & _ & _ & _ & _ & Tn & Ta). auto.
Qed.

Lemma map_get_update f k m t :
  map_get m k = Some t -> map_get (map_update f k m) k = Some (f t).
Proof.
  induction m as [|[k' t'] m IH]; [discriminate|].
  cbn [map_get map_update]. destruct (decide (k' = k)) as [->|NE].
  - intros E. inversion E; subst. cbn [map_get]. now rewrite decide_True.
  - intros E. cbn [map_get]. rewrite decide_False by exact NE. exact (IH E).
Qed.

Lemma map_has_get m k : map_has m k = true -> exists t, map_get m k = Some t.
Proof. unfold map_has. destruct (map_get m k); [eauto | discriminate]. Qed.

Lemma In_map_has m k t : In (k, t) m -> map_has m k = true.
Proof.
  unfold map_has. induction m as [|[k' t'] m IH]; [contradiction|].
  cbn [map_get]. destruct (decide (k' = k)); [reflexivity|].
  intros [E|Hin]; [inversion E; contradiction | exact (IH Hin)].
Qed.

(** *** The textures of a PVM *)



Section ArchiveTextures.
Variable W : Type.
Variable CanvasRenderingContext2D : Type.
Variable parsePvr : list Z -> M W js_exn ImageData.
Variable parsePvm : list Z -> M W js_exn (list PVMEntry).
Variable createCanvas : M W js_exn Canvas.
Variable getContext2d : Canvas -> M W js_exn (option CanvasRenderingContext2D).
Variable putImageData : CanvasRenderingContext2D -> ImageData -> M W js_exn unit.
Variable newCanvasTexture : Canvas -> M W js_exn Texture.


End ArchiveTextures.

(** *** File names *)

Lemma split_nonempty sep s : split sep s <> [].
Proof.
  destruct s as [|c s]; cbn [split]; [discriminate|].
  destruct (Ascii.eqb c sep); [discriminate|].
  destruct (split sep s); discriminate.
Qed.

Lemma split_no_sep sep s : has_char sep s = false -> split sep s = [s].
Proof.
  induction s as [|c s IH]; cbn [has_char split]; [reflexivity|].
  intros H. apply orb_false_iff in H as [Hc Hs].
  rewrite Hc, (IH Hs). reflexivity.
Qed.

Lemma split_app sep a b :
  split sep (a +:+ String sep b) = split sep a ++ split sep b.
Proof.
  induction a as [|c a IH].
  - change ("" +:+ String sep b) with (String sep b). cbn [split app].
    rewrite Ascii.eqb_refl. reflexivity.
  - change (String c a +:+ String sep b) with (String c (a +:+ String sep b)).
    cbn [split].
    destruct (Ascii.eqb c sep); [now rewrite IH|].
    rewrite IH. pose proof (split_nonempty sep a) as Hne.
    destruct (split sep a) as [|w ws]; [contradiction|]. reflexivity.
Qed.

Lemma has_char_app c a b :
  has_char c (a +:+ b) = has_char c a || has_char c b.
Proof.
  induction a as [|c' a IH]; [reflexivity|].
  change (String c' a +:+ b) with (String c' (a +:+ b)). cbn [has_char].
  rewrite IH. apply orb_assoc.
Qed.

Lemma last_app_nonempty {A} (l1 l2 : list A) d :
  l2 <> [] -> List.last (l1 ++ l2) d = List.last l2 d.
Proof.
  intros Hne. induction l1 as [|a l1 IH]; [reflexivity|].
  cbn [app]. change (List.last (a :: l1 ++ l2) d)
    with (match l1 ++ l2 with [] => a | _ => List.last (l1 ++ l2) d end).
  destruct (l1 ++ l2) eqn:E; [|exact IH].
  apply app_eq_nil in E as [_ E]. contradiction.
Qed.

Lemma stem_of_file name ext :
  has_char "/" name = false -> has_char "." name = false ->
  has_char "/" ext = false ->
  stem (name +:+ "." +:+ ext) = name.
Proof.
  intros Hn Hd He. unfold stem, basename.
  change ("." +:+ ext) with (String "." ext).
  rewrite (split_no_sep "/").
  2:{ rewrite has_char_app, Hn. cbn [has_char]. now rewrite He. }
  cbn [List.last]. rewrite split_app, (split_no_sep "." name Hd). reflexivity.
Qed.

Lemma stem_of_path dir name ext :
  has_char "/" name = false -> has_char "." name = false ->
  has_char "/" ext = false ->
  stem (dir +:+ "/" +:+ name +:+ "." +:+ ext) = name.
Proof.
  intros Hn Hd He.
  rewrite <- (stem_of_file name ext Hn Hd He) at 2.
  unfold stem, basename. f_equal. f_equal.
  change ("/" +:+ name +:+ "." +:+ ext) with (String "/" (name +:+ "." +:+ ext)).
  rewrite split_app. apply last_app_nonempty, split_nonempty.
Qed.

Section ModelTextures.
Variable W : Type.
Variable BufferGeometry Clip Bone : Type.
Variable toLowerCase : string -> string.
Variable fetch : string -> M W js_exn (Response W).
Variable parseNinjaModel : list Z -> M W js_exn (NinjaModel BufferGeometry Clip Bone).
Variable setAnimations : list Clip -> M W js_exn unit.

Lemma keeps_ret {A} (a : A) : keeps (@ret (env W) js_exn A a).
Proof. intros s. apply marked_refl. Qed.

Lemma keeps_throw {A} e : keeps (@throw (env W) js_exn A e).
Proof. intros s. apply marked_refl. Qed.

Lemma keeps_get : keeps (@get (env W) js_exn).
Proof. intros s. apply marked_refl. Qed.

Lemma keeps_bind {A B} (c : M (env W) js_exn A) (k : A -> M (env W) js_exn B) :
  keeps c -> (forall a, keeps (k a)) -> keeps (bind c k).
Proof.
  intros Hc Hk s. unfold bind. specialize (Hc s).
  destruct (c s) as [[a|e|] s1]; cbn [snd] in *; try exact Hc.
  eapply marked_trans; [exact Hc | apply Hk].
Qed.

Lemma keeps_liftW {A} (c : M W js_exn A) : keeps (liftW c).
Proof.
  intros s. unfold liftW. destruct (c (world s)) as [r w]. apply marked_refl.
Qed.

Lemma keeps_map_update f key :
  (forall t, same_texture t (f t)) ->
  keeps (modify (fun s : env W => Env (world s) (map_update f key (textureMap s)))).
Proof. intros Hf s. cbn. now apply marked_map_update. Qed.

Lemma keeps_apply_texture material key : keeps (apply_texture W material key).
Proof.
  unfold apply_texture. apply keeps_bind; [|intros; apply keeps_ret].
  apply keeps_map_update, same_texture_set_applied.
Qed.

Lemma keeps_fuzzy_match textureName entries :
  keeps (fuzzy_match W toLowerCase textureName entries).
Proof.
  induction entries as [|[[n|key] t] rest IH]; cbn [fuzzy_match].
  - apply keeps_ret.
  - exact IH.
  - destruct textureName as [tn|]; [|apply keeps_throw].
    destruct (_ || _ || _); [apply keeps_ret | exact IH].
Qed.

Ltac keeps_step :=
  first [ apply keeps_ret | apply keeps_throw | apply keeps_get
        | apply keeps_liftW | apply keeps_apply_texture
        | apply keeps_fuzzy_match
        | apply keeps_map_update; first [ apply same_texture_set_applied
                                        | apply same_texture_set_needsUpdate ]
        | apply keeps_bind; [|intros] ].

Lemma keeps_applyTextureToMaterial material materialOpts
    (parsedModel : NinjaModel BufferGeometry Clip Bone) materialIndex :
  keeps (applyTextureToMaterial W BufferGeometry Clip Bone toLowerCase
           material materialOpts parsedModel materialIndex).
Proof.
  unfold applyTextureToMaterial.
  repeat first
    [ keeps_step
    | match goal with
      | |- keeps (match ?x with _ => _ end) => destruct x
      | |- keeps (if ?x then _ else _) => destruct x
      end ].
Qed.

Lemma keeps_map_materials (parsedModel : NinjaModel BufferGeometry Clip Bone) l :
  forall index,
    keeps (map_materials W BufferGeometry Clip Bone toLowerCase parsedModel l index).
Proof.
  induction l as [|materialOpts l IH]; intros index; cbn [map_materials].
  - apply keeps_ret.
  - apply keeps_bind.
    + unfold make_material. apply keeps_bind; [|intros; apply keeps_ret].
      apply keeps_applyTextureToMaterial.
    + intros m. apply keeps_bind; [apply IH | intros; apply keeps_ret].
Qed.

Lemma keeps_loadModel modelPath :
  keeps (loadModel W BufferGeometry Clip Bone toLowerCase fetch parseNinjaModel
           setAnimations modelPath).
Proof.
  unfold loadModel.
  apply keeps_bind; [apply keeps_liftW | intros response].
  destruct (negb (ok response)); [apply keeps_throw|].
  apply keeps_bind; [apply keeps_liftW | intros modelBuffer].
  apply keeps_bind; [apply keeps_liftW | intros parsedModel].
  apply keeps_bind.
  { destruct (clips parsedModel) as [[|c cs]|]; apply keeps_liftW. }
  intros _. destruct (geometry parsedModel); [|apply keeps_throw].
  destruct (materials parsedModel); [|apply keeps_throw].
  apply keeps_bind; [apply keeps_map_materials | intros; apply keeps_ret].
Qed.

(** *** The texture of a material *)

Lemma apply_texture_Ok material key (s s' : env W) m b :
  map_has (textureMap s) key = true ->
  (m <- apply_texture W material key ;; ret (m, true))%eff s = (Ok (m, b), s') ->
  refers_to_applied m s'.
Proof.
  intros Hhas H. unfold apply_texture in H.
  apply bind_Ok in H as (m0 & s0 & H0 & H).
  apply ret_Ok in H as [H ->]. inversion H; subst m0 b; clear H.
  apply bind_Ok in H0 as (u & s1 & Hm & H0).
  apply ret_Ok in H0 as [-> ->].
  unfold modify in Hm. injection Hm as Hs1. subst s1.
  intros key' Hk. cbn [map] in Hk. inversion Hk; subst key'. cbn [textureMap].
  destruct (map_has_get _ _ Hhas) as (t & Ht).
  exists (set_applied t). split; [now apply map_get_update | reflexivity].
Qed.

Lemma fuzzy_match_Ok textureName entries (s s' : env W) key :
  fuzzy_match W toLowerCase textureName entries s = (Ok (Some key), s') ->
  s' = s /\ map_has entries key = true.
Proof.
  induction entries as [|[[n|k] t] rest IH]; cbn [fuzzy_match]; intros H.
  - apply ret_Ok in H as [H _]. discriminate.
  - destruct (IH H) as [-> Hin]. split; [reflexivity|].
    unfold map_has in *. cbn [map_get].
    destruct (decide (KNum n = key)); [reflexivity | exact Hin].
  - destruct textureName as [tn|]; [|discriminate].
    destruct (_ || _ || _).
    + apply ret_Ok in H as [H ->]. inversion H; subst key.
      split; [reflexivity|]. unfold map_has. cbn [map_get].
      now rewrite decide_True.
    + destruct (IH H) as [-> Hin]. split; [reflexivity|].
      unfold map_has in *. cbn [map_get].
      destruct (decide (KStr k = key)); [reflexivity | exact Hin].
Qed.

Lemma applyTextureToMaterial_Ok material materialOpts
    (parsedModel : NinjaModel BufferGeometry Clip Bone) materialIndex s m s' :
  map material = None ->
  applyTextureToMaterial W BufferGeometry Clip Bone toLowerCase
    material materialOpts parsedModel materialIndex s = (Ok m, s') ->
  forall key, map m = Some key -> flagged (textureMap s') key.
Proof.
  intros Hnone H. unfold applyTextureToMaterial in H.
  assert (J0 : refers_to_applied material s) by (intros key Hk; congruence).
  clear Hnone. revert J0 H. generalize material as m0. intros m0 J0 H.
  (* strategy 1 *)
  apply bind_Ok in H as (s0 & s0' & Hg & H). inversion Hg; subst s0 s0'; clear Hg.
  apply bind_Ok in H as ([m1 a1] & s1 & H1 & H).
  assert (J1 : refers_to_applied m1 s1).
  { destruct (match textureNames parsedModel with
              | Some names => texture_name_at names (texId materialOpts)
              | None => None
              end) as [tn|].
    - destruct (_ && _ && map_has (textureMap s) (KStr tn)) eqn:C.
      + apply andb_true_iff in C as [_ C]. exact (apply_texture_Ok _ _ _ _ _ _ C H1).
      + apply ret_Ok in H1 as [E ->]. inversion E; subst. exact J0.
    - apply ret_Ok in H1 as [E ->]. inversion E; subst. exact J0. }
  clear H1 J0.
  (* strategy 2 *)
  apply bind_Ok in H as (s0 & s0' & Hg & H). inversion Hg; subst s0 s0'; clear Hg.
  apply bind_Ok in H as ([m2 a2] & s2 & H2 & H).
  assert (J2 : refers_to_applied m2 s2).
  { destruct (_ && _ && map_has (textureMap s1) (KNum (texId materialOpts))) eqn:C.
    - apply andb_true_iff in C as [_ C]. exact (apply_texture_Ok _ _ _ _ _ _ C H2).
    - apply ret_Ok in H2 as [E ->]. inversion E; subst. exact J1. }
  clear H2 J1.
  (* strategy 3 *)
  apply bind_Ok in H as (s0 & s0' & Hg & H). inversion Hg; subst s0 s0'; clear Hg.
  apply bind_Ok in H as ([m3 a3] & s3 & H3 & H).
  assert (J3 : refers_to_applied m3 s3).
  { destruct (negb a2 && _).
    - apply bind_Ok in H3 as (found & s0 & Hf & H3).
      destruct found as [key|].
      + apply fuzzy_match_Ok in Hf as [-> C].
        exact (apply_texture_Ok _ _ _ _ _ _ C H3).
      + apply ret_Ok in H3 as [E ->]. inversion E; subst.
        assert (Hs : textureMap s0 = textureMap s2).
        { clear - Hf. revert Hf.
          generalize (match textureNames parsedModel with
                      | Some names => texture_name_at names (texId materialOpts)
                      | None => None
                      end) as tn.
          intros tn. generalize (textureMap s2) at 1 as entries.
          induction entries as [|[[n|k] t] rest IH]; cbn [fuzzy_match]; intros Hf.
          - apply ret_Ok in Hf as [_ ->]. reflexivity.
          - exact (IH Hf).
          - destruct tn; [|discriminate].
            destruct (_ || _ || _); [|exact (IH Hf)].
            apply ret_Ok in Hf as [_ ->]. reflexivity. }
        intros key Hk. destruct (J2 key Hk) as (t & Ht & Ha).
        exists t. rewrite Hs. auto.
    - apply ret_Ok in H3 as [E ->]. inversion E; subst. exact J2. }
  clear H3 J2.
  apply bind_Ok in H as (u & s4 & H4 & H). apply ret_Ok in H as [-> ->].
  intros key Hk. rewrite Hk in H4. unfold modify in H4. injection H4 as Hs4.
  subst s4.
  cbn [textureMap]. destruct (J3 key Hk) as (t & Ht & Ha).
  exists (set_needsUpdate t). split; [now apply map_get_update|].
  split; [exact Ha | reflexivity].
Qed.

Lemma make_material_Ok (parsedModel : NinjaModel BufferGeometry Clip Bone)
    materialOpts index s mat s' :
  make_material W BufferGeometry Clip Bone toLowerCase parsedModel materialOpts
    index s = (Ok mat, s') ->
  textured (textureMap s') mat.
Proof.
  intros H. unfold make_material in H.
  apply bind_Ok in H as (m & s1 & Hm & H). apply ret_Ok in H as [-> ->].
  intros p key Hp Hk. inversion Hp; subst p.
  eapply applyTextureToMaterial_Ok; [|exact Hm|exact Hk].
  destruct (diffuseColor materialOpts); reflexivity.
Qed.

Lemma map_materials_textured (parsedModel : NinjaModel BufferGeometry Clip Bone) l :
  forall index s ms s',
    map_materials W BufferGeometry Clip Bone toLowerCase parsedModel l index s
      = (Ok ms, s') ->
    Forall (textured (textureMap s')) ms.
Proof.
  induction l as [|materialOpts l IH]; intros index s ms s' H.
  - apply ret_Ok in H as [-> _]. constructor.
  - cbn [map_materials] in H.
    apply bind_Ok in H as (m & s1 & Hm & H).
    apply bind_Ok in H as (ms' & s2 & Hms & H).
    apply ret_Ok in H as [-> ->].
    constructor; [|exact (IH _ _ _ _ Hms)].
    pose proof (keeps_map_materials parsedModel l (S index) s1) as K.
    rewrite Hms in K. cbn [snd] in K.
    intros p key Hp Hk.
    eapply flagged_marked; [exact K|].
    exact (make_material_Ok _ _ _ _ _ _ Hm p key Hp Hk).
Qed.

Lemma loadModel_textured modelPath s mesh s' :
  loadModel W BufferGeometry Clip Bone toLowerCase fetch parseNinjaModel
    setAnimations modelPath s = (Ok mesh, s') ->
  Forall (textured (textureMap s')) (mesh_materials mesh).
Proof.
  intros H. unfold loadModel in H.
  apply bind_Ok in H as (response & s1 & _ & H).
  destruct (negb (ok response)); [discriminate|].
  apply bind_Ok in H as (modelBuffer & s2 & _ & H).
  apply bind_Ok in H as (parsedModel & s3 & _ & H).
  apply bind_Ok in H as (u & s4 & _ & H).
  destruct (geometry parsedModel) as [geom|]; [|discriminate].
  destruct (materials parsedModel) as [materialOpts|]; [|discriminate].
  apply bind_Ok in H as (ms & s5 & Hms & H).
  apply ret_Ok in H as [-> ->]. cbn [mesh_materials].
  apply map_materials_textured in Hms.
  destruct (Nat.eqb (length ms) 0); [|exact Hms].
  apply Forall_app. split; [exact Hms|].
  constructor; [|constructor]. intros p key Hp. discriminate.
Qed.

(** *** When applying a texture throws *)

Lemma fuzzy_match_undefined_string entries (s : env W) :
  has_string_key entries ->
  exists msg, fuzzy_match W toLowerCase None entries s = (Err (TypeError msg), s).
Proof.
  intros (k & t & Hin). induction entries as [|[[n|k'] t'] rest IH];
    [contradiction| |]; cbn [fuzzy_match].
  - destruct Hin as [E|Hin]; [discriminate | exact (IH Hin)].
  - eauto.
Qed.

Lemma fuzzy_match_undefined_numbers entries (s : env W) :
  ~ has_string_key entries ->
  fuzzy_match W toLowerCase None entries s = (Ok None, s).
Proof.
  induction entries as [|[[n|k'] t'] rest IH]; intros Hno; cbn [fuzzy_match].
  - reflexivity.
  - apply IH. intros (k & t & Hin). apply Hno. exists k, t. now right.
  - exfalso. apply Hno. exists k', t'. now left.
Qed.

Lemma fuzzy_match_defined tn entries (s : env W) :
  exists found, fuzzy_match W toLowerCase (Some tn) entries s = (Ok found, s).
Proof.
  induction entries as [|[[n|k'] t'] rest IH]; cbn [fuzzy_match].
  - eexists; reflexivity.
  - exact IH.
  - destruct (_ || _ || _); [eexists; reflexivity | exact IH].
Qed.

Lemma fuzzy_match_stem tn key t entries (s : env W) :
  stem key = tn -> In (KStr key, t) entries ->
  exists found, fuzzy_match W toLowerCase (Some tn) entries s = (Ok (Some found), s).
Proof.
  intros Hstem. induction entries as [|[[n|k'] t'] rest IH]; [contradiction| |];
    cbn [fuzzy_match]; intros Hin.
  - destruct Hin as [E|Hin]; [discriminate | exact (IH Hin)].
  - destruct (_ || _ || _) eqn:C; [eexists; reflexivity|].
    destruct Hin as [E|Hin]; [|exact (IH Hin)].
    inversion E; subst k' t'. rewrite Hstem in C.
    apply orb_false_iff in C as [_ C].
    now rewrite bool_decide_eq_true_2 in C.
Qed.

Lemma applyTextureToMaterial_throws material materialOpts
    (parsedModel : NinjaModel BufferGeometry Clip Bone) materialIndex s :
  is_Some (textureNames parsedModel) -> texId materialOpts < 0 ->
  has_string_key (textureMap s) ->
  exists msg,
    applyTextureToMaterial W BufferGeometry Clip Bone toLowerCase
      material materialOpts parsedModel materialIndex s
    = (Err (TypeError msg), s).
Proof.
  intros [names Hn] Hneg Hkey. unfold applyTextureToMaterial. rewrite Hn.
  unfold texture_name_at.
  destruct (Z.ltb_spec (texId materialOpts) 0); [|lia].
  assert (Hin : (Z.of_nat (length names) >? texId materialOpts) = true).
  { rewrite Z.gtb_ltb. apply Z.ltb_lt. lia. }
  assert (Hge : (texId materialOpts >=? 0) = false).
  { rewrite Z.geb_leb. apply Z.leb_gt. lia. }
  rewrite Hin, Hge. cbn [negb andb].
  destruct (fuzzy_match_undefined_string _ s Hkey) as (msg & E).
  exists msg. unfold bind, get, ret. cbn [negb andb]. cbv beta iota.
  cbn [negb andb]. cbv beta iota. rewrite E. reflexivity.
Qed.

Lemma returns_ret {A} (a : A) : returns (@ret (env W) js_exn A a).
Proof. intros s. eexists _, _. reflexivity. Qed.

Lemma returns_get : returns (@get (env W) js_exn).
Proof. intros s. eexists _, _. reflexivity. Qed.

Lemma returns_modify f : returns (@modify (env W) js_exn f).
Proof. intros s. eexists _, _. reflexivity. Qed.

Lemma returns_bind {A B} (c : M (env W) js_exn A) (k : A -> M (env W) js_exn B) :
  returns c -> (forall a, returns (k a)) -> returns (bind c k).
Proof.
  intros Hc Hk s. destruct (Hc s) as (a & s1 & E).
  rewrite (bind_step _ _ _ _ _ E). apply Hk.
Qed.

Lemma returns_apply_texture material key : returns (apply_texture W material key).
Proof.
  unfold apply_texture. apply returns_bind; [apply returns_modify|].
  intros _. apply returns_ret.
Qed.

Lemma returns_fuzzy_match tn entries :
  returns (fuzzy_match W toLowerCase (Some tn) entries).
Proof.
  intros s. destruct (fuzzy_match_defined tn entries s) as (found & E). eauto.
Qed.

Ltac returns_step :=
  first [ apply returns_ret | apply returns_get | apply returns_modify
        | apply returns_apply_texture | apply returns_fuzzy_match
        | apply returns_bind; [|intros] ].

Ltac returns_auto :=
  repeat first
    [ returns_step
    | match goal with
      | |- returns (if _ && false then _ else _) => rewrite andb_false_r
      | |- returns (match ?x with _ => _ end) => destruct x
      | |- returns (if ?x then _ else _) => destruct x
      end ].

Lemma applyTextureToMaterial_returns material materialOpts
    (parsedModel : NinjaModel BufferGeometry Clip Bone) materialIndex s :
  ~ (is_Some (textureNames parsedModel) /\ texId materialOpts < 0
     /\ has_string_key (textureMap s)) ->
  exists m,
    fst (applyTextureToMaterial W BufferGeometry Clip Bone toLowerCase
           material materialOpts parsedModel materialIndex s) = Ok m.
Proof.
  intros Hno.
  assert (Hret : forall c : M (env W) js_exn MeshPhongMaterial,
             returns c -> exists m, fst (c s) = Ok m).
  { intros c Hc. destruct (Hc s) as (m & s' & E). exists m. now rewrite E. }
  unfold applyTextureToMaterial.
  destruct (textureNames parsedModel) as [names|] eqn:Hn.
  2:{ apply Hret. returns_auto. }
  unfold texture_name_at.
  destruct (Z.ltb_spec (texId materialOpts) 0) as [Hneg|Hpos].
  - assert (Hin : (Z.of_nat (length names) >? texId materialOpts) = true).
    { rewrite Z.gtb_ltb. apply Z.ltb_lt. lia. }
    assert (Hge : (texId materialOpts >=? 0) = false).
    { rewrite Z.geb_leb. apply Z.leb_gt. lia. }
    rewrite Hin, Hge.
    unfold bind, get, ret. cbn [negb andb]. cbv beta iota.
    cbn [negb andb]. cbv beta iota.
    rewrite fuzzy_match_undefined_numbers.
    + destruct (map material); eexists; reflexivity.
    + intros Hk. apply Hno. split; [eauto|]. split; assumption.
  - apply Hret.
    destruct (names !! Z.to_nat (texId materialOpts)) as [tn|] eqn:Hl.
    + returns_auto.
    + assert (Hin : (Z.of_nat (length names) >? texId materialOpts) = false).
      { apply lookup_ge_None in Hl. rewrite Z.gtb_ltb. apply Z.ltb_ge. lia. }
      rewrite Hin. returns_auto.
Qed.
End ModelTextures.

(** X14. However [loadModel] ends, with a mesh or with an exception, the
    texture map it was handed has the same keys in the same order and under
    each key the same texture: image, name, orientation and origin are
    untouched, and the flags [needsUpdate] and [applied] are raised at
    most, never cleared. *)
Theorem loadModel_keeps_texture_map (W BufferGeometry Clip Bone : Type)
    (toLowerCase : string -> string)
    (fetch : string -> M W js_exn (Response W))
    (parseNinjaModel : list Z -> M W js_exn (NinjaModel BufferGeometry Clip Bone))
    (setAnimations : list Clip -> M W js_exn unit)
    modelPath s :
  marked (textureMap s)
    (textureMap (snd (loadModel W BufferGeometry Clip Bone toLowerCase fetch
                        parseNinjaModel setAnimations modelPath s))).
Proof. apply keeps_loadModel. Qed.

(** X15. In the mesh that [loadModel] returns, every material that carries
    a texture carries one that is stored in the texture map, and that
    texture is flagged both as applied and as to upload ([needsUpdate])
    when the load is over. *)
Theorem loadModel_materials_use_map_textures (W BufferGeometry Clip Bone : Type)
    (toLowerCase : string -> string)
    (fetch : string -> M W js_exn (Response W))
    (parseNinjaModel : list Z -> M W js_exn (NinjaModel BufferGeometry Clip Bone))
    (setAnimations : list Clip -> M W js_exn unit)
    modelPath s mesh s' :
  loadModel W BufferGeometry Clip Bone toLowerCase fetch parseNinjaModel
    setAnimations modelPath s = (Ok mesh, s') ->
  Forall (textured (textureMap s')) (mesh_materials mesh).
Proof. apply loadModel_textured. Qed.

Lemma loadModel_materials_use_map_textures_witness :
  Forall (textured (TEX_map true)) (mesh_materials textured_mesh).
Proof.
  apply (loadModel_materials_use_map_textures unit unit unit unit
           (fun x => x) serve_bare_model (fun _ => ret textured_model)
           (fun _ => ret tt) "OBJ/A.NJ" (Env tt (TEX_map false))
           textured_mesh (Env tt (TEX_map true))).
  vm_compute. reflexivity.
Defined.

(** X16. [applyTextureToMaterial] throws in exactly one situation: the
    model has texture names, the material's texture id is negative (the -1
    that a chunk stream without texture chunk leaves) and the texture map
    holds a key that is a string, as the textures of a PVM are. Then the
    fuzzy match dereferences an undefined name and a TypeError leaves the
    function, the map untouched; in every other situation the function
    returns. *)
Theorem applyTextureToMaterial_throws_iff (W BufferGeometry Clip Bone : Type)
    (toLowerCase : string -> string)
    material materialOpts (parsedModel : NinjaModel BufferGeometry Clip Bone)
    materialIndex (s : env W) :
  (is_Some (textureNames parsedModel) /\ texId materialOpts < 0
   /\ has_string_key (textureMap s) ->
   exists msg,
     applyTextureToMaterial W BufferGeometry Clip Bone toLowerCase
       material materialOpts parsedModel materialIndex s
     = (Err (TypeError msg), s))
  /\ (~ (is_Some (textureNames parsedModel) /\ texId materialOpts < 0
         /\ has_string_key (textureMap s)) ->
      exists m,
        fst (applyTextureToMaterial W BufferGeometry Clip Bone toLowerCase
               material materialOpts parsedModel materialIndex s) = Ok m).
Proof.
  split.
  - intros (Hn & Hneg & Hkey). now apply applyTextureToMaterial_throws.
  - apply applyTextureToMaterial_returns.
Qed.

Lemma applyTextureToMaterial_throws_iff_witness :
  exists msg,
    applyTextureToMaterial unit unit unit unit (fun x => x)
      plain_material untextured_opts textured_model 0 (Env tt (TEX_map false))
    = (Err (TypeError msg), Env tt (TEX_map false)).
Proof.
  apply (proj1 (applyTextureToMaterial_throws_iff unit unit unit unit (fun x => x)
                  plain_material untextured_opts textured_model 0%nat
                  (Env tt (TEX_map false)))).
  split; [eexists; reflexivity|]. split; [reflexivity|].
  exists "TEX", (TEX_texture false). now left.
Defined.



(** X18. The fuzzy match of strategy 3 finds a texture for a texture name
    whenever the map holds a key that is a file path ending in that name
    and an extension, with or without directories before it: the part of
    the key between its last slash and the first dot after it is compared,
    case folded, with the name. *)
Theorem fuzzy_match_finds_file (W : Type) (toLowerCase : string -> string)
    dir name ext t entries (s : env W) :
  has_char "/" name = false -> has_char "." name = false ->
  has_char "/" ext = false ->
  In (KStr (name +:+ "." +:+ ext), t) entries
  \/ In (KStr (dir +:+ "/" +:+ name +:+ "." +:+ ext), t) entries ->
  exists found,
    fuzzy_match W toLowerCase (Some name) entries s = (Ok (Some found), s).
Proof.
  intros Hn Hd He [Hin|Hin].
  - exact (fuzzy_match_stem W toLowerCase name _ t entries s
             (stem_of_file name ext Hn Hd He) Hin).
  - exact (fuzzy_match_stem W toLowerCase name _ t entries s
             (stem_of_path dir name ext Hn Hd He) Hin).
Qed.

Lemma fuzzy_match_finds_file_witness :
  exists found,
    fuzzy_match unit (fun x => x) (Some "COCK")
      [(KNum 0, TEX_texture false); (KStr "OBJ/TEX/COCK.PVR", TEX_texture false)]
      (Env tt [])
    = (Ok (Some found), Env tt []).
Proof.
  apply (fuzzy_match_finds_file unit (fun x => x) "OBJ/TEX" "COCK" "PVR"
           (TEX_texture false)); try reflexivity.
  right. right. left. reflexivity.
Defined.

End ViewerMore.
